(** * Mython: the object runtime and the indentation-sensitive lexer

    A shallow embedding of [src/mython/runtime.cpp] and
    [src/mython/lexer.cpp], followed by the properties of the two
    components.  The first half of the file holds the definitions
    ([Module runtime], [Module parse]); the second half holds the lemmas
    ([Module runtime_facts], [Module parse_facts]). *)

From Stdlib Require Import ZArith Ascii String List Lia.
From stdpp Require Import base option gmap strings list.

Local Open Scope string_scope.

(** The double quote, for messages that quote a method name. *)
Definition dquote : string := String.String "034"%char EmptyString.

(* ===================================================================== *)
(** * The runtime ([namespace runtime]) *)
(* ===================================================================== *)

Module runtime.

(** Modelled from the spec: the class [ObjectHolder], declared in
    [runtime.h], which is not among the sources.  It is a nullable shared
    handle to a runtime value: the empty holder is the language's [None], a
    full one points into the store of live objects.  Owning and non-owning
    ([Share]) holders differ only in who frees the value, so both are a
    location here. *)
Definition loc := positive.
Definition ObjectHolder := option loc.

(** [ObjectHolder::None()] and [ObjectHolder::Share(object)]. *)
Definition None_ : ObjectHolder := None.
Definition Share (object : loc) : ObjectHolder := Some object.

(** [ObjectHolder::operator bool]: [Get() != nullptr]. *)
Definition to_bool (o : ObjectHolder) : bool :=
  match o with Some _ => true | None => false end.

(** Modelled from the spec: the type [Closure] of [runtime.h], a map from
    names to holders. *)
Abbreviation Closure := (gmap string ObjectHolder).

(** What C++ can throw out of the runtime: [std::runtime_error] with its
    message, or whatever else a method body throws. *)
Inductive exception :=
  | runtime_error (what : string)
  | other_exception (what : string).

(** The result of a C++ call: a value, an exception in flight, or undefined
    behaviour (a null pointer dereferenced). *)
Inductive Outcome (A : Type) :=
  | Ok (a : A)
  | Throw (e : exception)
  | Undefined.
Arguments Ok {A} a.
Arguments Throw {A} e.
Arguments Undefined {A}.

(** The result through a function: what [!] does to a comparison. *)
Definition Outcome_map {A B} (f : A -> B) (r : Outcome A) : Outcome B :=
  match r with
  | Ok a => Ok (f a)
  | Throw e => Throw e
  | Undefined => Undefined
  end.

(** The error of [ClassInstance::Call]. *)
Definition undefined_method (method : string) : exception :=
  runtime_error ("Call for an undefined method " ++ dquote ++ method ++ dquote).

Section Model.

(** The body of a method is owned by the syntax tree; the runtime only knows
    that it can be executed.  [Context] is the opaque output sink. *)
Variable Executable : Type.
Variable Context : Type.

(** Modelled from the spec: the struct [Method] of [runtime.h], with a name,
    the names of its formal parameters and a body. *)
Record Method := mkMethod {
  name : string;
  formal_params : list string;
  body : Executable;
}.

(** Modelled from the spec: the data members of the class [Class] of
    [runtime.h], under the names the constructor in [runtime.cpp] gives them.
    [v_table_] holds pointers to methods in the source; methods are
    immutable, so the table holds the methods themselves. *)
#[warnings="-register-all"]
Inductive Class := mkClass {
  name_ : string;
  methods_ : list Method;
  parent_ : option Class;
  v_table_ : gmap string Method;
}.

(** Modelled from the spec: the data members of the class [ClassInstance]
    of [runtime.h]: an instance refers to its class and owns its fields. *)
Record ClassInstance := mkClassInstance {
  class_ : Class;
  fields_ : Closure;
}.

(** Modelled from the spec: the classes derived from [Object] in
    [runtime.h], the kinds of runtime value: number, string, boolean, class
    and instance of a class. *)
Inductive Object :=
  | Number (value : Z)
  | String (value : string)
  | Bool (value : bool)
  | ClassValue (cls : Class)
  | Instance (self : ClassInstance).

(** The objects alive, by location, and the output sink: everything a method
    body can read or change. *)
Record World := mkWorld {
  heap : gmap loc Object;
  context : Context;
}.

(** A computation of the runtime: it runs in a world, and leaves a result
    and a world. *)
Definition M (A : Type) : Type := World -> Outcome A * World.

Definition ret {A} (a : A) : M A := fun w => (Ok a, w).
Definition bind {A B} (m : M A) (k : A -> M B) : M B :=
  fun w =>
    match m w with
    | (Ok a, w') => k a w'
    | (Throw e, w') => (Throw e, w')
    | (Undefined, w') => (Undefined, w')
    end.

(** [Executable::Execute(closure, context)], supplied by the evaluator. *)
Variable Execute : Executable -> Closure -> M ObjectHolder.

(** ** Narrowing a holder

    Modelled from the spec: [ObjectHolder::Get] and [ObjectHolder::TryAs<T>]
    of [runtime.h], the typed narrowing of a holder: the value of kind [T]
    the holder points to, or a null pointer when it is empty or holds
    another kind. *)

Definition Get (w : World) (o : ObjectHolder) : option Object :=
  match o with
  | Some l => heap w !! l
  | None => None
  end.

Definition TryAs_Bool (w : World) (o : ObjectHolder) : option bool :=
  match Get w o with Some (Bool b) => Some b | _ => None end.

Definition TryAs_Number (w : World) (o : ObjectHolder) : option Z :=
  match Get w o with Some (Number n) => Some n | _ => None end.

Definition TryAs_String (w : World) (o : ObjectHolder) : option string :=
  match Get w o with Some (String s) => Some s | _ => None end.

(** The pointer to the instance, together with the instance it points to. *)
Definition TryAs_ClassInstance (w : World) (o : ObjectHolder)
  : option (loc * ClassInstance) :=
  match o with
  | Some l =>
      match heap w !! l with
      | Some (Instance self) => Some (l, self)
      | _ => None
      end
  | None => None
  end.

(** ** [IsTrue] *)

Definition IsTrue (w : World) (object : ObjectHolder) : bool :=
  if to_bool object then
    if match TryAs_Bool w object with Some b => b | None => false end
    then true
    else if match TryAs_Number w object with
            | Some n => negb (n =? 0)%Z
            | None => false
            end
    then true
    else if match TryAs_String w object with
            | Some s => negb (String.length s =? 0)%nat
            | None => false
            end
    then true
    else false
  else false.

(** ** [Class] *)

(** One pass of [for (const auto& method : ...) v_table_[method.name] = &method]. *)
Definition fill_v_table (methods : list Method) (v_table : gmap string Method)
  : gmap string Method :=
  fold_left (fun vt method => <[name method := method]> vt) methods v_table.

(** [Class::Class(name, methods, parent)]. *)
Definition Class_new (name : string) (methods : list Method)
    (parent : option Class) : Class :=
  let from_parent :=
    match parent with
    | Some p => fill_v_table (methods_ p) ∅
    | None => ∅
    end in
  mkClass name methods parent (fill_v_table methods from_parent).

(** [Class::GetMethod]: the method, or a null pointer. *)
Definition GetMethod (cls : Class) (name : string) : option Method :=
  v_table_ cls !! name.

Definition GetName (cls : Class) : string := name_ cls.

(** ** [ClassInstance] *)

Definition ClassInstance_new (cls : Class) : ClassInstance :=
  mkClassInstance cls ∅.

Definition HasMethod (self : ClassInstance) (method : string)
    (argument_count : nat) : bool :=
  match GetMethod (class_ self) method with
  | Some p_method => (argument_count =? length (formal_params p_method))%nat
  | None => false
  end.

Definition Fields (self : ClassInstance) : Closure := fields_ self.

(** The fields of the instance a pointer leads to. *)
Definition Fields_at (w : World) (this : loc) : option Closure :=
  match heap w !! this with
  | Some (Instance self) => Some (Fields self)
  | _ => None
  end.

(** [for (i = 0; i < param_size; ++i) closure[formal_params[i]] = actual_args[i]];
    a short argument vector is read out of range, which is undefined. *)
Fixpoint bind_params (formal_params : list string)
    (actual_args : list ObjectHolder) (closure : Closure) : option Closure :=
  match formal_params with
  | [] => Some closure
  | p :: ps =>
      match actual_args with
      | a :: args => bind_params ps args (<[p := a]> closure)
      | [] => None
      end
  end.

(** [ClassInstance::Call], on the instance at [this]. *)
Definition Call (this : loc) (method : string)
    (actual_args : list ObjectHolder) : M ObjectHolder :=
  fun w =>
    match heap w !! this with
    | Some (Instance self) =>
        if HasMethod self method (length actual_args) then
          let closure : Closure := <["self" := Share this]> ∅ in
          match GetMethod (class_ self) method with
          | Some p_method =>
              match bind_params (formal_params p_method) actual_args closure with
              | Some closure => Execute (body p_method) closure w
              | None => (Undefined, w)
              end
          | None => (Undefined, w)
          end
        else (Throw (undefined_method method), w)
    | _ => (Undefined, w)
    end.

(** ** Comparison *)

(** [obj.TryAs<Bool>()->GetValue()]: a null pointer is dereferenced when the
    method did not return a [Bool]. *)
Definition Bool_value (obj : ObjectHolder) : M bool :=
  fun w =>
    match TryAs_Bool w obj with
    | Some b => (Ok b, w)
    | None => (Undefined, w)
    end.

(** The tail of [Equal]: both operands of one built-in kind, or an error. *)
Definition Equal_builtin (lhs rhs : ObjectHolder) : M bool :=
  fun w =>
    match TryAs_Bool w lhs, TryAs_Bool w rhs with
    | Some b1, Some b2 => (Ok (Bool.eqb b1 b2), w)
    | _, _ =>
        match TryAs_Number w lhs, TryAs_Number w rhs with
        | Some n1, Some n2 => (Ok (n1 =? n2)%Z, w)
        | _, _ =>
            match TryAs_String w lhs, TryAs_String w rhs with
            | Some s1, Some s2 => (Ok (String.eqb s1 s2), w)
            | _, _ =>
                (Throw (runtime_error "Cannot compare objects for equality"), w)
            end
        end
    end.

Definition Equal (lhs rhs : ObjectHolder) : M bool :=
  fun w =>
    if negb (to_bool lhs) && negb (to_bool rhs) then (Ok true, w)
    else
      match TryAs_ClassInstance w lhs with
      | Some (c_obj_lhs, self) =>
          if HasMethod self "__eq__" 1 then
            bind (Call c_obj_lhs "__eq__" [rhs]) Bool_value w
          else Equal_builtin lhs rhs w
      | None => Equal_builtin lhs rhs w
      end.

(** The tail of [Less]. *)
Definition Less_builtin (lhs rhs : ObjectHolder) : M bool :=
  fun w =>
    match TryAs_Bool w lhs, TryAs_Bool w rhs with
    | Some b1, Some b2 => (Ok (negb b1 && b2), w)
    | _, _ =>
        match TryAs_Number w lhs, TryAs_Number w rhs with
        | Some n1, Some n2 => (Ok (n1 <? n2)%Z, w)
        | _, _ =>
            match TryAs_String w lhs, TryAs_String w rhs with
            | Some s1, Some s2 => (Ok (String.ltb s1 s2), w)
            | _, _ =>
                (Throw (runtime_error "Cannot compare objects for less"), w)
            end
        end
    end.

Definition Less (lhs rhs : ObjectHolder) : M bool :=
  fun w =>
    match TryAs_ClassInstance w lhs with
    | Some (c_obj_lhs, self) =>
        if HasMethod self "__lt__" 1 then
          bind (Call c_obj_lhs "__lt__" [rhs]) Bool_value w
        else Less_builtin lhs rhs w
    | None => Less_builtin lhs rhs w
    end.

(** [a || b] of C++: [b] runs only when [a] gave [false]. *)
Definition or_else (a b : M bool) : M bool :=
  bind a (fun x => if x then ret true else b).

Definition not_ (a : M bool) : M bool :=
  bind a (fun x => ret (negb x)).

Definition NotEqual (lhs rhs : ObjectHolder) : M bool :=
  not_ (Equal lhs rhs).

Definition Greater (lhs rhs : ObjectHolder) : M bool :=
  not_ (or_else (Less lhs rhs) (Equal lhs rhs)).

Definition LessOrEqual (lhs rhs : ObjectHolder) : M bool :=
  or_else (Less lhs rhs) (Equal lhs rhs).

Definition GreaterOrEqual (lhs rhs : ObjectHolder) : M bool :=
  not_ (Less lhs rhs).

End Model.

Arguments mkMethod {Executable} name formal_params body.
Arguments name {Executable} m.
Arguments formal_params {Executable} m.
Arguments body {Executable} m.
Arguments mkClass {Executable} name_ methods_ parent_ v_table_.
Arguments name_ {Executable} c.
Arguments methods_ {Executable} c.
Arguments parent_ {Executable} c.
Arguments v_table_ {Executable} c.
Arguments mkClassInstance {Executable} class_ fields_.
Arguments class_ {Executable} c.
Arguments fields_ {Executable} c.
Arguments Number {Executable} value.
Arguments String {Executable} value.
Arguments Bool {Executable} value.
Arguments ClassValue {Executable} cls.
Arguments Instance {Executable} self.
Arguments mkWorld {Executable Context} heap context.
Arguments heap {Executable Context} w.
Arguments context {Executable Context} w.
Arguments ret {Executable Context A} a w.
Arguments bind {Executable Context A B} m k w.
Arguments Get {Executable Context} w o.
Arguments TryAs_Bool {Executable Context} w o.
Arguments TryAs_Number {Executable Context} w o.
Arguments TryAs_String {Executable Context} w o.
Arguments TryAs_ClassInstance {Executable Context} w o.
Arguments IsTrue {Executable Context} w object.
Arguments fill_v_table {Executable} methods v_table.
Arguments Class_new {Executable} name methods parent.
Arguments GetMethod {Executable} cls name.
Arguments GetName {Executable} cls.
Arguments ClassInstance_new {Executable} cls.
Arguments HasMethod {Executable} self method argument_count.
Arguments Fields {Executable} self.
Arguments Fields_at {Executable Context} w this.
Arguments Call {Executable Context} Execute this method actual_args w.
Arguments Bool_value {Executable Context} obj w.
Arguments Equal_builtin {Executable Context} lhs rhs w.
Arguments Less_builtin {Executable Context} lhs rhs w.
Arguments Equal {Executable Context} Execute lhs rhs w.
Arguments Less {Executable Context} Execute lhs rhs w.
Arguments or_else {Executable Context} a b w.
Arguments not_ {Executable Context} a w.
Arguments NotEqual {Executable Context} Execute lhs rhs w.
Arguments Greater {Executable Context} Execute lhs rhs w.
Arguments LessOrEqual {Executable Context} Execute lhs rhs w.
Arguments GreaterOrEqual {Executable Context} Execute lhs rhs w.

(** ** The kinds that compare, and printing *)

(** The three built-in kinds the comparisons know. *)
Inductive kind := KBool | KNumber | KString.

Section Printing.

Variable Executable : Type.
Variable Context : Type.
Variable Execute : Executable -> Closure -> M Executable Context ObjectHolder.

(** The built-in kind of the value a holder has, if it has one. *)
Definition scalar_kind (w : World Executable Context) (o : ObjectHolder)
  : option kind :=
  match Get w o with
  | Some (Bool _) => Some KBool
  | Some (Number _) => Some KNumber
  | Some (String _) => Some KString
  | _ => None
  end.

(** [os << this], the address of an instance as the stream renders it, and
    [ValueObject<T>::Print] of [runtime.h] for a number and a string: both
    are outside the sources and stay open. *)
Variable show_pointer : loc -> string.
Variable ValueObject_Print : Object Executable -> string.

(** [Object::Print(os, context)] on the object at [this], by kind:
    [Bool::Print], [Class::Print] and [ClassInstance::Print] are those of
    [runtime.cpp].  The result is what the stream holds afterwards.  An
    instance prints what its [__str__] returns, which may be an instance
    again, so the function runs on fuel: [None] is "still printing".  When
    [__str__] returns the empty holder, [->] is applied to a null pointer. *)
Fixpoint Print (fuel : nat) (this : loc) (os : string)
    (w : World Executable Context)
  : option (Outcome string * World Executable Context) :=
  match fuel with
  | O => None
  | S fuel =>
      match heap w !! this with
      | Some (Bool b) => Some (Ok (os ++ if b then "True" else "False"), w)
      | Some (ClassValue cls) => Some (Ok (os ++ "Class " ++ GetName cls), w)
      | Some (Instance self) =>
          if HasMethod self "__str__" 0 then
            match Call Execute this "__str__" [] w with
            | (Ok (Some result), w') => Print fuel result os w'
            | (Ok None, w') => Some (Undefined, w')
            | (Throw e, w') => Some (Throw e, w')
            | (Undefined, w') => Some (Undefined, w')
            end
          else Some (Ok (os ++ show_pointer this), w)
      | Some value => Some (Ok (os ++ ValueObject_Print value), w)
      | None => Some (Undefined, w)
      end
  end.

End Printing.

Arguments scalar_kind {Executable Context} w o.
Arguments Print {Executable Context} Execute show_pointer ValueObject_Print
  fuel this os w.

End runtime.

(* ===================================================================== *)
(** * The lexer ([namespace parse]) *)
(* ===================================================================== *)

Module parse.

(** ** Tokens ([lexer.h]) *)

Module token_type.
Inductive Token :=
  | Number (value : Z)
  | Id (value : string)
  | Char (value : ascii)
  | String (value : string)
  | Class | Return | If | Else | Def | Newline | Print | Indent | Dedent
  | And | Or | Not | Eq | NotEq | LessOrEq | GreaterOrEq
  | None | True | False | Eof.
End token_type.
Abbreviation Token := token_type.Token.

(** [tok.Is<token_type::Newline>()] and [tok.Is<token_type::Eof>()]. *)
Definition Is_Newline (tok : Token) : bool :=
  match tok with token_type.Newline => true | _ => false end.
Definition Is_Eof (tok : Token) : bool :=
  match tok with token_type.Eof => true | _ => false end.

(** [DENT_SPACES]: spaces per indentation unit. *)
Definition DENT_SPACES : Z := 2.

(** ** The input stream

    A [std::istream] over a character buffer, as far as the lexer can tell:
    the characters not yet read and the two state bits it tests.  [badbit]
    is never set by a stream over memory. *)
Record istream := mkStream {
  buf : list ascii;
  eofbit : bool;
  failbit : bool;
}.

Definition good (s : istream) : bool := negb (eofbit s) && negb (failbit s).

(** [operator bool]: [!fail()]. *)
Definition stream_ok (s : istream) : bool := negb (failbit s).

(** [rdstate() != ios_base::eofbit]. *)
Definition rdstate_not_eofbit (s : istream) : bool :=
  negb (eofbit s && negb (failbit s)).

(** Every read starts with a sentry, which sets [failbit] on a stream that
    is not good. *)
Definition sentry_failed (s : istream) : istream :=
  mkStream (buf s) (eofbit s) true.

(** [in.peek()]: [None] is [traits::eof()]. *)
Definition peek (s : istream) : option ascii * istream :=
  if good s then
    match buf s with
    | [] => (Datatypes.None, mkStream [] true (failbit s))
    | c :: _ => (Some c, s)
    end
  else (Datatypes.None, sentry_failed s).

(** [in.get()] and [in.get(ch)]: [None] when no character was extracted, in
    which case [ch] keeps its value. *)
Definition get (s : istream) : option ascii * istream :=
  if good s then
    match buf s with
    | [] => (Datatypes.None, mkStream [] true true)
    | c :: rest => (Some c, mkStream rest (eofbit s) (failbit s))
    end
  else (Datatypes.None, sentry_failed s).

(** [in.putback(c)]: clears [eofbit], then steps back if the stream is good.
    The lexer only puts back the character it has just read (or the line
    terminator [getline] has just dropped), which a stream buffer accepts. *)
Definition putback (c : ascii) (s : istream) : istream :=
  if failbit s then mkStream (buf s) false true
  else mkStream (c :: buf s) false false.

(** The characters up to the first line terminator, and what follows it. *)
Fixpoint split_line (l : list ascii) : list ascii * option (list ascii) :=
  match l with
  | [] => ([], Datatypes.None)
  | c :: rest =>
      if (c =? "010")%char then ([], Some rest)
      else let '(line, after) := split_line rest in (c :: line, after)
  end.

(** [getline(in, str, '\n')]: the delimiter is extracted and dropped; running
    into the end of input sets [eofbit], and extracting nothing sets
    [failbit]. *)
Definition getline (s : istream) : list ascii * istream :=
  if good s then
    match split_line (buf s) with
    | (line, Some after) => (line, mkStream after false false)
    | (line, Datatypes.None) =>
        (line, mkStream [] true (match line with [] => true | _ => false end))
    end
  else ([], sentry_failed s).

(** ** Character classes of [<cctype>] in the "C" locale *)

Definition between (lo hi : nat) (c : ascii) : bool :=
  (lo <=? nat_of_ascii c)%nat && (nat_of_ascii c <=? hi)%nat.

Definition isdigit (c : ascii) : bool := between 48 57 c.
Definition isalpha (c : ascii) : bool := between 65 90 c || between 97 122 c.
Definition isalnum (c : ascii) : bool := isalpha c || isdigit c.
Definition ispunct (c : ascii) : bool :=
  between 33 47 c || between 58 64 c || between 91 96 c || between 123 126 c.

(** ** Results *)

Inductive exception :=
  | LexerError (what : string)
  | out_of_range (what : string).

(** What a call of the lexer comes to: it returns, it throws, it reads an
    uninitialised variable, or the main loop is still running when the fuel
    is spent. *)
Inductive Result (A : Type) :=
  | Ok (a : A)
  | Throw (e : exception)
  | Undefined
  | OutOfFuel.
Arguments Ok {A} a.
Arguments Throw {A} e.
Arguments Undefined {A}.
Arguments OutOfFuel {A}.

Definition bind {A B} (r : Result A) (k : A -> Result B) : Result B :=
  match r with
  | Ok a => k a
  | Throw e => Throw e
  | Undefined => Undefined
  | OutOfFuel => OutOfFuel
  end.

(** ** The lexer *)

Record Lexer := mkLexer {
  token_input_ : istream;
  vct_tokens_ : list Token;
  current_token_ : nat;
  dent_ : Z;
}.

Definition set_input (lx : Lexer) (s : istream) : Lexer :=
  mkLexer s (vct_tokens_ lx) (current_token_ lx) (dent_ lx).

(** [vct_tokens_.emplace_back(tok)]. *)
Definition emplace_back (lx : Lexer) (tok : Token) : Lexer :=
  mkLexer (token_input_ lx) (vct_tokens_ lx ++ [tok]) (current_token_ lx) (dent_ lx).

Definition set_dent (lx : Lexer) (d : Z) : Lexer :=
  mkLexer (token_input_ lx) (vct_tokens_ lx) (current_token_ lx) d.

(** [!vct_tokens_.empty() && !vct_tokens_.back().Is<token_type::Newline>()]. *)
Definition back_is_not_Newline (toks : list Token) : bool :=
  match last toks with
  | Some tok => negb (Is_Newline tok)
  | Datatypes.None => false
  end.

(** The loops over the input read at most one character more than it holds. *)
Definition enough (s : istream) : nat := S (length (buf s)).

(** [TrimSpaces]: [while (in.peek() == ' ') in.get();]. *)
Fixpoint TrimSpaces_loop (fuel : nat) (s : istream) : istream :=
  match fuel with
  | O => s
  | S fuel =>
      match peek s with
      | (Some c, s1) =>
          if (c =? " ")%char then TrimSpaces_loop fuel (snd (get s1)) else s1
      | (Datatypes.None, s1) => s1
      end
  end.

Definition TrimSpaces (s : istream) : istream := TrimSpaces_loop (enough s) s.

(** [CheckEof]: [in.peek() == eof()]. *)
Definition CheckEof (s : istream) : bool * istream :=
  match peek s with
  | (Some _, s1) => (false, s1)
  | (Datatypes.None, s1) => (true, s1)
  end.

(** [while (in.get(ch) && (ch == ' ')) ++spaces_processed;] *)
Fixpoint count_spaces (fuel : nat) (s : istream) (ch : option ascii)
    (spaces_processed : Z) : istream * option ascii * Z :=
  match fuel with
  | O => (s, ch, spaces_processed)
  | S fuel =>
      match get s with
      | (Some c, s1) =>
          if (c =? " ")%char then count_spaces fuel s1 (Some c) (spaces_processed + 1)
          else (s1, Some c, spaces_processed)
      | (Datatypes.None, s1) => (s1, ch, spaces_processed)
      end
  end.

(** [while (spaces_processed > 0) { spaces_processed -= DENT_SPACES;
    emplace_back(tok); dent_ += step; }] with [step] 1 or -1. *)
Fixpoint dent_loop (fuel : nat) (spaces_processed : Z) (tok : Token) (step : Z)
    (lx : Lexer) : Lexer :=
  match fuel with
  | O => lx
  | S fuel =>
      if (0 <? spaces_processed)%Z then
        dent_loop fuel (spaces_processed - DENT_SPACES) tok step
          (set_dent (emplace_back lx tok) (dent_ lx + step))
      else lx
  end.

(** The two branches of [ParseDent] after the spaces are counted.  [int]
    arithmetic is exact here: the numbers are bounded by the input length. *)
Definition adjust_dent (spaces_processed : Z) (lx : Lexer) : Lexer :=
  if (dent_ lx * DENT_SPACES <? spaces_processed)%Z then
    let n := (spaces_processed - dent_ lx * DENT_SPACES)%Z in
    dent_loop (Z.to_nat n) n token_type.Indent 1 lx
  else if (dent_ lx * DENT_SPACES >? spaces_processed)%Z then
    let n := (dent_ lx * DENT_SPACES - spaces_processed)%Z in
    dent_loop (Z.to_nat n) n token_type.Dedent (-1) lx
  else lx.

Definition ParseDent (lx : Lexer) : Result Lexer :=
  let '(at_eof, s0) := CheckEof (token_input_ lx) in
  if at_eof then Ok (set_input lx s0)
  else
    let '(s1, ch, spaces_processed) :=
      count_spaces (enough s0) s0 Datatypes.None 0 in
    if rdstate_not_eofbit s1 then
      match ch with
      | Some c =>
          let lx1 := set_input lx (putback c s1) in
          if (c =? "010")%char then Ok lx1
          else Ok (adjust_dent spaces_processed lx1)
      | Datatypes.None => Undefined
      end
    else Ok (adjust_dent spaces_processed (set_input lx s1)).

(** The character an escape stands for: the [switch] of [ParseString]. *)
Definition escape (esc_ch : ascii) : option ascii :=
  if (esc_ch =? "n")%char then Some "010"%char
  else if (esc_ch =? "t")%char then Some "009"%char
  else if (esc_ch =? "r")%char then Some "013"%char
  else if (esc_ch =? "034")%char then Some "034"%char
  else if (esc_ch =? "039")%char then Some "039"%char
  else if (esc_ch =? "092")%char then Some "092"%char
  else Datatypes.None.

(** [while (in.get(ch)) { ... }] of [ParseString]; [ch] is what the last
    successful [get] left in it. *)
Fixpoint string_loop (fuel : nat) (begin : ascii) (s : istream)
    (result : list ascii) (ch : option ascii)
  : Result (istream * list ascii * option ascii) :=
  match fuel with
  | O => Ok (s, result, ch)
  | S fuel =>
      match get s with
      | (Datatypes.None, s1) => Ok (s1, result, ch)
      | (Some c, s1) =>
          if (c =? begin)%char then Ok (s1, result, Some c)
          else if (c =? "092")%char then
            match get s1 with
            | (Some esc_ch, s2) =>
                match escape esc_ch with
                | Some e => string_loop fuel begin s2 (result ++ [e]) (Some c)
                | Datatypes.None =>
                    Throw (LexerError "ParseString is failed at 204")
                end
            | (Datatypes.None, _) =>
                Throw (LexerError "ParseString is failed at 208")
            end
          else if (c =? "010")%char || (c =? "013")%char then
            Throw (LexerError "ParseString is failed at 212")
          else string_loop fuel begin s1 (result ++ [c]) (Some c)
      end
  end.

Definition ParseString (lx : Lexer) : Result Lexer :=
  let '(at_eof, s0) := CheckEof (token_input_ lx) in
  if at_eof then Ok (set_input lx s0)
  else
    let '(c, s1) := get s0 in
    let begin := match c with Some b => b | Datatypes.None => "255"%char end in
    if (begin =? "039")%char || (begin =? "034")%char then
      bind (string_loop (enough s1) begin s1 [] Datatypes.None)
        (fun '(s2, result, ch) =>
           match ch with
           | Some c =>
               if (begin =? c)%char then
                 Ok (emplace_back (set_input lx s2)
                       (token_type.String (string_of_list_ascii result)))
               else Throw (LexerError "ParseString is failed at 222")
           | Datatypes.None => Undefined
           end)
    else Ok (set_input lx (putback begin s1)).

(** [while (in.get(ch)) { ... }] of [ParseKeywords]. *)
Fixpoint keyword_loop (fuel : nat) (s : istream) (keyword : list ascii)
  : istream * list ascii :=
  match fuel with
  | O => (s, keyword)
  | S fuel =>
      match get s with
      | (Some c, s1) =>
          if isalnum c || (c =? "_")%char then keyword_loop fuel s1 (keyword ++ [c])
          else (putback c s1, keyword)
      | (Datatypes.None, s1) => (s1, keyword)
      end
  end.

(** The chain of [keyword.compare(...)]. *)
Definition classify (keyword : string) : Token :=
  if String.eqb keyword "class" then token_type.Class
  else if String.eqb keyword "return" then token_type.Return
  else if String.eqb keyword "if" then token_type.If
  else if String.eqb keyword "else" then token_type.Else
  else if String.eqb keyword "def" then token_type.Def
  else if String.eqb keyword "print" then token_type.Print
  else if String.eqb keyword "and" then token_type.And
  else if String.eqb keyword "or" then token_type.Or
  else if String.eqb keyword "not" then token_type.Not
  else if String.eqb keyword "None" then token_type.None
  else if String.eqb keyword "True" then token_type.True
  else if String.eqb keyword "False" then token_type.False
  else token_type.Id keyword.

Definition ParseKeywords (lx : Lexer) : Result Lexer :=
  let '(at_eof, s0) := CheckEof (token_input_ lx) in
  if at_eof then Ok (set_input lx s0)
  else
    let '(c, s1) := peek s0 in
    let ch := match c with Some b => b | Datatypes.None => "255"%char end in
    if isalpha ch || (ch =? "_")%char then
      let '(s2, keyword) := keyword_loop (enough s1) s1 [] in
      Ok (emplace_back (set_input lx s2) (classify (string_of_list_ascii keyword)))
    else Ok (set_input lx s1).

(** [ParseComments]: drops the rest of the line and hands the terminator
    back. *)
Definition ParseComments (s : istream) : istream :=
  let '(c, s1) := peek s in
  match c with
  | Some ch =>
      if (ch =? "#")%char then
        let '(_, s2) := getline s1 in
        if rdstate_not_eofbit s2 then putback "010"%char s2 else s2
      else s1
  | Datatypes.None => s1
  end.

(** [(ch == first) && (in.peek() == '=')]: the stream is peeked only when
    the first test holds. *)
Definition followed_by_eq (first ch : ascii) (s : istream) : bool * istream :=
  if (ch =? first)%char then
    match peek s with
    | (Some c, s1) => ((c =? "=")%char, s1)
    | (Datatypes.None, s1) => (false, s1)
    end
  else (false, s).

Definition ParseChars (lx : Lexer) : Result Lexer :=
  let '(at_eof, s0) := CheckEof (token_input_ lx) in
  if at_eof then Ok (set_input lx s0)
  else
    match get s0 with
    | (Datatypes.None, _) => Undefined
    | (Some ch, s1) =>
        if ispunct ch then
          if (ch =? "#")%char then
            Ok (set_input lx (ParseComments (putback ch s1)))
          else
            let '(is_eq, s2) := followed_by_eq "=" ch s1 in
            if is_eq then
              Ok (emplace_back (set_input lx (snd (get s2))) token_type.Eq)
            else
            let '(is_ne, s3) := followed_by_eq "!" ch s2 in
            if is_ne then
              Ok (emplace_back (set_input lx (snd (get s3))) token_type.NotEq)
            else
            let '(is_ge, s4) := followed_by_eq ">" ch s3 in
            if is_ge then
              Ok (emplace_back (set_input lx (snd (get s4))) token_type.GreaterOrEq)
            else
            let '(is_le, s5) := followed_by_eq "<" ch s4 in
            if is_le then
              Ok (emplace_back (set_input lx (snd (get s5))) token_type.LessOrEq)
            else Ok (emplace_back (set_input lx s5) (token_type.Char ch))
        else Ok (set_input lx (putback ch s1))
    end.

(** [while (in.get(ch)) { ... }] of [ParseNumbers]. *)
Fixpoint number_loop (fuel : nat) (s : istream) (result : list ascii)
  : istream * list ascii :=
  match fuel with
  | O => (s, result)
  | S fuel =>
      match get s with
      | (Some c, s1) =>
          if isdigit c then number_loop fuel s1 (result ++ [c])
          else (putback c s1, result)
      | (Datatypes.None, s1) => (s1, result)
      end
  end.

(** The value of a run of decimal digits. *)
Definition digits_value (digits : list ascii) : Z :=
  fold_left (fun acc c => (acc * 10 + (Z.of_nat (nat_of_ascii c) - 48))%Z) digits 0%Z.

Definition INT_MAX : Z := 2147483647.

(** [std::stoi] on a run of digits: the value, or [std::out_of_range]. *)
Definition stoi (digits : list ascii) : Result Z :=
  if (digits_value digits <=? INT_MAX)%Z then Ok (digits_value digits)
  else Throw (out_of_range "stoi").

Definition ParseNumbers (lx : Lexer) : Result Lexer :=
  let '(at_eof, s0) := CheckEof (token_input_ lx) in
  if at_eof then Ok (set_input lx s0)
  else
    let '(c, s1) := peek s0 in
    let ch := match c with Some b => b | Datatypes.None => "255"%char end in
    if isdigit ch then
      let '(s2, result) := number_loop (enough s1) s1 [] in
      bind (stoi result)
        (fun num => Ok (emplace_back (set_input lx s2) (token_type.Number num)))
    else Ok (set_input lx s1).

Definition ParseNewLine (lx : Lexer) : Result Lexer :=
  let '(c, s0) := peek (token_input_ lx) in
  match c with
  | Some ch =>
      if (ch =? "010")%char then
        let lx1 := set_input lx (snd (get s0)) in
        let lx2 :=
          if back_is_not_Newline (vct_tokens_ lx1)
          then emplace_back lx1 token_type.Newline else lx1 in
        ParseDent lx2
      else Ok (set_input lx s0)
  | Datatypes.None => Ok (set_input lx s0)
  end.

(** One turn of the loop of [ParseTokens]. *)
Definition iteration (lx : Lexer) : Result Lexer :=
  bind (ParseString lx) (fun lx =>
  bind (ParseKeywords lx) (fun lx =>
  bind (ParseChars lx) (fun lx =>
  bind (ParseNumbers lx) (fun lx =>
  ParseNewLine (set_input lx (TrimSpaces (token_input_ lx))))))).

(** [while (token_input_) { ... }]: nothing bounds the number of turns, so
    the loop runs on fuel. *)
Fixpoint main_loop (fuel : nat) (lx : Lexer) : Result Lexer :=
  if stream_ok (token_input_ lx) then
    match fuel with
    | O => OutOfFuel
    | S fuel => bind (iteration lx) (main_loop fuel)
    end
  else Ok lx.

(** [while (dent_ > 0) { emplace_back(Dedent); --dent_; }] *)
Fixpoint close_blocks (fuel : nat) (lx : Lexer) : Lexer :=
  match fuel with
  | O => lx
  | S fuel =>
      if (0 <? dent_ lx)%Z then
        close_blocks fuel (set_dent (emplace_back lx token_type.Dedent) (dent_ lx - 1))
      else lx
  end.

(** What [ParseTokens] does once the loop is over. *)
Definition finish (lx : Lexer) : Lexer :=
  let lx1 :=
    if back_is_not_Newline (vct_tokens_ lx)
    then emplace_back lx token_type.Newline else lx in
  let lx2 := close_blocks (Z.to_nat (dent_ lx1)) lx1 in
  let lx3 := emplace_back lx2 token_type.Eof in
  mkLexer (token_input_ lx3) (vct_tokens_ lx3) 0 (dent_ lx3).

Definition ParseTokens (fuel : nat) (lx : Lexer) : Result Lexer :=
  let lx0 := set_input lx (TrimSpaces (token_input_ lx)) in
  bind (main_loop fuel lx0) (fun lx1 => Ok (finish lx1)).

(** [Lexer::Lexer(input)]. *)
Definition Lexer_new (fuel : nat) (input : list ascii) : Result Lexer :=
  ParseTokens fuel (mkLexer (mkStream input false false) [] 0 0).

(** [CurrentToken] and [NextToken]. *)
Definition CurrentToken (lx : Lexer) : Token :=
  nth (current_token_ lx) (vct_tokens_ lx) token_type.Eof.

Definition NextToken (lx : Lexer) : Token * Lexer :=
  if (S (current_token_ lx) =? length (vct_tokens_ lx))%nat then (CurrentToken lx, lx)
  else
    let lx' := mkLexer (token_input_ lx) (vct_tokens_ lx)
                 (S (current_token_ lx)) (dent_ lx) in
    (CurrentToken lx', lx').

(** The tokens of a piece of source text. *)
Definition tokens_of (fuel : nat) (input : string) : Result (list Token) :=
  bind (Lexer_new fuel (list_ascii_of_string input)) (fun lx => Ok (vct_tokens_ lx)).

(** The line terminator, as a string. *)
Definition LF : string := String.String "010"%char EmptyString.

(** What [ParseTokens] appends before [Eof] once the loop is over. *)
Definition closing (lx : Lexer) : list Token :=
  ((if back_is_not_Newline (vct_tokens_ lx) then [token_type.Newline] else [])
   ++ repeat token_type.Dedent (Z.to_nat (dent_ lx)))%list.

(** Sources used as samples. *)
Definition sample_block : string := "if a:" ++ LF ++ "  b" ++ LF ++ "  c" ++ LF.
Definition sample_open_block : string := "if a:" ++ LF ++ "  b".
Definition sample_odd_indent : string :=
  "x" ++ LF ++ "   y" ++ LF ++ "   z" ++ LF.
Definition sample_blank_lines : string :=
  "if a:" ++ LF ++ "  b" ++ LF ++ "    " ++ LF ++ LF ++ "  c" ++ LF.

(** A statement, and a last line of two spaces that the input ends in; the
    same with the last line terminated. *)
Definition sample_blank_last_line : string := "x" ++ LF ++ "  ".
Definition sample_blank_line_closed : string := "x" ++ LF ++ "  " ++ LF.

(** How far a stream is from failing: a stream that has failed is at 0, one
    that has met the end of the input at 1, a good one at 2 and the number
    of characters to read. *)
Definition measure (s : istream) : nat :=
  if failbit s then 0%nat
  else if eofbit s then 1%nat
  else (2 + length (buf s))%nat.

(** [s'] is [s] some reads later: it holds an end of what [s] holds and is
    no farther from failing. *)
Definition stream_le (s' s : istream) : Prop :=
  buf s' `suffix_of` buf s /\ (measure s' <= measure s)%nat.

(** The characters one of the parsers takes: a space, a line terminator, a
    letter, a digit or punctuation (the underscore and the quotes are
    punctuation). *)
Definition lexable (c : ascii) : bool :=
  (c =? " ")%char || (c =? "010")%char || isalpha c || isdigit c || ispunct c.

(** No token of the lexer is [Eof]. *)
Definition no_Eof (lx : Lexer) : Prop :=
  Forall (fun tok => Is_Eof tok = false) (vct_tokens_ lx).

(** The lexer as the constructor has it when the main loop starts. *)
Definition at_start (input : list ascii) : Lexer :=
  mkLexer (TrimSpaces (mkStream input false false)) [] 0 0.

(** ** Comparing tokens *)

(** [tok.index()]: the place of the alternative in [TokenBase]. *)
Definition index (tok : Token) : nat :=
  match tok with
  | token_type.Number _ => 0 | token_type.Id _ => 1
  | token_type.Char _ => 2 | token_type.String _ => 3
  | token_type.Class => 4 | token_type.Return => 5
  | token_type.If => 6 | token_type.Else => 7
  | token_type.Def => 8 | token_type.Newline => 9
  | token_type.Print => 10 | token_type.Indent => 11
  | token_type.Dedent => 12 | token_type.And => 13
  | token_type.Or => 14 | token_type.Not => 15
  | token_type.Eq => 16 | token_type.NotEq => 17
  | token_type.LessOrEq => 18 | token_type.GreaterOrEq => 19
  | token_type.None => 20 | token_type.True => 21
  | token_type.False => 22 | token_type.Eof => 23
  end%nat.

(** [operator==(lhs, rhs)].  Past the test of the indices [rhs.As<T>()]
    cannot throw, since [rhs] holds the alternative [lhs] holds. *)
Definition operator_eq (lhs rhs : Token) : bool :=
  if negb (index lhs =? index rhs)%nat then false
  else
    match lhs, rhs with
    | token_type.Char a, token_type.Char b => (a =? b)%char
    | token_type.Number a, token_type.Number b => (a =? b)%Z
    | token_type.String a, token_type.String b => String.eqb a b
    | token_type.Id a, token_type.Id b => String.eqb a b
    | _, _ => true
    end.

(** [operator!=(lhs, rhs)]. *)
Definition operator_ne (lhs rhs : Token) : bool := negb (operator_eq lhs rhs).

(** ** The typed assertions of [lexer.h] *)

(** [Expect<T>()], with [T] given by its index: the current token when it
    holds a [T], a [LexerError] otherwise. *)
Definition Expect (T : nat) (lx : Lexer) : Result Token :=
  if (index (CurrentToken lx) =? T)%nat then Ok (CurrentToken lx)
  else Throw (LexerError "Expect is failed at 159").

(** [tok.value != expected.value] for two tokens of one valued kind. *)
Definition value_differs (tok expected : Token) : bool :=
  match tok, expected with
  | token_type.Number a, token_type.Number b => negb (a =? b)%Z
  | token_type.Id a, token_type.Id b => negb (String.eqb a b)
  | token_type.Char a, token_type.Char b => negb (a =? b)%char
  | token_type.String a, token_type.String b => negb (String.eqb a b)
  | _, _ => false
  end.

(** [Expect<T>(value)], with [T] and [value] given as the token [T{value}]. *)
Definition Expect_value (expected : Token) (lx : Lexer) : Result unit :=
  bind (Expect (index expected) lx) (fun tok =>
    if value_differs tok expected
    then Throw (LexerError "Expect is failed at 165")
    else Ok tt).

(** [ExpectNext<T>()] and [ExpectNext<T>(value)]: the lexer has moved on
    whether the assertion holds or not. *)
Definition ExpectNext (T : nat) (lx : Lexer) : Result Token * Lexer :=
  let lx' := snd (NextToken lx) in (Expect T lx', lx').

Definition ExpectNext_value (expected : Token) (lx : Lexer)
  : Result unit * Lexer :=
  let lx' := snd (NextToken lx) in (Expect_value expected lx', lx').

(** [NextToken] called [k] times, as a parser does. *)
Fixpoint advance (k : nat) (lx : Lexer) : Lexer :=
  match k with
  | O => lx
  | S k => advance k (snd (NextToken lx))
  end.

(** ** What a token sequence looks like *)

(** [Indent]s less [Dedent]s. *)
Fixpoint depth (toks : list Token) : Z :=
  match toks with
  | [] => 0
  | token_type.Indent :: rest => depth rest + 1
  | token_type.Dedent :: rest => depth rest - 1
  | _ :: rest => depth rest
  end.

(** Read from level [d], no [Dedent] comes at level 0. *)
Fixpoint nested (d : Z) (toks : list Token) : bool :=
  match toks with
  | [] => true
  | token_type.Indent :: rest => nested (d + 1) rest
  | token_type.Dedent :: rest => (0 <? d)%Z && nested (d - 1) rest
  | _ :: rest => nested d rest
  end.

(** No [Newline] comes right after a [Newline]; [after_Newline] tells
    whether the sequence is read right after one. *)
Fixpoint single_Newlines (after_Newline : bool) (toks : list Token) : bool :=
  match toks with
  | [] => true
  | tok :: rest =>
      if Is_Newline tok then negb after_Newline && single_Newlines true rest
      else single_Newlines false rest
  end.

(** A token the four parsers of a line can emit: none of the structural
    ones, and a number only if it fits an [int]. *)
Definition plain (tok : Token) : Prop :=
  match tok with
  | token_type.Newline | token_type.Indent | token_type.Dedent
  | token_type.Eof => Logic.False
  | token_type.Number v => (0 <= v <= INT_MAX)%Z
  | _ => Logic.True
  end.

(** A number token holds an [int] that is not negative. *)
Definition Number_fits (tok : Token) : Prop :=
  match tok with
  | token_type.Number v => (0 <= v <= INT_MAX)%Z
  | _ => Logic.True
  end.

(** Whether what follows [toks] comes right after a [Newline], given
    whether [toks] itself does. *)
Definition after_Newline (before : bool) (toks : list Token) : bool :=
  match last toks with
  | Some tok => Is_Newline tok
  | Datatypes.None => before
  end.

(** What the main loop keeps true of the lexer: no [Newline] first or right
    after another, no [Dedent] without an [Indent] to close, the level equal
    to the [Indent]s still open, and every number within [int]. *)
Definition well_formed (lx : Lexer) : Prop :=
  single_Newlines true (vct_tokens_ lx) = true /\
  nested 0 (vct_tokens_ lx) = true /\
  depth (vct_tokens_ lx) = dent_ lx /\
  Forall Number_fits (vct_tokens_ lx).

(** The reserved words. *)
Definition keywords : list string :=
  ["class"; "return"; "if"; "else"; "def"; "print"; "and"; "or"; "not";
   "None"; "True"; "False"].

(** A character of a word. *)
Definition word_char (c : ascii) : bool := isalnum c || (c =? "_")%char.

(** The operator a character makes with a following [=]. *)
Definition with_eq (c : ascii) : option Token :=
  if (c =? "=")%char then Some token_type.Eq
  else if (c =? "!")%char then Some token_type.NotEq
  else if (c =? ">")%char then Some token_type.GreaterOrEq
  else if (c =? "<")%char then Some token_type.LessOrEq
  else Datatypes.None.

(** How a character is written inside a string literal: the six characters
    [ParseString] has an escape for are written with it, any other as it
    is. *)
Definition written (c : ascii) : list ascii :=
  if (c =? "010")%char then ["092"; "n"]%char
  else if (c =? "009")%char then ["092"; "t"]%char
  else if (c =? "013")%char then ["092"; "r"]%char
  else if (c =? "034")%char then ["092"; "034"]%char
  else if (c =? "039")%char then ["092"; "039"]%char
  else if (c =? "092")%char then ["092"; "092"]%char
  else [c].

(** A string written as a literal between two quotes [q]. *)
Definition literal (q : ascii) (s : string) : list ascii :=
  q :: flat_map written (list_ascii_of_string s) ++ [q].

(** More sources used as samples. *)
Definition sample_numbers : string := "x = 12 - 007" ++ LF.
Definition sample_tab : list ascii := ["009"; "x"]%char.

(** A lexer at the start of three tokens, as a sample. *)
Definition sample_lexer : Lexer :=
  mkLexer (mkStream [] false true)
    [token_type.Id "a"; token_type.Newline; token_type.Eof] 0 0.

End parse.

(* ===================================================================== *)
(** * Sample programs for the runtime *)
(* ===================================================================== *)

Module runtime_samples.
Import runtime.

(** Method bodies of the samples: return a fresh [Bool], or store a number
    in a field of [self] and return [None]. *)
Inductive sample_body :=
  | ReturnBool (b : bool)
  | SetField (field : string) (n : Z).

(** The output sink of the samples counts the bodies executed. *)
Definition sample_context := nat.

Abbreviation SWorld := (World sample_body sample_context).

Definition fresh (h : gmap loc (Object sample_body)) : loc :=
  (1 + map_fold (fun l _ acc => Pos.max l acc) 1%positive h)%positive.

Definition sample_Execute (b : sample_body) (closure : Closure)
  : M sample_body sample_context ObjectHolder :=
  fun w =>
    match b with
    | ReturnBool v =>
        let l := fresh (heap w) in
        (Ok (Some l), mkWorld (<[l := Bool v]> (heap w)) (S (context w)))
    | SetField f n =>
        match closure !! "self" with
        | Some (Some this) =>
            match heap w !! this with
            | Some (Instance self) =>
                let l := fresh (heap w) in
                let self' :=
                  mkClassInstance (class_ self) (<[f := Some l]> (fields_ self)) in
                (Ok None,
                 mkWorld (<[this := Instance self']> (<[l := Number n]> (heap w)))
                         (S (context w)))
            | _ => (Undefined, w)
            end
        | _ => (Undefined, w)
        end
    end.

Definition m_f : Method sample_body := mkMethod "f" ["x"] (SetField "x" 1).
Definition m_g : Method sample_body := mkMethod "g" [] (SetField "y" 2).
Definition m_lt : Method sample_body := mkMethod "__lt__" ["rhs"] (ReturnBool false).
Definition m_eq : Method sample_body := mkMethod "__eq__" ["rhs"] (ReturnBool true).

(** Three generations: [A] declares [f], [B] adds [g], [C] adds nothing. *)
Definition class_A : Class sample_body := Class_new "A" [m_f] None.
Definition class_B : Class sample_body := Class_new "B" [m_g] (Some class_A).
Definition class_C : Class sample_body := Class_new "C" [] (Some class_B).

(** A class that overrides both comparisons. *)
Definition class_Cmp : Class sample_body := Class_new "Cmp" [m_lt; m_eq] None.

(** A world with a zero, an instance of [A], an instance of [Cmp] and two
    more numbers. *)
Definition w0 : SWorld :=
  mkWorld
    (<[1%positive := Number 0]>
       (<[2%positive := Instance (ClassInstance_new class_A)]>
          (<[3%positive := Instance (ClassInstance_new class_Cmp)]>
             (<[4%positive := Number 1]>
                (<[5%positive := Number 2]> ∅)))))
    0%nat.

(** ** Samples that change nothing *)

(** Bodies that leave the world alone: return [self], an argument, or
    [None]. *)
Inductive echo_body := ReturnSelf | ReturnArg (x : string) | ReturnNone.

Abbreviation EWorld := (World echo_body unit).

Definition echo_Execute (b : echo_body) (closure : Closure)
  : M echo_body unit ObjectHolder :=
  fun w =>
    match b with
    | ReturnSelf => (Ok (default None (closure !! "self")), w)
    | ReturnArg x => (Ok (default None (closure !! x)), w)
    | ReturnNone => (Ok None, w)
    end.

Definition m_str : Method echo_body := mkMethod "__str__" [] ReturnSelf.
Definition m_eq_arg : Method echo_body :=
  mkMethod "__eq__" ["rhs"] (ReturnArg "rhs").
Definition m_lt_arg : Method echo_body :=
  mkMethod "__lt__" ["rhs"] (ReturnArg "rhs").
Definition m_pair_old : Method echo_body := mkMethod "pair" ["a"] (ReturnArg "a").
Definition m_pair : Method echo_body := mkMethod "pair" ["a"; "b"] (ReturnArg "b").

(** A class that declares [pair] twice, prints as itself and answers a
    comparison with its right operand. *)
Definition class_Echo : Class echo_body :=
  Class_new "Echo" [m_pair_old; m_str; m_eq_arg; m_lt_arg; m_pair] None.

(** A number, an instance of [Echo], two strings and a boolean. *)
Definition w_echo : EWorld :=
  mkWorld
    (<[1%positive := Number 7]>
       (<[2%positive := Instance (ClassInstance_new class_Echo)]>
          (<[3%positive := String "abc"]>
             (<[4%positive := String "abd"]>
                (<[5%positive := Bool true]> ∅)))))
    tt.

(** Where an address is printed in the samples. *)
Definition sample_pointer (l : loc) : string := "<instance>".

(** How a number and a string are printed in the samples. *)
Definition sample_value (o : Object echo_body) : string :=
  match o with
  | String s => s
  | _ => "<number>"
  end.

End runtime_samples.

(* ===================================================================== *)
(** * Properties of the runtime *)
(* ===================================================================== *)

Module runtime_facts.
Import runtime runtime_samples.

Section Facts.

Context {Executable Context : Type}.
Variable Execute : Executable -> Closure -> M Executable Context ObjectHolder.

Implicit Types (w : World Executable Context) (lhs rhs obj : ObjectHolder).
Implicit Types (cls : Class Executable) (self : ClassInstance Executable).

(** ** Truthiness *)

(** C9. [IsTrue] looks at the value held: a [Bool] is its value, a [Number]
    is true when it is not zero, a [String] when it is not empty; the empty
    holder, a class, an instance of a class (and a holder that points at
    nothing) are false. *)
Theorem IsTrue_by_kind w object :
  IsTrue w object =
    match Get w object with
    | Some (Bool b) => b
    | Some (Number n) => negb (n =? 0)%Z
    | Some (String s) => negb (String.eqb s "")
    | Some (ClassValue _) => false
    | Some (Instance _) => false
    | None => false
    end.
Proof.
  unfold IsTrue, TryAs_Bool, TryAs_Number, TryAs_String.
  destruct object as [l|]; simpl; [|reflexivity].
  destruct (heap w !! l) as [[n|s|b|c|i]|]; simpl; try reflexivity.
  - destruct (n =? 0)%Z; reflexivity.
  - destruct s; reflexivity.
  - destruct b; reflexivity.
Qed.

(** ** Equality with the empty holder *)

(** C1, as the code has it.  With an empty left operand [Equal] gives true
    when the right operand is empty too, and otherwise throws the "cannot
    compare" runtime error: for [Equal(None, Number(0))] there is no result
    [false]. *)
Theorem Equal_None_lhs rhs w :
  Equal Execute None_ rhs w =
    if to_bool rhs
    then (Throw (runtime_error "Cannot compare objects for equality"), w)
    else (Ok true, w).
Proof.
  unfold Equal, Equal_builtin, TryAs_Bool, TryAs_Number, TryAs_String.
  destruct rhs as [l|]; simpl; [|reflexivity].
  destruct (heap w !! l) as [[n|s|b|c|i]|]; reflexivity.
Qed.

(** ** The dispatch table *)

(** Filling a table leaves a name alone unless one of the methods bears it. *)
Lemma fill_v_table_lookup (methods : list (Method Executable)) v_table n :
  fill_v_table methods v_table !! n =
    match fill_v_table methods ∅ !! n with
    | Some m => Some m
    | None => v_table !! n
    end.
Proof.
  unfold fill_v_table.
  revert v_table. induction methods as [|m ms IH]; intros vt; simpl.
  - rewrite lookup_empty. reflexivity.
  - rewrite (IH (<[name m := m]> vt)), (IH (<[name m := m]> ∅)).
    destruct (fold_left _ ms ∅ !! n); [reflexivity|].
    destruct (decide (name m = n)) as [->|Hne].
    + rewrite !lookup_insert_eq. reflexivity.
    + rewrite !lookup_insert_ne by assumption. rewrite lookup_empty.
      reflexivity.
Qed.

(** A table filled from nothing holds, under a name, a method of the list
    that bears this name. *)
Lemma fill_v_table_Some (methods : list (Method Executable)) n m :
  fill_v_table methods ∅ !! n = Some m -> In m methods /\ name m = n.
Proof.
  revert m. induction methods as [|m0 ms IH] using rev_ind; intros m.
  - unfold fill_v_table; simpl. rewrite lookup_empty. discriminate.
  - unfold fill_v_table in *. rewrite fold_left_app. simpl.
    destruct (decide (name m0 = n)) as [<-|Hne].
    + rewrite lookup_insert_eq. intros [= <-]. split; [|reflexivity].
      apply in_or_app. right. left. reflexivity.
    + rewrite lookup_insert_ne by assumption. intros H.
      destruct (IH _ H) as [Hin Hn]. split; [|assumption].
      apply in_or_app. left. assumption.
Qed.

Lemma fill_v_table_None (methods : list (Method Executable)) n :
  fill_v_table methods ∅ !! n = None <-> (forall m, In m methods -> name m <> n).
Proof.
  induction methods as [|m0 ms IH] using rev_ind.
  - unfold fill_v_table; simpl. rewrite lookup_empty.
    split; [intros _ m []|reflexivity].
  - unfold fill_v_table in *. rewrite fold_left_app. simpl.
    destruct (decide (name m0 = n)) as [<-|Hne].
    + rewrite lookup_insert_eq. split; [discriminate|].
      intros H. exfalso. apply (H m0); [|reflexivity].
      apply in_or_app. right. left. reflexivity.
    + rewrite lookup_insert_ne by assumption. rewrite IH. split.
      * intros H m Hin. apply in_app_or in Hin as [Hin|[<-|[]]]; auto.
      * intros H m Hin. apply H. apply in_or_app. left. assumption.
Qed.

(** What the constructor puts in the table of a class with a parent: the
    class's own method of that name, else the method of that name among
    those the parent itself declares. *)
Lemma GetMethod_Class_new nm methods (parent : Class Executable) n :
  GetMethod (Class_new nm methods (Some parent)) n =
    match fill_v_table methods ∅ !! n with
    | Some m => Some m
    | None => fill_v_table (methods_ parent) ∅ !! n
    end.
Proof. unfold GetMethod, Class_new; simpl. apply fill_v_table_lookup. Qed.

Lemma GetMethod_Class_new_root nm methods n :
  GetMethod (Class_new (Executable:=Executable) nm methods None) n =
    fill_v_table methods ∅ !! n.
Proof.
  unfold GetMethod, Class_new; simpl. rewrite fill_v_table_lookup.
  rewrite lookup_empty. destruct (fill_v_table methods ∅ !! n); reflexivity.
Qed.

(** With a parent that has no parent of its own, the table is the parent's
    table overwritten by the class's own methods. *)
Lemma GetMethod_two_levels nm methods pnm pmethods n :
  GetMethod (Class_new (Executable:=Executable) nm methods
               (Some (Class_new pnm pmethods None))) n =
    match fill_v_table methods ∅ !! n with
    | Some m => Some m
    | None => GetMethod (Class_new pnm pmethods None) n
    end.
Proof. rewrite GetMethod_Class_new, GetMethod_Class_new_root. reflexivity. Qed.

(** ** Calling a method *)

Lemma HasMethod_true_iff self method k :
  HasMethod self method k = true <->
  exists p, GetMethod (class_ self) method = Some p /\
            length (formal_params p) = k.
Proof.
  unfold HasMethod. destruct (GetMethod (class_ self) method) as [p|].
  - rewrite Nat.eqb_eq. split.
    + intros ->. exists p. split; reflexivity.
    + intros (p' & [= <-] & H). symmetry. exact H.
  - split; [discriminate|]. intros (p & H & _). discriminate.
Qed.

(** The loop that binds the parameters, when there are as many arguments. *)
Lemma bind_params_zip (params : list string) (args : list ObjectHolder)
    (closure : Closure) :
  length params = length args ->
  bind_params params args closure =
    Some (fold_left (fun c pa => <[pa.1 := pa.2]> c) (zip params args) closure).
Proof.
  revert args closure. induction params as [|p ps IH]; intros [|a args] c Hlen;
    simpl in *; try discriminate; [reflexivity|].
  apply IH. lia.
Qed.

Lemma Call_undefined w this self method actual_args :
  heap w !! this = Some (Instance self) ->
  HasMethod self method (length actual_args) = false ->
  Call Execute this method actual_args w = (Throw (undefined_method method), w).
Proof. intros Hthis Hno. unfold Call. rewrite Hthis, Hno. reflexivity. Qed.

Lemma Call_defined w this self method actual_args :
  heap w !! this = Some (Instance self) ->
  HasMethod self method (length actual_args) = true ->
  exists p, GetMethod (class_ self) method = Some p /\
    Call Execute this method actual_args w =
      Execute (body p)
        (fold_left (fun c pa => <[pa.1 := pa.2]> c)
           (zip (formal_params p) actual_args)
           (<["self" := Share this]> ∅)) w.
Proof.
  intros Hthis Hyes. unfold Call. rewrite Hthis, Hyes.
  apply HasMethod_true_iff in Hyes as (p & Hp & Hlen).
  exists p. split; [assumption|]. rewrite Hp.
  rewrite bind_params_zip by assumption. reflexivity.
Qed.

(** C4. [HasMethod(m, k)] holds exactly when the table of the class has a
    method [m] with [k] formal parameters.  [Call] throws its "undefined
    method" runtime error when [HasMethod(m, args.size())] is false, and
    otherwise does not throw of its own: the call is the execution of the
    body, in a closure of [self] and the parameters bound in order. *)
Theorem HasMethod_Call w this self method actual_args k :
  heap w !! this = Some (Instance self) ->
  (HasMethod self method k = true <->
     exists p, GetMethod (class_ self) method = Some p /\
               length (formal_params p) = k) /\
  (HasMethod self method (length actual_args) = false ->
     Call Execute this method actual_args w = (Throw (undefined_method method), w)) /\
  (HasMethod self method (length actual_args) = true ->
     exists p, GetMethod (class_ self) method = Some p /\
       Call Execute this method actual_args w =
         Execute (body p)
           (fold_left (fun c pa => <[pa.1 := pa.2]> c)
              (zip (formal_params p) actual_args)
              (<["self" := Share this]> ∅)) w).
Proof.
  intros Hthis. split; [apply HasMethod_true_iff|]. split.
  - apply Call_undefined. assumption.
  - apply Call_defined. assumption.
Qed.

(** C10. A [Call] that fails for want of a method runs no body: whatever
    [Execute] is, the call throws and hands the world back as it was, the
    fields of the instance included. *)
Theorem Call_undefined_runs_nothing w this self method actual_args :
  heap w !! this = Some (Instance self) ->
  HasMethod self method (length actual_args) = false ->
  forall Execute' : Executable -> Closure -> M Executable Context ObjectHolder,
    Call Execute' this method actual_args w = (Throw (undefined_method method), w) /\
    Fields_at (snd (Call Execute' this method actual_args w)) this =
      Some (Fields self).
Proof.
  intros Hthis Hno Execute'.
  assert (Call Execute' this method actual_args w
          = (Throw (undefined_method method), w)) as ->.
  { unfold Call. rewrite Hthis, Hno. reflexivity. }
  split; [reflexivity|]. unfold Fields_at. simpl. rewrite Hthis. reflexivity.
Qed.

(** ** Comparison *)

(** C5. The derived comparisons are built from [Less] and [Equal], run
    anew each time and in the order of the source: [NotEqual] negates what
    [Equal] gives and [GreaterOrEqual] what [Less] gives; [LessOrEqual] and
    [Greater] run [Less] and then, when it gave false, [Equal] in the world
    [Less] has left ([||] does not run its right side after a true left
    side); an exception of either passes through. *)
Theorem derived_comparisons lhs rhs w :
  NotEqual Execute lhs rhs w =
    (let '(eq, w1) := Equal Execute lhs rhs w in (Outcome_map negb eq, w1)) /\
  GreaterOrEqual Execute lhs rhs w =
    (let '(lt, w1) := Less Execute lhs rhs w in (Outcome_map negb lt, w1)) /\
  LessOrEqual Execute lhs rhs w =
    (let '(lt, w1) := Less Execute lhs rhs w in
     match lt with
     | Ok false => Equal Execute lhs rhs w1
     | _ => (lt, w1)
     end) /\
  Greater Execute lhs rhs w =
    (let '(lt, w1) := Less Execute lhs rhs w in
     match lt with
     | Ok false =>
         let '(eq, w2) := Equal Execute lhs rhs w1 in (Outcome_map negb eq, w2)
     | _ => (Outcome_map (fun _ => false) lt, w1)
     end).
Proof.
  unfold NotEqual, GreaterOrEqual, LessOrEqual, Greater, not_, or_else, bind, ret.
  split; [|split; [|split]].
  - destruct (Equal Execute lhs rhs w) as [[eq|e|] w1]; reflexivity.
  - destruct (Less Execute lhs rhs w) as [[lt|e|] w1]; reflexivity.
  - destruct (Less Execute lhs rhs w) as [[[|]|e|] w1]; reflexivity.
  - destruct (Less Execute lhs rhs w) as [[[|]|e|] w1]; try reflexivity.
    destruct (Equal Execute lhs rhs w1) as [[eq|e|] w2]; reflexivity.
Qed.

(** When both comparisons return, the results are the Boolean combinations
    of the two. *)
Lemma derived_comparisons_values lhs rhs w lt w1 eq w2 :
  Less Execute lhs rhs w = (Ok lt, w1) ->
  Equal Execute lhs rhs w1 = (Ok eq, w2) ->
  GreaterOrEqual Execute lhs rhs w = (Ok (negb lt), w1) /\
  LessOrEqual Execute lhs rhs w = (Ok (lt || eq), if lt then w1 else w2) /\
  Greater Execute lhs rhs w = (Ok (negb (lt || eq)), if lt then w1 else w2) /\
  NotEqual Execute lhs rhs w1 = (Ok (negb eq), w2).
Proof.
  intros Hlt Heq.
  unfold NotEqual, GreaterOrEqual, LessOrEqual, Greater, not_, or_else, bind, ret.
  rewrite Hlt, Heq. destruct lt; simpl; rewrite ?Heq; auto.
Qed.

Lemma TryAs_ClassInstance_Some w lhs this self :
  TryAs_ClassInstance w lhs = Some (this, self) <->
  lhs = Some this /\ heap w !! this = Some (Instance self).
Proof.
  unfold TryAs_ClassInstance. split.
  - destruct lhs as [l|]; [|discriminate].
    destruct (heap w !! l) as [[n|s|b|c|i]|] eqn:E; try discriminate.
    intros [= -> ->]. split; [reflexivity|assumption].
  - intros [-> H]. rewrite H. reflexivity.
Qed.

(** [Less] on an instance whose class overrides [__lt__]. *)
Lemma Less_override lhs rhs w this self :
  TryAs_ClassInstance w lhs = Some (this, self) ->
  HasMethod self "__lt__" 1 = true ->
  exists p x,
    GetMethod (class_ self) "__lt__" = Some p /\ formal_params p = [x] /\
    Less Execute lhs rhs w =
      bind (Execute (body p) (<[x := rhs]> (<["self" := Share this]> ∅)))
           Bool_value w.
Proof.
  intros Hlhs Hyes. unfold Less. rewrite Hlhs, Hyes.
  apply TryAs_ClassInstance_Some in Hlhs as [-> Hthis].
  destruct (Call_defined w this self "__lt__" [rhs] Hthis Hyes) as (p & Hp & Hrun).
  apply HasMethod_true_iff in Hyes as (p' & Hp' & Hlen).
  rewrite Hp in Hp'. injection Hp' as <-.
  destruct (formal_params p) as [|x [|y ps]] eqn:Hps; try discriminate.
  exists p, x. split; [assumption|]. split; [assumption|].
  unfold bind. rewrite Hrun. reflexivity.
Qed.

(** C6. [Less] with an instance on the left.  When its class has [__lt__]
    with one parameter, [Less] is the execution of that method's body, with
    [self] and the right operand bound, and returns the boolean the body
    produces: the value of the [Bool] returned, in the world the body left.
    What the body throws, [Less] throws; a result that is no [Bool] is a
    null pointer dereferenced.  When the class has no such method, [Less]
    throws the "cannot compare" runtime error, whatever the right operand. *)
Theorem Less_on_instance lhs rhs w this self :
  TryAs_ClassInstance w lhs = Some (this, self) ->
  (HasMethod self "__lt__" 1 = true ->
     exists p x,
       GetMethod (class_ self) "__lt__" = Some p /\ formal_params p = [x] /\
       Less Execute lhs rhs w =
         bind (Execute (body p) (<[x := rhs]> (<["self" := Share this]> ∅)))
              Bool_value w /\
       Less Execute lhs rhs w =
         match Execute (body p) (<[x := rhs]> (<["self" := Share this]> ∅)) w with
         | (Ok obj, w1) =>
             match Get w1 obj with
             | Some (Bool b) => (Ok b, w1)
             | _ => (Undefined, w1)
             end
         | (Throw e, w1) => (Throw e, w1)
         | (Undefined, w1) => (Undefined, w1)
         end) /\
  (HasMethod self "__lt__" 1 = false ->
     Less Execute lhs rhs w =
       (Throw (runtime_error "Cannot compare objects for less"), w)).
Proof.
  intros Hlhs. split.
  - intros Hyes.
    destruct (Less_override lhs rhs w this self Hlhs Hyes)
      as (p & x & Hp & Hx & Hrun).
    exists p, x. split; [assumption|]. split; [assumption|].
    split; [assumption|]. rewrite Hrun. unfold bind, Bool_value, TryAs_Bool.
    destruct (Execute (body p) _ w) as [[obj| |] w1]; try reflexivity.
    destruct (Get w1 obj) as [[]|]; reflexivity.
  - intros Hno. unfold Less. rewrite Hlhs, Hno.
    apply TryAs_ClassInstance_Some in Hlhs as [-> Hthis].
    unfold Less_builtin, TryAs_Bool, TryAs_Number, TryAs_String. simpl.
    rewrite Hthis. reflexivity.
Qed.

(** The boolean a [__lt__] override produces is the result of [Less]. *)
Lemma Less_override_value lhs rhs w this self p x obj w1 b :
  TryAs_ClassInstance w lhs = Some (this, self) ->
  GetMethod (class_ self) "__lt__" = Some p -> formal_params p = [x] ->
  Execute (body p) (<[x := rhs]> (<["self" := Share this]> ∅)) w = (Ok obj, w1) ->
  TryAs_Bool w1 obj = Some b ->
  Less Execute lhs rhs w = (Ok b, w1).
Proof.
  intros Hlhs Hp Hx Hrun Hb.
  destruct (Less_override lhs rhs w this self Hlhs)
    as (p' & x' & Hp' & Hx' & ->).
  { unfold HasMethod. rewrite Hp, Hx. reflexivity. }
  rewrite Hp in Hp'. injection Hp' as <-. rewrite Hx in Hx'.
  injection Hx' as <-. unfold bind, Bool_value. rewrite Hrun, Hb. reflexivity.
Qed.

End Facts.

(** ** The properties at work on the samples *)

(** C1 as stated fails: [Equal(None, Number(0))] does not return false, it
    throws. *)
Lemma Equal_None_Number_0_is_not_false :
  Get w0 (Some 1%positive) = Some (Number 0) /\
  fst (Equal sample_Execute None_ (Some 1%positive) w0) =
    Throw (runtime_error "Cannot compare objects for equality") /\
  fst (Equal sample_Execute None_ (Some 1%positive) w0) <> Ok false.
Proof. split; [reflexivity|]. split; [reflexivity|]. vm_compute. discriminate. Qed.

(** C3, on three generations.  A method declared by the grandparent alone
    is in the table of the parent and not in the table of the grandchild:
    the constructor copies what the parent declares, not the parent's
    table. *)
Lemma GetMethod_grandparent_lost :
  GetMethod class_A "f" = Some m_f /\
  GetMethod class_B "f" = Some m_f /\
  GetMethod class_C "f" = None /\
  parent_ class_C = Some class_B.
Proof. repeat split; reflexivity. Qed.

(** C4 on the instance of [A]: [f] takes one argument, so [HasMethod] of
    [f] with no argument is false and the call with no argument throws. *)
Lemma HasMethod_Call_witness :
  heap w0 !! 2%positive = Some (Instance (ClassInstance_new class_A)) /\
  HasMethod (ClassInstance_new class_A) "f" 0 = false /\
  Call sample_Execute 2%positive "f" [] w0 = (Throw (undefined_method "f"), w0).
Proof.
  split; [reflexivity|]. split; [reflexivity|].
  destruct (HasMethod_Call sample_Execute w0 2%positive
              (ClassInstance_new class_A) "f" [] 0 eq_refl) as (_ & H & _).
  apply H. reflexivity.
Defined.

(** C10 on the instance of [A], which has no method [nope]. *)
Lemma Call_undefined_runs_nothing_witness :
  Call sample_Execute 2%positive "nope" [Some 1%positive] w0
    = (Throw (undefined_method "nope"), w0) /\
  Fields_at (snd (Call sample_Execute 2%positive "nope" [Some 1%positive] w0))
    2%positive = Some ∅.
Proof.
  apply (Call_undefined_runs_nothing w0 2%positive (ClassInstance_new class_A)
           "nope" [Some 1%positive] eq_refl eq_refl sample_Execute).
Defined.

(** C6 with the instance of [Cmp] on the left: [Less] runs [__lt__], which
    returns a fresh false, and false is what [Less] returns. *)
Lemma Less_on_instance_witness :
  fst (Less sample_Execute (Some 3%positive) (Some 1%positive) w0) = Ok false /\
  exists p x,
    GetMethod class_Cmp "__lt__" = Some p /\ formal_params p = [x] /\
    Less sample_Execute (Some 3%positive) (Some 1%positive) w0 =
      bind (sample_Execute (body p)
              (<[x := Some 1%positive]> (<["self" := Share 3%positive]> ∅)))
           Bool_value w0 /\
    Less sample_Execute (Some 3%positive) (Some 1%positive) w0 =
      match sample_Execute (body p)
              (<[x := Some 1%positive]> (<["self" := Share 3%positive]> ∅)) w0 with
      | (Ok obj, w1) =>
          match Get w1 obj with
          | Some (Bool b) => (Ok b, w1)
          | _ => (Undefined, w1)
          end
      | (Throw e, w1) => (Throw e, w1)
      | (Undefined, w1) => (Undefined, w1)
      end.
Proof.
  split; [vm_compute; reflexivity|].
  destruct (Less_on_instance sample_Execute (Some 3%positive) (Some 1%positive)
              w0 3%positive (ClassInstance_new class_Cmp) eq_refl) as [H _].
  apply H. reflexivity.
Defined.

(** [Greater] on the instance of [Cmp] runs two bodies, [__lt__] and then
    [__eq__]: the sink has counted both. *)
Example Greater_runs_both_overrides :
  let '(r, w) := Greater sample_Execute (Some 3%positive) (Some 1%positive) w0 in
  r = Ok false /\ context w = 2%nat.
Proof. vm_compute. split; reflexivity. Qed.

(** On numbers the six comparisons are those of the integers. *)
Example comparisons_1_2 :
  fst (Less sample_Execute (Some 4%positive) (Some 5%positive) w0) = Ok true /\
  fst (Equal sample_Execute (Some 4%positive) (Some 5%positive) w0) = Ok false /\
  fst (NotEqual sample_Execute (Some 4%positive) (Some 5%positive) w0) = Ok true /\
  fst (Greater sample_Execute (Some 4%positive) (Some 5%positive) w0) = Ok false /\
  fst (LessOrEqual sample_Execute (Some 4%positive) (Some 5%positive) w0) = Ok true /\
  fst (GreaterOrEqual sample_Execute (Some 4%positive) (Some 5%positive) w0) = Ok false.
Proof. vm_compute. repeat split; reflexivity. Qed.

(** A successful call does change the fields: [f] stores its number. *)
Example Call_f_changes_fields :
  let '(r, w) := Call sample_Execute 2%positive "f" [Some 1%positive] w0 in
  r = Ok None /\ Fields_at w0 2%positive = Some ∅ /\
  Fields_at w 2%positive = Some (<["x" := Some 6%positive]> ∅).
Proof. vm_compute. repeat split; reflexivity. Qed.

(** ** More on the runtime *)

Section More.

Context {Executable Context : Type}.
Variable Execute : Executable -> Closure -> M Executable Context ObjectHolder.

Implicit Types (w : World Executable Context) (lhs rhs obj : ObjectHolder).
Implicit Types (cls : Class Executable) (self : ClassInstance Executable).

(** *** Comparing built-in values *)

Lemma string_compare_refl s : String.compare s s = Eq.
Proof.
  pose proof (String.compare_antisym s s) as H.
  destruct (String.compare s s); [reflexivity|discriminate|discriminate].
Qed.

Lemma string_trichotomy s1 s2 :
  (String.ltb s1 s2, String.eqb s1 s2, String.ltb s2 s1) = (true, false, false) \/
  (String.ltb s1 s2, String.eqb s1 s2, String.ltb s2 s1) = (false, true, false) \/
  (String.ltb s1 s2, String.eqb s1 s2, String.ltb s2 s1) = (false, false, true).
Proof.
  unfold String.ltb. rewrite (String.compare_antisym s2 s1).
  destruct (String.compare s1 s2) eqn:E; simpl.
  - apply String.compare_eq_iff in E as ->. rewrite String.eqb_refl. auto.
  - assert (String.eqb s1 s2 = false) as ->; [|auto].
    apply String.eqb_neq. intros ->. rewrite string_compare_refl in E.
    discriminate.
  - assert (String.eqb s1 s2 = false) as ->; [|auto].
    apply String.eqb_neq. intros ->. rewrite string_compare_refl in E.
    discriminate.
Qed.

Lemma Equal_not_instance lhs rhs w :
  TryAs_ClassInstance w lhs = None ->
  Equal Execute lhs rhs w =
    if negb (to_bool lhs) && negb (to_bool rhs) then (Ok true, w)
    else Equal_builtin lhs rhs w.
Proof. intros H. unfold Equal. rewrite H. reflexivity. Qed.

Lemma Less_not_instance lhs rhs w :
  TryAs_ClassInstance w lhs = None ->
  Less Execute lhs rhs w = Less_builtin lhs rhs w.
Proof. intros H. unfold Less. rewrite H. reflexivity. Qed.

Lemma scalar_not_instance w o k :
  scalar_kind w o = Some k ->
  TryAs_ClassInstance w o = None /\ to_bool o = true.
Proof.
  unfold scalar_kind, Get, TryAs_ClassInstance.
  destruct o as [l|]; [|discriminate].
  destruct (heap w !! l) as [[]|]; try discriminate; auto.
Qed.

Lemma builtin_world lhs rhs w :
  snd (Equal_builtin lhs rhs w) = w /\ snd (Less_builtin lhs rhs w) = w.
Proof.
  unfold Equal_builtin, Less_builtin. split; repeat case_match; reflexivity.
Qed.

(** The built-in comparisons on two values of one kind. *)
Lemma builtin_same_kind lhs rhs w k :
  scalar_kind w lhs = Some k -> scalar_kind w rhs = Some k ->
  exists lt eq gt,
    Less_builtin lhs rhs w = (Ok lt, w) /\
    Equal_builtin lhs rhs w = (Ok eq, w) /\
    Less_builtin rhs lhs w = (Ok gt, w) /\
    ((lt, eq, gt) = (true, false, false) \/
     (lt, eq, gt) = (false, true, false) \/
     (lt, eq, gt) = (false, false, true)) /\
    (eq = true <-> Get w lhs = Get w rhs).
Proof.
  unfold scalar_kind, Less_builtin, Equal_builtin, TryAs_Bool, TryAs_Number,
    TryAs_String.
  intros Hl Hr.
  destruct (Get w lhs) as [[n1|s1|b1|c1|i1]|]; try discriminate;
    destruct (Get w rhs) as [[n2|s2|b2|c2|i2]|]; try discriminate;
    try congruence.
  - exists (n1 <? n2)%Z, (n1 =? n2)%Z, (n2 <? n1)%Z.
    split; [reflexivity|]. split; [reflexivity|]. split; [reflexivity|].
    split.
    + destruct (Z.ltb_spec n1 n2), (Z.eqb_spec n1 n2), (Z.ltb_spec n2 n1);
        auto; lia.
    + rewrite Z.eqb_eq. split; [intros ->; reflexivity|].
      intros [= ->]. reflexivity.
  - exists (String.ltb s1 s2), (String.eqb s1 s2), (String.ltb s2 s1).
    split; [reflexivity|]. split; [reflexivity|]. split; [reflexivity|].
    split; [apply string_trichotomy|].
    rewrite String.eqb_eq. split; [intros ->; reflexivity|].
    intros [= ->]. reflexivity.
  - exists (negb b1 && b2), (Bool.eqb b1 b2), (negb b2 && b1).
    split; [reflexivity|]. split; [reflexivity|]. split; [reflexivity|].
    split; [destruct b1, b2; auto|].
    rewrite Bool.eqb_true_iff. split; [intros ->; reflexivity|].
    intros [= ->]. reflexivity.
Qed.

(** X21. [Equal] does not depend on the order of its operands when neither
    is an instance of a class: both orders give the same boolean, or both
    throw. *)
Theorem Equal_symmetric lhs rhs w :
  TryAs_ClassInstance w lhs = None -> TryAs_ClassInstance w rhs = None ->
  Equal Execute lhs rhs w = Equal Execute rhs lhs w.
Proof.
  intros Hl Hr. rewrite !Equal_not_instance by assumption.
  rewrite (andb_comm (negb (to_bool rhs))).
  destruct (negb (to_bool lhs) && negb (to_bool rhs)); [reflexivity|].
  unfold Equal_builtin, TryAs_Bool, TryAs_Number, TryAs_String.
  destruct (Get w lhs) as [[n1|s1|b1|c1|i1]|];
    destruct (Get w rhs) as [[n2|s2|b2|c2|i2]|]; try reflexivity.
  - rewrite Z.eqb_sym. reflexivity.
  - rewrite String.eqb_sym. reflexivity.
  - destruct b1, b2; reflexivity.
Qed.

(** X22. On two values of one built-in kind (two numbers, two strings or
    two booleans) the comparisons return and change nothing; exactly one of
    [Less(lhs, rhs)], [Equal(lhs, rhs)] and [Less(rhs, lhs)] is true;
    [Equal] is true exactly when the two values are the same; and
    [Greater], [LessOrEqual], [GreaterOrEqual] and [NotEqual] are what the
    three say: [Greater(lhs, rhs)] is [Less(rhs, lhs)]. *)
Theorem same_kind_order lhs rhs w k :
  scalar_kind w lhs = Some k -> scalar_kind w rhs = Some k ->
  exists lt eq gt,
    Less Execute lhs rhs w = (Ok lt, w) /\
    Equal Execute lhs rhs w = (Ok eq, w) /\
    Less Execute rhs lhs w = (Ok gt, w) /\
    ((lt, eq, gt) = (true, false, false) \/
     (lt, eq, gt) = (false, true, false) \/
     (lt, eq, gt) = (false, false, true)) /\
    (eq = true <-> Get w lhs = Get w rhs) /\
    Greater Execute lhs rhs w = (Ok gt, w) /\
    LessOrEqual Execute lhs rhs w = (Ok (negb gt), w) /\
    GreaterOrEqual Execute lhs rhs w = (Ok (negb lt), w) /\
    NotEqual Execute lhs rhs w = (Ok (negb eq), w).
Proof.
  intros Hl Hr.
  destruct (builtin_same_kind lhs rhs w k Hl Hr)
    as (lt & eq & gt & Hlt & Heq & Hgt & Htri & Hsame).
  destruct (scalar_not_instance w lhs k Hl) as [Hil Htl].
  destruct (scalar_not_instance w rhs k Hr) as [Hir Htr].
  assert (HL : Less Execute lhs rhs w = (Ok lt, w)).
  { rewrite Less_not_instance by assumption. exact Hlt. }
  assert (HE : Equal Execute lhs rhs w = (Ok eq, w)).
  { rewrite Equal_not_instance by assumption. rewrite Htl. exact Heq. }
  assert (HG : Less Execute rhs lhs w = (Ok gt, w)).
  { rewrite Less_not_instance by assumption. exact Hgt. }
  exists lt, eq, gt.
  split; [exact HL|]. split; [exact HE|]. split; [exact HG|].
  split; [exact Htri|]. split; [exact Hsame|].
  unfold Greater, LessOrEqual, GreaterOrEqual, NotEqual, not_, or_else, bind, ret.
  rewrite HL.
  destruct Htri as [H|[H|H]]; injection H as -> -> ->; rewrite ?HE;
    (split; [reflexivity|split; [reflexivity|split; reflexivity]]).
Qed.

(** X23. With anything but an instance of a class on the left, none of the
    six comparisons runs a method body or changes the world: the result is
    the same whatever [Execute] is, and the world afterwards is the world
    before. *)
Theorem comparisons_pure Execute' lhs rhs w :
  TryAs_ClassInstance w lhs = None ->
  Forall (fun op : (Executable -> Closure -> M Executable Context ObjectHolder) ->
                   ObjectHolder -> ObjectHolder -> M Executable Context bool =>
            op Execute lhs rhs w = op Execute' lhs rhs w /\
            snd (op Execute lhs rhs w) = w)
    [@Equal Executable Context; @NotEqual Executable Context;
     @Less Executable Context; @Greater Executable Context;
     @LessOrEqual Executable Context; @GreaterOrEqual Executable Context].
Proof.
  intros Hl.
  assert (exists re, forall E, Equal E lhs rhs w = (re, w)) as [re HE].
  { destruct (builtin_world lhs rhs w) as [Hw _].
    destruct (Equal_builtin lhs rhs w) as [r w'] eqn:Hb. simpl in Hw. subst w'.
    exists (if negb (to_bool lhs) && negb (to_bool rhs) then Ok true else r).
    intros E. unfold Equal. rewrite Hl, Hb.
    destruct (negb (to_bool lhs) && negb (to_bool rhs)); reflexivity. }
  assert (exists rl, forall E, Less E lhs rhs w = (rl, w)) as [rl HL].
  { destruct (builtin_world lhs rhs w) as [_ Hw].
    destruct (Less_builtin lhs rhs w) as [r w'] eqn:Hb. simpl in Hw. subst w'.
    exists r. intros E. unfold Less. rewrite Hl. exact Hb. }
  repeat apply List.Forall_cons; [..|apply List.Forall_nil];
    unfold Greater, LessOrEqual, GreaterOrEqual, NotEqual, not_, or_else, bind, ret;
    rewrite ?HL, ?HE;
    destruct rl as [[]| |]; rewrite ?HE; destruct re as [[]| |];
    split; reflexivity.
Qed.

(** X24. Nothing is converted to compare it.  With no instance of a class
    on the left, [Less] throws its "cannot compare" error unless both
    operands are of one built-in kind: a number against a string, anything
    against [None], [None] against [None], a class.  [Equal] throws its own
    in the same cases, save the one of two empty holders. *)
Theorem no_coercion lhs rhs w :
  TryAs_ClassInstance w lhs = None ->
  scalar_kind w lhs = None \/ scalar_kind w lhs <> scalar_kind w rhs ->
  Less Execute lhs rhs w =
    (Throw (runtime_error "Cannot compare objects for less"), w) /\
  (to_bool lhs || to_bool rhs = true ->
   Equal Execute lhs rhs w =
     (Throw (runtime_error "Cannot compare objects for equality"), w)).
Proof.
  intros Hl Hk.
  rewrite Less_not_instance, Equal_not_instance by assumption.
  rewrite <- negb_orb.
  unfold Less_builtin, Equal_builtin, TryAs_Bool, TryAs_Number, TryAs_String.
  unfold scalar_kind in Hk.
  split; [|intros ->; simpl];
    destruct (Get w lhs) as [[n1|s1|b1|c1|i1]|];
    destruct (Get w rhs) as [[n2|s2|b2|c2|i2]|]; try reflexivity;
    exfalso; destruct Hk; congruence.
Qed.

(** *** Comparing with an instance *)

(** [Equal] on an instance whose class overrides [__eq__]. *)
Lemma Equal_override lhs rhs w this self :
  TryAs_ClassInstance w lhs = Some (this, self) ->
  HasMethod self "__eq__" 1 = true ->
  exists p x,
    GetMethod (class_ self) "__eq__" = Some p /\ formal_params p = [x] /\
    Equal Execute lhs rhs w =
      bind (Execute (body p) (<[x := rhs]> (<["self" := Share this]> ∅)))
           Bool_value w.
Proof.
  intros Hlhs Hyes. unfold Equal. rewrite Hlhs, Hyes.
  apply TryAs_ClassInstance_Some in Hlhs as [-> Hthis]. simpl.
  destruct (Call_defined Execute w this self "__eq__" [rhs] Hthis Hyes)
    as (p & Hp & Hrun).
  apply HasMethod_true_iff in Hyes as (p' & Hp' & Hlen).
  rewrite Hp in Hp'. injection Hp' as <-.
  destruct (formal_params p) as [|x [|y ps]] eqn:Hps; try discriminate.
  exists p, x. split; [assumption|]. split; [assumption|].
  unfold bind. rewrite Hrun. reflexivity.
Qed.

(** X25. [Equal] with an instance on the left.  When its class has
    [__eq__] with one parameter, [Equal] is the execution of that method's
    body, with [self] and the right operand bound, and returns the boolean
    the body produces: the value of the [Bool] returned, in the world the
    body left; what the body throws, [Equal] throws.  When the class has no
    such method, [Equal] throws the "cannot compare" error.  Only the left
    operand is asked: with the instance on the right and anything but an
    instance on the left, [Equal] throws, whatever the class overrides. *)
Theorem Equal_on_instance lhs rhs w this self :
  TryAs_ClassInstance w lhs = Some (this, self) ->
  (HasMethod self "__eq__" 1 = true ->
     exists p x,
       GetMethod (class_ self) "__eq__" = Some p /\ formal_params p = [x] /\
       Equal Execute lhs rhs w =
         bind (Execute (body p) (<[x := rhs]> (<["self" := Share this]> ∅)))
              Bool_value w /\
       Equal Execute lhs rhs w =
         match Execute (body p) (<[x := rhs]> (<["self" := Share this]> ∅)) w with
         | (Ok obj, w1) =>
             match Get w1 obj with
             | Some (Bool b) => (Ok b, w1)
             | _ => (Undefined, w1)
             end
         | (Throw e, w1) => (Throw e, w1)
         | (Undefined, w1) => (Undefined, w1)
         end) /\
  (HasMethod self "__eq__" 1 = false ->
     Equal Execute lhs rhs w =
       (Throw (runtime_error "Cannot compare objects for equality"), w)) /\
  (TryAs_ClassInstance w rhs = None ->
     Equal Execute rhs lhs w =
       (Throw (runtime_error "Cannot compare objects for equality"), w)).
Proof.
  intros Hlhs. split.
  { intros Hyes.
    destruct (Equal_override lhs rhs w this self Hlhs Hyes)
      as (p & x & Hp & Hx & Hrun).
    exists p, x. split; [assumption|]. split; [assumption|].
    split; [assumption|]. rewrite Hrun. unfold bind, Bool_value, TryAs_Bool.
    destruct (Execute (body p) _ w) as [[obj| |] w1]; try reflexivity.
    destruct (Get w1 obj) as [[]|]; reflexivity. }
  pose proof Hlhs as Hi. apply TryAs_ClassInstance_Some in Hi as [-> Hthis].
  split.
  - intros Hno. unfold Equal. rewrite Hlhs, Hno. simpl.
    unfold Equal_builtin, TryAs_Bool, TryAs_Number, TryAs_String. simpl.
    rewrite Hthis. reflexivity.
  - intros Hr. rewrite Equal_not_instance by assumption. simpl.
    rewrite andb_false_r.
    unfold Equal_builtin, TryAs_Bool, TryAs_Number, TryAs_String. simpl.
    rewrite Hthis. repeat case_match; reflexivity.
Qed.

(** X26. An override that returns anything but a [Bool] (a number, a
    string, [None]) makes the comparison undefined: the null pointer
    [TryAs<Bool>()] gives is dereferenced.  The body has run by then. *)
Theorem override_not_Bool lhs rhs w this self p x obj w1 :
  TryAs_ClassInstance w lhs = Some (this, self) ->
  formal_params p = [x] ->
  Execute (body p) (<[x := rhs]> (<["self" := Share this]> ∅)) w = (Ok obj, w1) ->
  TryAs_Bool w1 obj = None ->
  (GetMethod (class_ self) "__eq__" = Some p ->
     Equal Execute lhs rhs w = (Undefined, w1)) /\
  (GetMethod (class_ self) "__lt__" = Some p ->
     Less Execute lhs rhs w = (Undefined, w1)).
Proof.
  intros Hlhs Hx Hrun Hb. split; intros Hp.
  - destruct (Equal_override lhs rhs w this self Hlhs)
      as (p' & x' & Hp' & Hx' & ->).
    { unfold HasMethod. rewrite Hp, Hx. reflexivity. }
    rewrite Hp in Hp'. injection Hp' as <-. rewrite Hx in Hx'.
    injection Hx' as <-. unfold bind, Bool_value. rewrite Hrun, Hb. reflexivity.
  - destruct (Less_override Execute lhs rhs w this self Hlhs)
      as (p' & x' & Hp' & Hx' & ->).
    { unfold HasMethod. rewrite Hp, Hx. reflexivity. }
    rewrite Hp in Hp'. injection Hp' as <-. rewrite Hx in Hx'.
    injection Hx' as <-. unfold bind, Bool_value. rewrite Hrun, Hb. reflexivity.
Qed.

(** *** The table of a class *)

(** X27. What [GetMethod] finds in a class as constructed.  A method found
    bears the name asked for, and is one the class declares or, when the
    class declares none of that name, one its parent declares.  Nothing is
    found exactly when neither the class nor its parent declares a method
    of that name. *)
Theorem GetMethod_found nm (methods : list (Method Executable)) parent n :
  match GetMethod (Class_new nm methods parent) n with
  | Some m =>
      name m = n /\
      (In m methods \/
       (forall m', In m' methods -> name m' <> n) /\
       exists p, parent = Some p /\ In m (methods_ p))
  | None =>
      (forall m, In m methods -> name m <> n) /\
      (forall p m, parent = Some p -> In m (methods_ p) -> name m <> n)
  end.
Proof.
  destruct parent as [p|].
  - rewrite GetMethod_Class_new.
    destruct (fill_v_table methods ∅ !! n) as [m|] eqn:E1.
    + apply fill_v_table_Some in E1 as [Hin Hn]. auto.
    + pose proof (proj1 (fill_v_table_None _ _) E1) as Hown.
      destruct (fill_v_table (methods_ p) ∅ !! n) as [m|] eqn:E2.
      * apply fill_v_table_Some in E2 as [Hin Hn]. split; [assumption|].
        right. split; [assumption|]. exists p. auto.
      * split; [assumption|]. intros p' m [= <-].
        apply (proj1 (fill_v_table_None _ _) E2).
  - rewrite GetMethod_Class_new_root.
    destruct (fill_v_table methods ∅ !! n) as [m|] eqn:E1.
    + apply fill_v_table_Some in E1 as [Hin Hn]. auto.
    + split; [apply (proj1 (fill_v_table_None _ _) E1)|]. discriminate.
Qed.

(** X28. Of the methods a class declares under one name the last is the
    one in the table, whatever the parent has.  An instance of the class
    has that name with the number of parameters of the last declaration and
    with no other: methods are not overloaded by arity. *)
Theorem last_declaration_wins nm (ms1 ms2 : list (Method Executable)) m parent :
  (forall m', In m' ms2 -> name m' <> name m) ->
  GetMethod (Class_new nm (ms1 ++ m :: ms2) parent) (name m) = Some m /\
  forall k,
    HasMethod (ClassInstance_new (Class_new nm (ms1 ++ m :: ms2) parent))
      (name m) k = (k =? length (formal_params m))%nat.
Proof.
  intros Hlast.
  assert (Hfill : fill_v_table (ms1 ++ m :: ms2) ∅ !! name m = Some m).
  { unfold fill_v_table. rewrite fold_left_app. simpl.
    change (fold_left _ ms2 ?t) with (fill_v_table ms2 t).
    rewrite fill_v_table_lookup.
    rewrite (proj2 (fill_v_table_None ms2 (name m)) Hlast).
    apply lookup_insert_eq. }
  assert (Hget : GetMethod (Class_new nm (ms1 ++ m :: ms2) parent) (name m)
                 = Some m).
  { destruct parent as [p|].
    - rewrite GetMethod_Class_new, Hfill. reflexivity.
    - rewrite GetMethod_Class_new_root. exact Hfill. }
  split; [exact Hget|]. intros k. unfold HasMethod.
  change (class_ (ClassInstance_new ?c)) with c. rewrite Hget. reflexivity.
Qed.

(** *** The closure of a call *)

Lemma bind_fold_notin (params : list string) (args : list ObjectHolder)
    (c : Closure) y :
  ~ In y params ->
  fold_left (fun c pa => <[pa.1 := pa.2]> c) (zip params args) c !! y = c !! y.
Proof.
  revert args c. induction params as [|p ps IH]; intros [|a args] c Hn;
    simpl; try reflexivity.
  rewrite IH by (intros H; apply Hn; right; exact H).
  apply lookup_insert_ne. intros ->. apply Hn. left. reflexivity.
Qed.

Lemma bind_fold_lookup (params : list string) (args : list ObjectHolder)
    (c : Closure) i x a :
  List.NoDup params -> params !! i = Some x -> args !! i = Some a ->
  fold_left (fun c pa => <[pa.1 := pa.2]> c) (zip params args) c !! x = Some a.
Proof.
  revert args c i. induction params as [|p ps IH]; intros args c i Hnd Hp Ha.
  - destruct i; discriminate.
  - destruct args as [|a0 args]; [destruct i; discriminate|].
    inversion Hnd as [|? ? Hnotin Hnd']; subst.
    destruct i as [|i]; simpl in *.
    + injection Hp as ->. injection Ha as ->.
      rewrite bind_fold_notin by assumption. apply lookup_insert_eq.
    + eapply IH; eassumption.
Qed.

(** X29. What a method body sees.  For a call that passes as many
    arguments as the method has parameters, with the parameters' names
    distinct, the closure [Execute] receives binds each parameter to the
    argument at its position; [self] is the instance called, unless a
    parameter is named [self], which then takes its place; and nothing else
    is bound: the fields of the instance are not in the closure. *)
Theorem Call_binds w this self method p (actual_args : list ObjectHolder) :
  heap w !! this = Some (Instance self) ->
  GetMethod (class_ self) method = Some p ->
  length (formal_params p) = length actual_args ->
  List.NoDup (formal_params p) ->
  exists closure : Closure,
    Call Execute this method actual_args w = Execute (body p) closure w /\
    (forall i x a, formal_params p !! i = Some x -> actual_args !! i = Some a ->
                   closure !! x = Some a) /\
    (~ In "self" (formal_params p) -> closure !! "self" = Some (Share this)) /\
    (forall y, y <> "self" -> ~ In y (formal_params p) -> closure !! y = None).
Proof.
  intros Hthis Hp Hlen Hnd.
  destruct (Call_defined Execute w this self method actual_args Hthis)
    as (p' & Hp' & Hrun).
  { apply HasMethod_true_iff. exists p. auto. }
  rewrite Hp in Hp'. injection Hp' as <-.
  eexists. split; [exact Hrun|]. split; [|split].
  - intros i x a Hx Ha. eapply bind_fold_lookup; eassumption.
  - intros Hn. rewrite bind_fold_notin by assumption. apply lookup_insert_eq.
  - intros y Hy Hn. rewrite bind_fold_notin by assumption.
    rewrite lookup_insert_ne by congruence. apply lookup_empty.
Qed.

(** *** Printing *)

Variable show_pointer : loc -> string.
Variable ValueObject_Print : Object Executable -> string.

(** X30. Printing an instance whose [__str__] returns the instance itself,
    and changes nothing, never finishes: [ClassInstance::Print] calls
    [__str__] and prints the result, which is the same instance again. *)
Theorem Print_str_returns_self w this self p :
  heap w !! this = Some (Instance self) ->
  GetMethod (class_ self) "__str__" = Some p ->
  formal_params p = [] ->
  Execute (body p) (<["self" := Share this]> ∅) w = (Ok (Some this), w) ->
  forall fuel os,
    Print Execute show_pointer ValueObject_Print fuel this os w = None.
Proof.
  intros Hthis Hp Hps Hrun fuel os.
  assert (Hhas : HasMethod self "__str__" 0 = true).
  { unfold HasMethod. rewrite Hp, Hps. reflexivity. }
  induction fuel as [|fuel IH]; [reflexivity|].
  simpl. rewrite Hthis, Hhas. unfold Call.
  rewrite Hthis. simpl. rewrite Hhas, Hp, Hps. simpl. rewrite Hrun. exact IH.
Qed.

End More.

(** ** The further properties on the samples *)

Lemma Equal_symmetric_witness :
  Equal echo_Execute (Some 3%positive) (Some 1%positive) w_echo =
  Equal echo_Execute (Some 1%positive) (Some 3%positive) w_echo.
Proof.
  apply (Equal_symmetric echo_Execute (Some 3%positive) (Some 1%positive) w_echo);
    reflexivity.
Defined.

Lemma same_kind_order_witness :
  exists lt eq gt,
    Less echo_Execute (Some 3%positive) (Some 4%positive) w_echo = (Ok lt, w_echo) /\
    Equal echo_Execute (Some 3%positive) (Some 4%positive) w_echo = (Ok eq, w_echo) /\
    Less echo_Execute (Some 4%positive) (Some 3%positive) w_echo = (Ok gt, w_echo) /\
    ((lt, eq, gt) = (true, false, false) \/
     (lt, eq, gt) = (false, true, false) \/
     (lt, eq, gt) = (false, false, true)) /\
    (eq = true <-> Get w_echo (Some 3%positive) = Get w_echo (Some 4%positive)) /\
    Greater echo_Execute (Some 3%positive) (Some 4%positive) w_echo = (Ok gt, w_echo) /\
    LessOrEqual echo_Execute (Some 3%positive) (Some 4%positive) w_echo
      = (Ok (negb gt), w_echo) /\
    GreaterOrEqual echo_Execute (Some 3%positive) (Some 4%positive) w_echo
      = (Ok (negb lt), w_echo) /\
    NotEqual echo_Execute (Some 3%positive) (Some 4%positive) w_echo
      = (Ok (negb eq), w_echo).
Proof.
  apply (same_kind_order echo_Execute (Some 3%positive) (Some 4%positive) w_echo
           KString); reflexivity.
Defined.

Lemma comparisons_pure_witness :
  Forall (fun op : (sample_body -> Closure -> M sample_body sample_context ObjectHolder) ->
                   ObjectHolder -> ObjectHolder -> M sample_body sample_context bool =>
            op sample_Execute (Some 4%positive) (Some 2%positive) w0 =
              op (fun _ _ w => (Undefined, w)) (Some 4%positive) (Some 2%positive) w0 /\
            snd (op sample_Execute (Some 4%positive) (Some 2%positive) w0) = w0)
    [@Equal sample_body sample_context; @NotEqual sample_body sample_context;
     @Less sample_body sample_context; @Greater sample_body sample_context;
     @LessOrEqual sample_body sample_context;
     @GreaterOrEqual sample_body sample_context].
Proof.
  apply (comparisons_pure sample_Execute (fun _ _ w => (Undefined, w))
           (Some 4%positive) (Some 2%positive) w0).
  reflexivity.
Defined.

(** A number against a string. *)
Lemma no_coercion_witness :
  Less echo_Execute (Some 1%positive) (Some 3%positive) w_echo =
    (Throw (runtime_error "Cannot compare objects for less"), w_echo) /\
  (to_bool (Some 1%positive) || to_bool (Some 3%positive) = true ->
   Equal echo_Execute (Some 1%positive) (Some 3%positive) w_echo =
     (Throw (runtime_error "Cannot compare objects for equality"), w_echo)).
Proof.
  apply (no_coercion echo_Execute (Some 1%positive) (Some 3%positive) w_echo).
  - reflexivity.
  - right. vm_compute. discriminate.
Defined.

(** The instance of [Cmp] against a number: [__eq__] runs and its true is
    what [Equal] returns; the number against the instance throws. *)
Lemma Equal_on_instance_witness :
  fst (Equal sample_Execute (Some 3%positive) (Some 1%positive) w0) = Ok true /\
  (exists p x,
     GetMethod class_Cmp "__eq__" = Some p /\ formal_params p = [x] /\
     Equal sample_Execute (Some 3%positive) (Some 1%positive) w0 =
       bind (sample_Execute (body p)
               (<[x := Some 1%positive]> (<["self" := Share 3%positive]> ∅)))
            Bool_value w0 /\
     Equal sample_Execute (Some 3%positive) (Some 1%positive) w0 =
       match sample_Execute (body p)
               (<[x := Some 1%positive]> (<["self" := Share 3%positive]> ∅)) w0 with
       | (Ok obj, w1) =>
           match Get w1 obj with
           | Some (Bool b) => (Ok b, w1)
           | _ => (Undefined, w1)
           end
       | (Throw e, w1) => (Throw e, w1)
       | (Undefined, w1) => (Undefined, w1)
       end) /\
  Equal sample_Execute (Some 1%positive) (Some 3%positive) w0 =
    (Throw (runtime_error "Cannot compare objects for equality"), w0).
Proof.
  split; [vm_compute; reflexivity|].
  destruct (Equal_on_instance sample_Execute (Some 3%positive) (Some 1%positive)
              w0 3%positive (ClassInstance_new class_Cmp) eq_refl)
    as (Hyes & _ & Hrev).
  split; [apply Hyes; reflexivity|apply Hrev; reflexivity].
Defined.

(** [Echo] answers [==] and [<] with its right operand, here a number. *)
Lemma override_not_Bool_witness :
  Equal echo_Execute (Some 2%positive) (Some 1%positive) w_echo
    = (Undefined, w_echo) /\
  Less echo_Execute (Some 2%positive) (Some 1%positive) w_echo
    = (Undefined, w_echo).
Proof.
  split.
  - exact (proj1 (override_not_Bool echo_Execute (Some 2%positive)
             (Some 1%positive) w_echo 2%positive (ClassInstance_new class_Echo)
             m_eq_arg "rhs" (Some 1%positive) w_echo
             eq_refl eq_refl eq_refl eq_refl) eq_refl).
  - exact (proj2 (override_not_Bool echo_Execute (Some 2%positive)
             (Some 1%positive) w_echo 2%positive (ClassInstance_new class_Echo)
             m_lt_arg "rhs" (Some 1%positive) w_echo
             eq_refl eq_refl eq_refl eq_refl) eq_refl).
Defined.

(** [Echo] declares [pair] with one parameter and then with two. *)
Lemma last_declaration_wins_witness :
  GetMethod class_Echo "pair" = Some m_pair /\
  forall k,
    HasMethod (ClassInstance_new class_Echo) "pair" k = (k =? 2)%nat.
Proof.
  apply (last_declaration_wins "Echo" [m_pair_old; m_str; m_eq_arg; m_lt_arg] []
           m_pair None).
  intros m' [].
Defined.

Lemma Call_binds_witness :
  exists closure : Closure,
    Call echo_Execute 2%positive "pair" [Some 1%positive; Some 3%positive] w_echo
      = echo_Execute (ReturnArg "b") closure w_echo /\
    (forall i x a, ["a"; "b"] !! i = Some x ->
                   [Some 1%positive; Some 3%positive] !! i = Some a ->
                   closure !! x = Some a) /\
    (~ In "self" ["a"; "b"] -> closure !! "self" = Some (Share 2%positive)) /\
    (forall y, y <> "self" -> ~ In y ["a"; "b"] -> closure !! y = None).
Proof.
  apply (Call_binds echo_Execute w_echo 2%positive (ClassInstance_new class_Echo)
           "pair" m_pair [Some 1%positive; Some 3%positive]
           eq_refl eq_refl eq_refl).
  apply (proj1 (NoDup_ListNoDup _)). apply (bool_decide_unpack _).
  vm_compute. exact I.
Defined.

Lemma Print_str_returns_self_witness :
  Print echo_Execute sample_pointer sample_value 100 2%positive "out: " w_echo
    = None.
Proof.
  apply (Print_str_returns_self echo_Execute sample_pointer sample_value w_echo
           2%positive (ClassInstance_new class_Echo) m_str
           eq_refl eq_refl eq_refl eq_refl).
Defined.

End runtime_facts.

(* ===================================================================== *)
(** * Properties of the lexer *)
(* ===================================================================== *)

Module parse_facts.
Import parse.

Local Open Scope char_scope.
Local Open Scope Z_scope.
Local Open Scope list_scope.

Abbreviation SP := " "%char.
Abbreviation NL := "010"%char.

(** A fresh stream over some characters. *)
Abbreviation fresh_stream b := (mkStream b false false).

(** ** The stream *)

Lemma CheckEof_more c rest :
  CheckEof (fresh_stream (c :: rest)) = (false, fresh_stream (c :: rest)).
Proof. reflexivity. Qed.

Lemma blank_line_nonempty n rest :
  exists c more, repeat SP n ++ NL :: rest = c :: more.
Proof. destruct n; simpl; eauto. Qed.

(** Counting spaces stops at the first character that is not a space and
    takes that character off the stream. *)
Lemma count_spaces_stop n : forall fuel ch k c rest,
  (n < fuel)%nat -> c <> SP ->
  count_spaces fuel (fresh_stream (repeat SP n ++ c :: rest)) ch k =
    (fresh_stream rest, Some c, k + Z.of_nat n).
Proof.
  induction n as [|n IH]; intros fuel ch k c rest Hfuel Hc;
    destruct fuel as [|fuel]; try lia; simpl.
  - apply Ascii.eqb_neq in Hc. unfold get; simpl. rewrite Hc.
    rewrite Z.add_0_r. reflexivity.
  - unfold get; simpl.
    rewrite IH by (lia || assumption). f_equal. lia.
Qed.

(** At the end of the input the count stops with both state bits set. *)
Lemma count_spaces_eof n : forall fuel ch k,
  (n < fuel)%nat ->
  count_spaces fuel (fresh_stream (repeat SP n)) ch k =
    (mkStream [] true true,
     match n with O => ch | S _ => Some SP end, k + Z.of_nat n).
Proof.
  induction n as [|n IH]; intros fuel ch k Hfuel;
    destruct fuel as [|fuel]; try lia; simpl.
  - rewrite Z.add_0_r. reflexivity.
  - unfold get; simpl.
    rewrite IH by lia.
    replace (k + 1 + Z.of_nat n) with (k + Z.of_nat (S n)) by lia.
    destruct n; reflexivity.
Qed.

(** ** Indentation *)

(** The number of turns of the loop that spends [n] spaces two at a time:
    one for every unit begun. *)
Lemma units_begun_step n : 0 < n -> (n + 1) / 2 = (n - 2 + 1) / 2 + 1.
Proof. intros _. Z.to_euclidean_division_equations. lia. Qed.

Lemma units_begun_nonpos n : n <= 0 -> Z.to_nat ((n + 1) / 2) = 0%nat.
Proof. intros H. Z.to_euclidean_division_equations. lia. Qed.

Lemma dent_loop_closed fuel : forall n tok step s toks cur d,
  (Z.to_nat ((n + 1) / 2) <= fuel)%nat ->
  dent_loop fuel n tok step (mkLexer s toks cur d) =
    mkLexer s (toks ++ repeat tok (Z.to_nat ((n + 1) / 2))) cur
      (d + step * Z.of_nat (Z.to_nat ((n + 1) / 2))).
Proof.
  induction fuel as [|fuel IH]; intros n tok step s toks cur d Hfuel.
  - simpl. replace (Z.to_nat ((n + 1) / 2)) with 0%nat by lia.
    simpl. rewrite app_nil_r. f_equal. lia.
  - simpl. destruct (0 <? n) eqn:Hn.
    + apply Z.ltb_lt in Hn. unfold emplace_back, set_dent, DENT_SPACES; simpl.
      rewrite IH by (rewrite (units_begun_step n Hn) in Hfuel; lia).
      rewrite (units_begun_step n Hn).
      assert (0 <= (n - 2 + 1) / 2) by (Z.to_euclidean_division_equations; lia).
      rewrite Z2Nat.inj_add by lia. rewrite Nat.add_comm. simpl repeat.
      rewrite <- app_assoc. simpl. f_equal. lia.
    + apply Z.ltb_ge in Hn. rewrite (units_begun_nonpos n Hn).
      simpl. rewrite app_nil_r. f_equal. lia.
Qed.

(** What [ParseDent] does with the spaces counted: an [Indent] for every
    unit begun above the level, or a [Dedent] for every unit begun below
    it. *)
Lemma adjust_dent_closed n s toks cur d :
  adjust_dent n (mkLexer s toks cur d) =
    if d * 2 <? n then
      mkLexer s (toks ++ repeat token_type.Indent (Z.to_nat ((n - d * 2 + 1) / 2)))
        cur (d + Z.of_nat (Z.to_nat ((n - d * 2 + 1) / 2)))
    else
      mkLexer s (toks ++ repeat token_type.Dedent (Z.to_nat ((d * 2 - n + 1) / 2)))
        cur (d - Z.of_nat (Z.to_nat ((d * 2 - n + 1) / 2))).
Proof.
  unfold adjust_dent, DENT_SPACES; simpl.
  destruct (d * 2 <? n) eqn:Hlt.
  - rewrite dent_loop_closed by (Z.to_euclidean_division_equations; lia).
    f_equal; lia.
  - apply Z.ltb_ge in Hlt. destruct (d * 2 >? n) eqn:Hgt.
    + rewrite dent_loop_closed by (Z.to_euclidean_division_equations; lia).
      f_equal; lia.
    + assert (Hn : d * 2 - n = 0) by lia. rewrite Hn.
      change (Z.to_nat ((0 + 1) / 2)) with 0%nat. simpl repeat.
      rewrite app_nil_r. f_equal. simpl. lia.
Qed.

(** A line of [n] spaces and then something that is neither a space nor a
    line terminator: [ParseDent] reads the spaces, leaves the rest, and
    adjusts the level. *)
Lemma ParseDent_line n c rest toks cur d :
  c <> SP -> c <> NL ->
  ParseDent (mkLexer (fresh_stream (repeat SP n ++ c :: rest)) toks cur d) =
    Ok (adjust_dent (Z.of_nat n) (mkLexer (fresh_stream (c :: rest)) toks cur d)).
Proof.
  intros Hsp Hnl. unfold ParseDent. simpl token_input_.
  assert (exists c0 more, repeat SP n ++ c :: rest = c0 :: more) as (c0 & more & E)
    by (destruct n; simpl; eauto).
  rewrite E, CheckEof_more, <- E. unfold enough. simpl buf.
  rewrite count_spaces_stop; [|rewrite length_app, repeat_length; simpl; lia|assumption].
  simpl. apply Ascii.eqb_neq in Hnl. rewrite Hnl. reflexivity.
Qed.

(** A blank line: [ParseDent] reads its spaces, leaves its terminator and
    changes neither the tokens nor the level. *)
Lemma ParseDent_blank n rest toks cur d :
  ParseDent (mkLexer (fresh_stream (repeat SP n ++ NL :: rest)) toks cur d) =
    Ok (mkLexer (fresh_stream (NL :: rest)) toks cur d).
Proof.
  unfold ParseDent. simpl token_input_.
  destruct (blank_line_nonempty n rest) as (c0 & more & E).
  rewrite E, CheckEof_more, <- E. unfold enough. simpl buf.
  rewrite count_spaces_stop; [|rewrite length_app, repeat_length; simpl; lia|discriminate].
  reflexivity.
Qed.

(** Spaces and then the end of the input: they count as indentation. *)
Lemma ParseDent_trailing_spaces n toks cur d :
  ParseDent (mkLexer (fresh_stream (repeat SP (S n))) toks cur d) =
    Ok (adjust_dent (Z.of_nat (S n)) (mkLexer (mkStream [] false true) toks cur d)).
Proof.
  unfold ParseDent. simpl token_input_. simpl repeat.
  rewrite CheckEof_more. unfold enough. simpl buf.
  change (SP :: repeat SP n) with (repeat SP (S n)).
  rewrite count_spaces_eof by (rewrite repeat_length; lia).
  reflexivity.
Qed.

(** The counts of [adjust_dent] against the units of [n] spaces, [n / 2]:
    going down the level becomes [n / 2]; going up it becomes [n / 2] for
    an even [n] and one more for an odd [n]. *)
Lemma units_down n d : 0 <= n <= d * 2 -> (d * 2 - n + 1) / 2 = d - n / 2.
Proof. intros H. Z.to_euclidean_division_equations. lia. Qed.

Lemma units_up n d : 0 <= d * 2 < n -> (n - d * 2 + 1) / 2 = n / 2 - d + n mod 2.
Proof. intros H. Z.to_euclidean_division_equations. lia. Qed.

Lemma adjust_dent_level n s toks cur d :
  0 <= n -> 0 <= d ->
  dent_ (adjust_dent n (mkLexer s toks cur d)) =
    if d * 2 <? n then n / 2 + n mod 2 else n / 2.
Proof.
  intros Hn Hd. rewrite adjust_dent_closed. destruct (d * 2 <? n) eqn:Hlt; simpl.
  - apply Z.ltb_lt in Hlt. rewrite units_up by lia.
    rewrite Z2Nat.id by (Z.to_euclidean_division_equations; lia). lia.
  - apply Z.ltb_ge in Hlt. rewrite units_down by lia.
    rewrite Z2Nat.id by (Z.to_euclidean_division_equations; lia). lia.
Qed.

(** ** Blank lines *)

Lemma back_is_not_Newline_after toks :
  back_is_not_Newline
    (if back_is_not_Newline toks then toks ++ [token_type.Newline] else toks) = false.
Proof.
  destruct (back_is_not_Newline toks) eqn:E; [|assumption].
  unfold back_is_not_Newline. rewrite last_snoc. reflexivity.
Qed.

(** At a line terminator [ParseNewLine] takes it, closes the line with a
    [Newline] unless one is there already, and reads the indentation of
    what follows. *)
Lemma ParseNewLine_at_NL rest toks cur d :
  ParseNewLine (mkLexer (fresh_stream (NL :: rest)) toks cur d) =
    ParseDent (mkLexer (fresh_stream rest)
                 (if back_is_not_Newline toks then toks ++ [token_type.Newline]
                  else toks) cur d).
Proof.
  unfold ParseNewLine; simpl. destruct (back_is_not_Newline toks); reflexivity.
Qed.

(** A turn of the main loop that starts at a line terminator finds no
    string, word, punctuation or number: it is [ParseNewLine]. *)
Lemma iteration_at_NL rest toks cur d :
  iteration (mkLexer (fresh_stream (NL :: rest)) toks cur d) =
    ParseNewLine (mkLexer (fresh_stream (NL :: rest)) toks cur d).
Proof. reflexivity. Qed.

(** A blank line that has its terminator, [n] spaces and a line feed,
    after the terminator of the line before: the lexer is then where it
    would be had the blank line not been there.  It has emitted no [Indent],
    no [Dedent] and no second [Newline], the level is what it was, and the
    indentation is read from the line that follows. *)
Theorem blank_line_skipped n rest toks cur d :
  bind (ParseNewLine
          (mkLexer (fresh_stream (NL :: repeat SP n ++ NL :: rest)) toks cur d))
       iteration =
    ParseNewLine (mkLexer (fresh_stream (NL :: rest)) toks cur d).
Proof.
  rewrite !ParseNewLine_at_NL, ParseDent_blank. simpl bind.
  rewrite iteration_at_NL, ParseNewLine_at_NL, back_is_not_Newline_after.
  reflexivity.
Qed.

(** A blank first line leaves nothing either. *)
Lemma blank_first_line n rest :
  iteration (mkLexer (TrimSpaces (fresh_stream (repeat SP n ++ NL :: rest))) [] 0%nat 0) =
    ParseDent (mkLexer (fresh_stream rest) [] 0%nat 0).
Proof.
  assert (TrimSpaces (fresh_stream (repeat SP n ++ NL :: rest))
          = fresh_stream (NL :: rest)) as ->.
  { unfold TrimSpaces, enough. simpl buf.
    assert (forall fuel, (n < fuel)%nat ->
              TrimSpaces_loop fuel (fresh_stream (repeat SP n ++ NL :: rest))
              = fresh_stream (NL :: rest)) as H.
    { induction n as [|n IH]; intros [|fuel] Hf; try lia; [reflexivity|].
      simpl. apply IH. lia. }
    apply H. rewrite length_app, repeat_length. simpl. lia. }
  rewrite iteration_at_NL, ParseNewLine_at_NL. reflexivity.
Qed.

(** After the run of spaces [rdstate() != eofbit] holds always: the loop
    of [ParseDent] stops on a character, with the stream good, or on a read
    that failed, with [failbit] beside [eofbit].  The test does not tell the
    end of the input. *)
Lemma count_spaces_rdstate fuel : forall s ch n s1 ch1 n1,
  good s = true ->
  count_spaces fuel s ch n = (s1, ch1, n1) ->
  rdstate_not_eofbit s1 = true.
Proof.
  induction fuel as [|fuel IH]; intros s ch n s1 ch1 n1 Hgood; simpl.
  - intros [= <- <- <-]. unfold good, rdstate_not_eofbit in *.
    destruct (eofbit s), (failbit s); try discriminate; reflexivity.
  - unfold get. rewrite Hgood. unfold good in Hgood.
    destruct (eofbit s) eqn:He, (failbit s) eqn:Hf; try discriminate.
    destruct (buf s) as [|c rest] eqn:Hb.
    + intros [= <- <- <-]. reflexivity.
    + destruct (c =? " ")%char.
      * apply IH. reflexivity.
      * intros [= <- <- <-]. reflexivity.
Qed.

(** C8, on a last line of two spaces that the input ends in.  The line is
    blank, and its spaces are taken for the indentation of a statement:
    [ParseDent] opens a block with an [Indent], the end of the input adds a
    second [Newline] and closes the block.  With its line feed the same
    line leaves nothing. *)
Theorem blank_last_line_indents :
  ParseDent (mkLexer (fresh_stream (list_ascii_of_string "  "))
               [token_type.Id "x"; token_type.Newline] 0%nat 0) =
    Ok (mkLexer (mkStream [] false true)
          [token_type.Id "x"; token_type.Newline; token_type.Indent] 0%nat 1) /\
  tokens_of 20 sample_blank_last_line =
    Ok [token_type.Id "x"; token_type.Newline;
        token_type.Indent; token_type.Newline; token_type.Dedent;
        token_type.Eof] /\
  tokens_of 20 sample_blank_line_closed =
    Ok [token_type.Id "x"; token_type.Newline; token_type.Eof].
Proof. split; [|split]; vm_compute; reflexivity. Qed.

(** ** The main loop emits no [Eof] *)

Lemma no_Eof_emplace_back lx tok :
  Is_Eof tok = false -> no_Eof lx -> no_Eof (emplace_back lx tok).
Proof.
  unfold no_Eof. simpl. intros Htok H. apply Forall_app. split; [assumption|].
  constructor; [assumption|constructor].
Qed.

Lemma classify_not_Eof keyword : Is_Eof (classify keyword) = false.
Proof. unfold classify. repeat case_match; reflexivity. Qed.

Lemma dent_loop_no_Eof fuel : forall n tok step lx,
  Is_Eof tok = false -> no_Eof lx -> no_Eof (dent_loop fuel n tok step lx).
Proof.
  induction fuel as [|fuel IH]; intros n tok step lx Htok H; simpl; [assumption|].
  destruct (0 <? n); [|assumption].
  apply IH; [assumption|]. apply (no_Eof_emplace_back lx tok Htok H).
Qed.

Lemma adjust_dent_no_Eof n lx : no_Eof lx -> no_Eof (adjust_dent n lx).
Proof.
  intros H. unfold adjust_dent. repeat case_match;
    try apply dent_loop_no_Eof; auto.
Qed.

(** The steps of the main loop keep the tokens free of [Eof]. *)
Ltac keeps_no_Eof :=
  repeat first
    [ assumption
    | reflexivity
    | apply classify_not_Eof
    | apply adjust_dent_no_Eof
    | apply no_Eof_emplace_back
    | progress (simpl in *; simplify_eq)
    | case_match ].

Lemma ParseDent_no_Eof lx lx' :
  ParseDent lx = Ok lx' -> no_Eof lx -> no_Eof lx'.
Proof. unfold ParseDent. intros H Hinv. keeps_no_Eof. Qed.

Lemma ParseString_no_Eof lx lx' :
  ParseString lx = Ok lx' -> no_Eof lx -> no_Eof lx'.
Proof. unfold ParseString, bind. intros H Hinv. keeps_no_Eof. Qed.

Lemma ParseKeywords_no_Eof lx lx' :
  ParseKeywords lx = Ok lx' -> no_Eof lx -> no_Eof lx'.
Proof. unfold ParseKeywords. intros H Hinv. keeps_no_Eof. Qed.

Lemma ParseChars_no_Eof lx lx' :
  ParseChars lx = Ok lx' -> no_Eof lx -> no_Eof lx'.
Proof. unfold ParseChars. intros H Hinv. keeps_no_Eof. Qed.

Lemma ParseNumbers_no_Eof lx lx' :
  ParseNumbers lx = Ok lx' -> no_Eof lx -> no_Eof lx'.
Proof. unfold ParseNumbers, bind. intros H Hinv. keeps_no_Eof. Qed.

Lemma ParseNewLine_no_Eof lx lx' :
  ParseNewLine lx = Ok lx' -> no_Eof lx -> no_Eof lx'.
Proof.
  unfold ParseNewLine. intros H Hinv.
  repeat (case_match; simplify_eq; try assumption);
    (eapply ParseDent_no_Eof; [eassumption|]); keeps_no_Eof.
Qed.

Lemma bind_Ok {A B} (r : Result A) (k : A -> Result B) b :
  bind r k = Ok b -> exists a, r = Ok a /\ k a = Ok b.
Proof. destruct r; simpl; try discriminate. eauto. Qed.

Lemma iteration_no_Eof lx lx' :
  iteration lx = Ok lx' -> no_Eof lx -> no_Eof lx'.
Proof.
  unfold iteration. intros H Hinv.
  apply bind_Ok in H as (lx1 & H1 & H). apply bind_Ok in H as (lx2 & H2 & H).
  apply bind_Ok in H as (lx3 & H3 & H). apply bind_Ok in H as (lx4 & H4 & H).
  apply (ParseNewLine_no_Eof _ _ H).
  apply (ParseNumbers_no_Eof _ _ H4), (ParseChars_no_Eof _ _ H3),
    (ParseKeywords_no_Eof _ _ H2), (ParseString_no_Eof _ _ H1), Hinv.
Qed.

Lemma main_loop_no_Eof fuel : forall lx lx',
  main_loop fuel lx = Ok lx' -> no_Eof lx -> no_Eof lx'.
Proof.
  induction fuel as [|fuel IH]; intros lx lx' H Hinv; simpl in H;
    destruct (stream_ok (token_input_ lx)); simplify_eq; try assumption.
  apply bind_Ok in H as (lx1 & H1 & H).
  apply (IH _ _ H), (iteration_no_Eof _ _ H1), Hinv.
Qed.

(** ** The end of the token sequence *)

Lemma close_blocks_closed fuel : forall s toks cur d,
  (Z.to_nat d <= fuel)%nat ->
  close_blocks fuel (mkLexer s toks cur d) =
    mkLexer s (toks ++ repeat token_type.Dedent (Z.to_nat d)) cur
      (d - Z.of_nat (Z.to_nat d)).
Proof.
  induction fuel as [|fuel IH]; intros s toks cur d Hfuel; simpl.
  - replace (Z.to_nat d) with 0%nat by lia. simpl. rewrite app_nil_r.
    f_equal; lia.
  - destruct (0 <? d) eqn:Hd.
    + apply Z.ltb_lt in Hd. unfold emplace_back, set_dent; simpl.
      rewrite IH by lia.
      replace (Z.to_nat d) with (S (Z.to_nat (d - 1))) by lia.
      simpl repeat. rewrite <- app_assoc. simpl. f_equal; lia.
    + apply Z.ltb_ge in Hd. replace (Z.to_nat d) with 0%nat by lia.
      simpl. rewrite app_nil_r. f_equal; lia.
Qed.

Lemma finish_tokens lx :
  vct_tokens_ (finish lx) = vct_tokens_ lx ++ closing lx ++ [token_type.Eof].
Proof.
  destruct lx as [s toks cur d]. unfold finish, closing. simpl.
  destruct (back_is_not_Newline toks); unfold emplace_back; simpl;
    rewrite close_blocks_closed by lia; simpl;
    rewrite <- ?app_assoc; reflexivity.
Qed.

Lemma closing_no_Eof lx : Forall (fun tok => Is_Eof tok = false) (closing lx).
Proof.
  unfold closing. apply Forall_app. split.
  - destruct (back_is_not_Newline (vct_tokens_ lx)); repeat constructor.
  - induction (Z.to_nat (dent_ lx)); simpl; constructor; auto.
Qed.

(** C7. When the constructor returns, its token sequence is what the main
    loop has emitted, then a [Newline] if the last of these is not one,
    then a [Dedent] for every unit of indentation still open, then [Eof];
    and [Eof] occurs nowhere before that last place. *)
Theorem Lexer_new_ends fuel input lx :
  Lexer_new fuel input = Ok lx ->
  exists lx1,
    main_loop fuel (at_start input) = Ok lx1 /\
    vct_tokens_ lx =
      vct_tokens_ lx1
      ++ (if back_is_not_Newline (vct_tokens_ lx1) then [token_type.Newline] else [])
      ++ repeat token_type.Dedent (Z.to_nat (dent_ lx1))
      ++ [token_type.Eof] /\
    Forall (fun tok => Is_Eof tok = false) (removelast (vct_tokens_ lx)).
Proof.
  unfold Lexer_new, ParseTokens. intros H.
  apply bind_Ok in H as (lx1 & Hloop & H). injection H as <-.
  exists lx1. split; [exact Hloop|].
  assert (Hfin := finish_tokens lx1). unfold closing in Hfin.
  rewrite <- app_assoc in Hfin. split; [exact Hfin|].
  rewrite finish_tokens, app_assoc, removelast_last.
  apply Forall_app. split; [|apply closing_no_Eof].
  apply (main_loop_no_Eof _ _ _ Hloop). constructor.
Qed.

(** C7 on a source that leaves its block open: the lexer closes it. *)
Lemma Lexer_new_ends_witness :
  exists lx,
    Lexer_new 20 (list_ascii_of_string sample_open_block) = Ok lx /\
    vct_tokens_ lx =
      [token_type.If; token_type.Id "a"; token_type.Char ":"; token_type.Newline;
       token_type.Indent; token_type.Id "b"; token_type.Newline;
       token_type.Dedent; token_type.Eof] /\
    exists lx1,
      main_loop 20 (at_start (list_ascii_of_string sample_open_block)) = Ok lx1 /\
      vct_tokens_ lx =
        vct_tokens_ lx1
        ++ (if back_is_not_Newline (vct_tokens_ lx1) then [token_type.Newline] else [])
        ++ repeat token_type.Dedent (Z.to_nat (dent_ lx1))
        ++ [token_type.Eof] /\
      Forall (fun tok => Is_Eof tok = false) (removelast (vct_tokens_ lx)).
Proof.
  eexists. split; [vm_compute; reflexivity|]. split; [reflexivity|].
  apply (Lexer_new_ends 20 (list_ascii_of_string sample_open_block)).
  vm_compute; reflexivity.
Defined.

(** ** Fuel *)

(** What the main loop comes to does not depend on the fuel, once there is
    enough of it. *)
Lemma main_loop_more_fuel fuel : forall lx,
  main_loop fuel lx <> OutOfFuel -> main_loop (S fuel) lx = main_loop fuel lx.
Proof.
  induction fuel as [|fuel IH]; intros lx H.
  - simpl in *. destruct (stream_ok (token_input_ lx)); congruence.
  - change (main_loop (S (S fuel)) lx) with
      (if stream_ok (token_input_ lx)
       then bind (iteration lx) (main_loop (S fuel)) else Ok lx).
    change (main_loop (S fuel) lx) with
      (if stream_ok (token_input_ lx)
       then bind (iteration lx) (main_loop fuel) else Ok lx) in *.
    destruct (stream_ok (token_input_ lx)); [|reflexivity].
    destruct (iteration lx) as [lx1| | |]; simpl in *; try reflexivity.
    apply IH. assumption.
Qed.

(** ** Reading moves a stream forward *)

Lemma stream_le_refl s : stream_le s s.
Proof. split; reflexivity. Qed.

Lemma stream_le_trans s1 s2 s3 : stream_le s1 s2 -> stream_le s2 s3 -> stream_le s1 s3.
Proof. intros [A1 B1] [A2 B2]. split; [etrans; eassumption|lia]. Qed.

Lemma good_fresh s : good s = true -> s = fresh_stream (buf s).
Proof.
  destruct s as [b [|] [|]]; unfold good; simpl; try discriminate. reflexivity.
Qed.

Lemma peek_Some s c s1 :
  peek s = (Some c, s1) -> s1 = s /\ exists rest, s = fresh_stream (c :: rest).
Proof.
  unfold peek. destruct (good s) eqn:G; [|discriminate].
  rewrite (good_fresh s G). simpl. destruct (buf s) as [|c0 rest]; [discriminate|].
  intros [= -> <-]. split; [reflexivity|]. exists rest. reflexivity.
Qed.

Lemma peek_le s : stream_le (snd (peek s)) s.
Proof.
  unfold peek, stream_le, measure. destruct s as [b [|] [|]]; simpl;
    try (split; [reflexivity|lia]).
  destruct b; simpl; split; try reflexivity; lia.
Qed.

Lemma get_Some s c s1 :
  get s = (Some c, s1) -> s = fresh_stream (c :: buf s1) /\ s1 = fresh_stream (buf s1).
Proof.
  unfold get. destruct (good s) eqn:G; [|discriminate].
  rewrite (good_fresh s G). simpl. destruct (buf s) as [|c0 rest]; [discriminate|].
  intros [= -> <-]. split; reflexivity.
Qed.

Lemma get_le s : stream_le (snd (get s)) s.
Proof.
  unfold get, stream_le, measure. destruct s as [b [|] [|]]; simpl;
    try (split; [reflexivity|lia]).
  destruct b; simpl; split; try reflexivity; try lia.
  apply suffix_cons_r. reflexivity.
Qed.

(** Putting back the character just read undoes the read. *)
Lemma get_putback s c s1 : get s = (Some c, s1) -> putback c s1 = s.
Proof.
  intros H. destruct (get_Some s c s1 H) as [-> ->]. reflexivity.
Qed.

Lemma CheckEof_le s : stream_le (snd (CheckEof s)) s.
Proof.
  unfold CheckEof. pose proof (peek_le s) as H.
  destruct (peek s) as [[c|] s1]; exact H.
Qed.

Lemma CheckEof_false s s0 :
  CheckEof s = (false, s0) -> s0 = s /\ exists c rest, s = fresh_stream (c :: rest).
Proof.
  unfold CheckEof. destruct (peek s) as [[c|] s1] eqn:E; [|discriminate].
  intros [= <-]. destruct (peek_Some s c s1 E) as [-> [rest ->]]. eauto.
Qed.

Lemma TrimSpaces_loop_le fuel : forall s, stream_le (TrimSpaces_loop fuel s) s.
Proof.
  induction fuel as [|fuel IH]; intros s; simpl; [apply stream_le_refl|].
  pose proof (peek_le s) as Hp.
  destruct (peek s) as [[c|] s1] eqn:E; [|exact Hp].
  destruct (c =? SP)%char; [|exact Hp].
  eapply stream_le_trans; [apply IH|]. eapply stream_le_trans; [apply get_le|exact Hp].
Qed.

Lemma keyword_loop_le fuel : forall s keyword,
  stream_le (fst (keyword_loop fuel s keyword)) s.
Proof.
  induction fuel as [|fuel IH]; intros s keyword; simpl; [apply stream_le_refl|].
  pose proof (get_le s) as Hg.
  destruct (get s) as [[c|] s1] eqn:E; [|exact Hg].
  destruct (isalnum c || (c =? "_")%char).
  - eapply stream_le_trans; [apply IH|exact Hg].
  - simpl. rewrite (get_putback s c s1 E). apply stream_le_refl.
Qed.

Lemma number_loop_le fuel : forall s result,
  stream_le (fst (number_loop fuel s result)) s.
Proof.
  induction fuel as [|fuel IH]; intros s result; simpl; [apply stream_le_refl|].
  pose proof (get_le s) as Hg.
  destruct (get s) as [[c|] s1] eqn:E; [|exact Hg].
  destruct (isdigit c).
  - eapply stream_le_trans; [apply IH|exact Hg].
  - simpl. rewrite (get_putback s c s1 E). apply stream_le_refl.
Qed.

Lemma string_loop_le fuel : forall begin s result ch s' result' ch',
  string_loop fuel begin s result ch = Ok (s', result', ch') -> stream_le s' s.
Proof.
  induction fuel as [|fuel IH]; intros begin s result ch s' result' ch' H;
    simpl in H.
  - injection H as <- _ _. apply stream_le_refl.
  - pose proof (get_le s) as Hg.
    destruct (get s) as [[c|] s1] eqn:E; simpl in Hg.
    + destruct (c =? begin)%char; [injection H as <- _ _; exact Hg|].
      destruct (c =? "092")%char.
      * pose proof (get_le s1) as Hg1.
        destruct (get s1) as [[esc|] s2]; [|discriminate]. simpl in Hg1.
        destruct (escape esc); [|discriminate].
        eapply stream_le_trans; [eapply IH; eassumption|].
        eapply stream_le_trans; eassumption.
      * destruct ((c =? NL)%char || (c =? "013")%char); [discriminate|].
        eapply stream_le_trans; [eapply IH; eassumption|exact Hg].
    + injection H as <- _ _. exact Hg.
Qed.

(** The loops over the input have fuel to spare: one unit more changes
    nothing. *)
Lemma get_shorter s c s1 :
  get s = (Some c, s1) -> length (buf s) = S (length (buf s1)).
Proof. intros H. destruct (get_Some s c s1 H) as [-> _]. reflexivity. Qed.

Lemma TrimSpaces_loop_more_fuel fuel : forall s,
  (length (buf s) < fuel)%nat ->
  TrimSpaces_loop (S fuel) s = TrimSpaces_loop fuel s.
Proof.
  induction fuel as [|fuel IH]; intros s Hlen; [lia|].
  change (TrimSpaces_loop (S (S fuel)) s) with
    (match peek s with
     | (Some c, s1) =>
         if (c =? SP)%char then TrimSpaces_loop (S fuel) (snd (get s1)) else s1
     | (Datatypes.None, s1) => s1
     end).
  change (TrimSpaces_loop (S fuel) s) with
    (match peek s with
     | (Some c, s1) =>
         if (c =? SP)%char then TrimSpaces_loop fuel (snd (get s1)) else s1
     | (Datatypes.None, s1) => s1
     end).
  destruct (peek s) as [[c|] s1] eqn:E; [|reflexivity].
  destruct (c =? SP)%char; [|reflexivity].
  destruct (peek_Some s c s1 E) as [-> (rest & ->)]. simpl in *.
  apply IH. simpl. lia.
Qed.

Lemma keyword_loop_more_fuel fuel : forall s keyword,
  (length (buf s) < fuel)%nat ->
  keyword_loop (S fuel) s keyword = keyword_loop fuel s keyword.
Proof.
  induction fuel as [|fuel IH]; intros s keyword Hlen; [lia|].
  change (keyword_loop (S (S fuel)) s keyword) with
    (match get s with
     | (Some c, s1) =>
         if isalnum c || (c =? "_")%char
         then keyword_loop (S fuel) s1 (keyword ++ [c])
         else (putback c s1, keyword)
     | (Datatypes.None, s1) => (s1, keyword)
     end).
  change (keyword_loop (S fuel) s keyword) with
    (match get s with
     | (Some c, s1) =>
         if isalnum c || (c =? "_")%char
         then keyword_loop fuel s1 (keyword ++ [c])
         else (putback c s1, keyword)
     | (Datatypes.None, s1) => (s1, keyword)
     end).
  destruct (get s) as [[c|] s1] eqn:E; [|reflexivity].
  destruct (isalnum c || (c =? "_")%char); [|reflexivity].
  apply IH. rewrite (get_shorter s c s1 E) in Hlen. lia.
Qed.

Lemma number_loop_more_fuel fuel : forall s result,
  (length (buf s) < fuel)%nat ->
  number_loop (S fuel) s result = number_loop fuel s result.
Proof.
  induction fuel as [|fuel IH]; intros s result Hlen; [lia|].
  change (number_loop (S (S fuel)) s result) with
    (match get s with
     | (Some c, s1) =>
         if isdigit c then number_loop (S fuel) s1 (result ++ [c])
         else (putback c s1, result)
     | (Datatypes.None, s1) => (s1, result)
     end).
  change (number_loop (S fuel) s result) with
    (match get s with
     | (Some c, s1) =>
         if isdigit c then number_loop fuel s1 (result ++ [c])
         else (putback c s1, result)
     | (Datatypes.None, s1) => (s1, result)
     end).
  destruct (get s) as [[c|] s1] eqn:E; [|reflexivity].
  destruct (isdigit c); [|reflexivity].
  apply IH. rewrite (get_shorter s c s1 E) in Hlen. lia.
Qed.

Lemma string_loop_more_fuel fuel : forall begin s result ch,
  (length (buf s) < fuel)%nat ->
  string_loop (S fuel) begin s result ch = string_loop fuel begin s result ch.
Proof.
  induction fuel as [|fuel IH]; intros begin s result ch Hlen; [lia|].
  set (step := fun (loop : ascii -> istream -> list ascii -> option ascii ->
                           Result (istream * list ascii * option ascii)) =>
    match get s with
    | (Datatypes.None, s1) => Ok (s1, result, ch)
    | (Some c, s1) =>
        if (c =? begin)%char then Ok (s1, result, Some c)
        else if (c =? "092")%char then
          match get s1 with
          | (Some esc_ch, s2) =>
              match escape esc_ch with
              | Some e => loop begin s2 (result ++ [e]) (Some c)
              | Datatypes.None =>
                  Throw (LexerError "ParseString is failed at 204")
              end
          | (Datatypes.None, _) =>
              Throw (LexerError "ParseString is failed at 208")
          end
        else if (c =? NL)%char || (c =? "013")%char then
          Throw (LexerError "ParseString is failed at 212")
        else loop begin s1 (result ++ [c]) (Some c)
    end).
  change (string_loop (S (S fuel)) begin s result ch)
    with (step (string_loop (S fuel))).
  change (string_loop (S fuel) begin s result ch) with (step (string_loop fuel)).
  unfold step. clear step.
  destruct (get s) as [[c|] s1] eqn:E; [|reflexivity].
  pose proof (get_shorter s c s1 E) as Hs.
  destruct (c =? begin)%char; [reflexivity|].
  destruct (c =? "092")%char.
  - destruct (get s1) as [[esc|] s2] eqn:E1; [|reflexivity].
    pose proof (get_shorter s1 esc s2 E1) as Hs1.
    destruct (escape esc); [|reflexivity]. apply IH. lia.
  - destruct ((c =? NL)%char || (c =? "013")%char); [reflexivity|].
    apply IH. lia.
Qed.

(** A buffer is a run of spaces and then nothing or something that is not a
    space. *)
Lemma span_spaces (b : list ascii) :
  exists n tail, b = repeat SP n ++ tail /\
                 match tail with [] => True | c :: _ => c <> SP end.
Proof.
  induction b as [|c b (n & tail & -> & Htail)].
  - exists 0%nat, []. split; [reflexivity|exact I].
  - destruct (Ascii.eqb_spec c SP) as [->|Hc].
    + exists (S n), tail. split; [reflexivity|exact Htail].
    + exists 0%nat, (c :: repeat SP n ++ tail). split; [reflexivity|exact Hc].
Qed.

Lemma adjust_dent_input n lx : token_input_ (adjust_dent n lx) = token_input_ lx.
Proof.
  destruct lx as [s toks cur d]. rewrite adjust_dent_closed.
  destruct (d * 2 <? n); reflexivity.
Qed.

Lemma ParseDent_le lx lx' :
  ParseDent lx = Ok lx' -> stream_le (token_input_ lx') (token_input_ lx).
Proof.
  destruct lx as [s toks cur d]. simpl.
  destruct (CheckEof s) as [[|] s0] eqn:E.
  - unfold ParseDent. simpl. rewrite E. intros [= <-]. simpl.
    pose proof (CheckEof_le s) as H. rewrite E in H. exact H.
  - destruct (CheckEof_false s s0 E) as [-> (c & rest & ->)]. clear E.
    destruct (span_spaces (c :: rest)) as (n & tail & Hb & Htail). rewrite Hb.
    destruct tail as [|c' r].
    + rewrite app_nil_r in *. destruct n as [|n]; [discriminate|].
      rewrite ParseDent_trailing_spaces. intros [= <-].
      rewrite adjust_dent_input. simpl. split; [apply suffix_nil|].
      unfold measure; simpl. lia.
    + destruct (Ascii.eqb_spec c' NL) as [->|Hnl].
      * rewrite ParseDent_blank. intros [= <-]. simpl. split.
        -- apply suffix_app_r. reflexivity.
        -- unfold measure; simpl. rewrite length_app. simpl. lia.
      * rewrite ParseDent_line by assumption. intros [= <-].
        rewrite adjust_dent_input. simpl. split.
        -- apply suffix_app_r. reflexivity.
        -- unfold measure; simpl. rewrite length_app. simpl. lia.
Qed.

Lemma ParseString_le lx lx' :
  ParseString lx = Ok lx' -> stream_le (token_input_ lx') (token_input_ lx).
Proof.
  unfold ParseString. destruct (CheckEof (token_input_ lx)) as [[|] s0] eqn:E.
  - intros [= <-]. simpl.
    pose proof (CheckEof_le (token_input_ lx)) as H. rewrite E in H. exact H.
  - destruct (CheckEof_false _ _ E) as [-> (c & rest & Hs)]. rewrite Hs.
    change (get (fresh_stream (c :: rest))) with (Some c, fresh_stream rest).
    cbv beta iota.
    destruct ((c =? "039")%char || (c =? "034")%char).
    + intros H. apply bind_Ok in H as ([[s2 result] ch] & Hloop & H).
      destruct ch as [c1|]; [|discriminate].
      destruct (c =? c1)%char; [|discriminate]. injection H as <-. simpl.
      eapply stream_le_trans; [eapply string_loop_le; eassumption|].
      pose proof (get_le (fresh_stream (c :: rest))) as Hg. exact Hg.
    + intros [= <-]. apply stream_le_refl.
Qed.

Lemma ParseKeywords_le lx lx' :
  ParseKeywords lx = Ok lx' -> stream_le (token_input_ lx') (token_input_ lx).
Proof.
  unfold ParseKeywords. destruct (CheckEof (token_input_ lx)) as [[|] s0] eqn:E.
  - intros [= <-]. simpl.
    pose proof (CheckEof_le (token_input_ lx)) as H. rewrite E in H. exact H.
  - destruct (CheckEof_false _ _ E) as [-> (c & rest & Hs)]. rewrite Hs.
    change (peek (fresh_stream (c :: rest)))
      with (Some c, fresh_stream (c :: rest)).
    cbv beta iota.
    destruct (isalpha c || (c =? "_")%char).
    + pose proof (keyword_loop_le (enough (fresh_stream (c :: rest)))
                    (fresh_stream (c :: rest)) []) as H.
      destruct (keyword_loop _ _ _) as [s2 keyword]. intros [= <-]. exact H.
    + intros [= <-]. apply stream_le_refl.
Qed.

Lemma split_line_spec l :
  match split_line l with
  | (line, Some after) => l = line ++ NL :: after
  | (line, None) => l = line
  end.
Proof.
  induction l as [|c l IH]; simpl; [reflexivity|].
  destruct (Ascii.eqb_spec c NL) as [->|Hc]; [reflexivity|].
  destruct (split_line l) as [line [after|]]; simpl; congruence.
Qed.

Lemma ParseComments_le s : stream_le (ParseComments s) s.
Proof.
  unfold ParseComments. pose proof (peek_le s) as Hp.
  destruct (peek s) as [[c|] s1] eqn:E; [|exact Hp].
  destruct (c =? "#")%char; [|exact Hp].
  destruct (peek_Some s c s1 E) as [-> (rest & ->)].
  unfold getline. simpl good. cbv iota. simpl buf.
  pose proof (split_line_spec (c :: rest)) as Hl.
  destruct (split_line (c :: rest)) as [line [after|]].
  - simpl. unfold putback; simpl. rewrite Hl. split; simpl.
    + apply suffix_app_r. reflexivity.
    + unfold measure; simpl. rewrite length_app. simpl. lia.
  - destruct line as [|c0 line]; [discriminate|]. simpl. split; simpl.
    + apply suffix_nil.
    + unfold measure; simpl. lia.
Qed.

Lemma followed_by_eq_le first ch s : stream_le (snd (followed_by_eq first ch s)) s.
Proof.
  unfold followed_by_eq. destruct (ch =? first)%char; [|apply stream_le_refl].
  pose proof (peek_le s) as Hp. destruct (peek s) as [[c|] s1]; exact Hp.
Qed.

Lemma ParseChars_le lx lx' :
  ParseChars lx = Ok lx' -> stream_le (token_input_ lx') (token_input_ lx).
Proof.
  unfold ParseChars. destruct (CheckEof (token_input_ lx)) as [[|] s0] eqn:E.
  - intros [= <-]. simpl.
    pose proof (CheckEof_le (token_input_ lx)) as H. rewrite E in H. exact H.
  - destruct (CheckEof_false _ _ E) as [-> (c & rest & Hs)]. rewrite Hs.
    change (get (fresh_stream (c :: rest))) with (Some c, fresh_stream rest).
    cbv beta iota.
    assert (Hrest : stream_le (fresh_stream rest) (fresh_stream (c :: rest))).
    { split; simpl; [apply suffix_cons_r; reflexivity|unfold measure; simpl; lia]. }
    destruct (ispunct c); [|intros [= <-]; apply stream_le_refl].
    destruct (c =? "#")%char.
    { intros [= <-]. apply ParseComments_le. }
    pose proof (followed_by_eq_le "=" c (fresh_stream rest)) as H2.
    destruct (followed_by_eq "=" c (fresh_stream rest)) as [b2 s2]. simpl in H2.
    pose proof (followed_by_eq_le "!" c s2) as H3.
    destruct (followed_by_eq "!" c s2) as [b3 s3]. simpl in H3.
    pose proof (followed_by_eq_le ">" c s3) as H4.
    destruct (followed_by_eq ">" c s3) as [b4 s4]. simpl in H4.
    pose proof (followed_by_eq_le "<" c s4) as H5.
    destruct (followed_by_eq "<" c s4) as [b5 s5]. simpl in H5.
    pose proof (stream_le_trans _ _ _ H2 Hrest) as L2.
    pose proof (stream_le_trans _ _ _ H3 L2) as L3.
    pose proof (stream_le_trans _ _ _ H4 L3) as L4.
    pose proof (stream_le_trans _ _ _ H5 L4) as L5.
    destruct b2; [|destruct b3; [|destruct b4; [|destruct b5]]];
      intros [= <-]; simpl.
    + exact (stream_le_trans _ _ _ (get_le s2) L2).
    + exact (stream_le_trans _ _ _ (get_le s3) L3).
    + exact (stream_le_trans _ _ _ (get_le s4) L4).
    + exact (stream_le_trans _ _ _ (get_le s5) L5).
    + exact L5.
Qed.

Lemma ParseNumbers_le lx lx' :
  ParseNumbers lx = Ok lx' -> stream_le (token_input_ lx') (token_input_ lx).
Proof.
  unfold ParseNumbers. destruct (CheckEof (token_input_ lx)) as [[|] s0] eqn:E.
  - intros [= <-]. simpl.
    pose proof (CheckEof_le (token_input_ lx)) as H. rewrite E in H. exact H.
  - destruct (CheckEof_false _ _ E) as [-> (c & rest & Hs)]. rewrite Hs.
    change (peek (fresh_stream (c :: rest)))
      with (Some c, fresh_stream (c :: rest)).
    cbv beta iota.
    destruct (isdigit c).
    + pose proof (number_loop_le (enough (fresh_stream (c :: rest)))
                    (fresh_stream (c :: rest)) []) as H.
      destruct (number_loop _ _ _) as [s2 result]. intros H'.
      apply bind_Ok in H' as (num & _ & [= <-]). exact H.
    + intros [= <-]. apply stream_le_refl.
Qed.

Lemma ParseNewLine_le lx lx' :
  ParseNewLine lx = Ok lx' -> stream_le (token_input_ lx') (token_input_ lx).
Proof.
  unfold ParseNewLine. pose proof (peek_le (token_input_ lx)) as Hp.
  destruct (peek (token_input_ lx)) as [[c|] s0] eqn:E;
    [|intros [= <-]; exact Hp].
  destruct (c =? NL)%char; [|intros [= <-]; exact Hp].
  intros H. apply ParseDent_le in H.
  eapply stream_le_trans; [exact H|].
  destruct (back_is_not_Newline _); simpl;
    (eapply stream_le_trans; [apply get_le|exact Hp]).
Qed.

(** ** Every turn of the main loop reads something *)

Lemma fresh_rest_le c rest : stream_le (fresh_stream rest) (fresh_stream (c :: rest)).
Proof.
  split; simpl; [apply suffix_cons_r; reflexivity|unfold measure; simpl; lia].
Qed.

(** A quote: [ParseString] takes it and more. *)
Lemma ParseString_consumes c rest toks cur d lx' :
  (c =? "039")%char || (c =? "034")%char = true ->
  ParseString (mkLexer (fresh_stream (c :: rest)) toks cur d) = Ok lx' ->
  stream_le (token_input_ lx') (fresh_stream rest).
Proof.
  intros Q. unfold ParseString. simpl token_input_. rewrite CheckEof_more.
  change (get (fresh_stream (c :: rest))) with (Some c, fresh_stream rest).
  cbv beta iota. rewrite Q. intros H.
  apply bind_Ok in H as ([[s2 result] ch] & Hloop & H).
  destruct ch as [c1|]; [|discriminate].
  destruct (c =? c1)%char; [|discriminate]. injection H as <-. simpl.
  eapply string_loop_le; eassumption.
Qed.

(** Anything else: [ParseString] looks at it and puts it back. *)
Lemma ParseString_skip c rest toks cur d :
  (c =? "039")%char || (c =? "034")%char = false ->
  ParseString (mkLexer (fresh_stream (c :: rest)) toks cur d) =
    Ok (mkLexer (fresh_stream (c :: rest)) toks cur d).
Proof.
  intros Q. unfold ParseString. simpl token_input_. rewrite CheckEof_more.
  change (get (fresh_stream (c :: rest))) with (Some c, fresh_stream rest).
  cbv beta iota. rewrite Q. reflexivity.
Qed.

Lemma keyword_loop_step fuel c rest keyword :
  keyword_loop (S fuel) (fresh_stream (c :: rest)) keyword =
    if isalnum c || (c =? "_")%char
    then keyword_loop fuel (fresh_stream rest) (keyword ++ [c])
    else (fresh_stream (c :: rest), keyword).
Proof. reflexivity. Qed.

Lemma ParseKeywords_consumes c rest toks cur d lx' :
  isalpha c || (c =? "_")%char = true ->
  ParseKeywords (mkLexer (fresh_stream (c :: rest)) toks cur d) = Ok lx' ->
  stream_le (token_input_ lx') (fresh_stream rest).
Proof.
  intros A. unfold ParseKeywords. simpl token_input_. rewrite CheckEof_more.
  change (peek (fresh_stream (c :: rest))) with (Some c, fresh_stream (c :: rest)).
  cbv beta iota. rewrite A. unfold enough. rewrite keyword_loop_step.
  assert (isalnum c || (c =? "_")%char = true) as ->.
  { unfold isalnum. destruct (isalpha c); [reflexivity|]. simpl in *.
    rewrite A. apply orb_true_r. }
  pose proof (keyword_loop_le (length (buf (fresh_stream (c :: rest))))
                (fresh_stream rest) ([] ++ [c])) as H.
  destruct (keyword_loop _ _ _) as [s2 keyword].
  intros [= <-]. exact H.
Qed.

Lemma ParseKeywords_skip c rest toks cur d :
  isalpha c || (c =? "_")%char = false ->
  ParseKeywords (mkLexer (fresh_stream (c :: rest)) toks cur d) =
    Ok (mkLexer (fresh_stream (c :: rest)) toks cur d).
Proof.
  intros A. unfold ParseKeywords. simpl token_input_. rewrite CheckEof_more.
  change (peek (fresh_stream (c :: rest))) with (Some c, fresh_stream (c :: rest)).
  cbv beta iota. rewrite A. reflexivity.
Qed.

Lemma ParseComments_consumes rest :
  stream_le (ParseComments (fresh_stream ("#"%char :: rest))) (fresh_stream rest).
Proof.
  unfold ParseComments.
  change (peek (fresh_stream ("#"%char :: rest)))
    with (Some "#"%char, fresh_stream ("#"%char :: rest)).
  cbv beta iota. change ("#" =? "#")%char with true. cbv iota.
  unfold getline. simpl good. cbv iota. simpl buf. simpl split_line.
  pose proof (split_line_spec rest) as Hl.
  destruct (split_line rest) as [line [after|]]; simpl.
  - unfold putback; simpl. rewrite Hl. split; simpl.
    + apply suffix_app_r. reflexivity.
    + unfold measure; simpl. rewrite length_app. simpl. lia.
  - split; simpl; [apply suffix_nil|unfold measure; simpl; lia].
Qed.

Lemma ParseChars_consumes c rest toks cur d lx' :
  ispunct c = true ->
  ParseChars (mkLexer (fresh_stream (c :: rest)) toks cur d) = Ok lx' ->
  stream_le (token_input_ lx') (fresh_stream rest).
Proof.
  intros P. unfold ParseChars. simpl token_input_. rewrite CheckEof_more.
  change (get (fresh_stream (c :: rest))) with (Some c, fresh_stream rest).
  cbv beta iota. rewrite P.
  destruct (Ascii.eqb_spec c "#") as [->|Hc].
  { intros [= <-]. apply ParseComments_consumes. }
  pose proof (followed_by_eq_le "=" c (fresh_stream rest)) as L2.
  destruct (followed_by_eq "=" c (fresh_stream rest)) as [b2 s2]. simpl in L2.
  pose proof (followed_by_eq_le "!" c s2) as H3.
  destruct (followed_by_eq "!" c s2) as [b3 s3]. simpl in H3.
  pose proof (followed_by_eq_le ">" c s3) as H4.
  destruct (followed_by_eq ">" c s3) as [b4 s4]. simpl in H4.
  pose proof (followed_by_eq_le "<" c s4) as H5.
  destruct (followed_by_eq "<" c s4) as [b5 s5]. simpl in H5.
  pose proof (stream_le_trans _ _ _ H3 L2) as L3.
  pose proof (stream_le_trans _ _ _ H4 L3) as L4.
  pose proof (stream_le_trans _ _ _ H5 L4) as L5.
  destruct b2; [|destruct b3; [|destruct b4; [|destruct b5]]];
    intros [= <-]; simpl.
  + exact (stream_le_trans _ _ _ (get_le s2) L2).
  + exact (stream_le_trans _ _ _ (get_le s3) L3).
  + exact (stream_le_trans _ _ _ (get_le s4) L4).
  + exact (stream_le_trans _ _ _ (get_le s5) L5).
  + exact L5.
Qed.

Lemma ParseChars_skip c rest toks cur d :
  ispunct c = false ->
  ParseChars (mkLexer (fresh_stream (c :: rest)) toks cur d) =
    Ok (mkLexer (fresh_stream (c :: rest)) toks cur d).
Proof.
  intros P. unfold ParseChars. simpl token_input_. rewrite CheckEof_more.
  change (get (fresh_stream (c :: rest))) with (Some c, fresh_stream rest).
  cbv beta iota. rewrite P. reflexivity.
Qed.

Lemma number_loop_step fuel c rest result :
  number_loop (S fuel) (fresh_stream (c :: rest)) result =
    if isdigit c
    then number_loop fuel (fresh_stream rest) (result ++ [c])
    else (fresh_stream (c :: rest), result).
Proof. reflexivity. Qed.

Lemma ParseNumbers_consumes c rest toks cur d lx' :
  isdigit c = true ->
  ParseNumbers (mkLexer (fresh_stream (c :: rest)) toks cur d) = Ok lx' ->
  stream_le (token_input_ lx') (fresh_stream rest).
Proof.
  intros D. unfold ParseNumbers. simpl token_input_. rewrite CheckEof_more.
  change (peek (fresh_stream (c :: rest))) with (Some c, fresh_stream (c :: rest)).
  cbv beta iota. rewrite D. unfold enough. rewrite number_loop_step, D.
  pose proof (number_loop_le (length (buf (fresh_stream (c :: rest))))
                (fresh_stream rest) ([] ++ [c])) as H.
  destruct (number_loop _ _ _) as [s2 result].
  intros H'. apply bind_Ok in H' as (num & _ & [= <-]). exact H.
Qed.

Lemma ParseNumbers_skip c rest toks cur d :
  isdigit c = false ->
  ParseNumbers (mkLexer (fresh_stream (c :: rest)) toks cur d) =
    Ok (mkLexer (fresh_stream (c :: rest)) toks cur d).
Proof.
  intros D. unfold ParseNumbers. simpl token_input_. rewrite CheckEof_more.
  change (peek (fresh_stream (c :: rest))) with (Some c, fresh_stream (c :: rest)).
  cbv beta iota. rewrite D. reflexivity.
Qed.

Lemma TrimSpaces_le s : stream_le (TrimSpaces s) s.
Proof. apply TrimSpaces_loop_le. Qed.

Lemma TrimSpaces_loop_step fuel c rest :
  TrimSpaces_loop (S fuel) (fresh_stream (c :: rest)) =
    if (c =? SP)%char then TrimSpaces_loop fuel (fresh_stream rest)
    else fresh_stream (c :: rest).
Proof. reflexivity. Qed.

Lemma TrimSpaces_consumes rest :
  stream_le (TrimSpaces (fresh_stream (SP :: rest))) (fresh_stream rest).
Proof.
  unfold TrimSpaces, enough. rewrite TrimSpaces_loop_step.
  apply TrimSpaces_loop_le.
Qed.

Lemma TrimSpaces_skip c rest :
  c <> SP -> TrimSpaces (fresh_stream (c :: rest)) = fresh_stream (c :: rest).
Proof.
  intros Hc. apply Ascii.eqb_neq in Hc. unfold TrimSpaces, enough.
  rewrite TrimSpaces_loop_step, Hc. reflexivity.
Qed.

Lemma lexable_cases c :
  lexable c = true ->
  (c =? "039")%char || (c =? "034")%char = false ->
  isalpha c || (c =? "_")%char = false ->
  ispunct c = false -> isdigit c = false -> c <> SP -> c = NL.
Proof.
  unfold lexable. intros L _ A P D Hsp.
  apply orb_false_iff in A as [A _]. rewrite A, P, D in L.
  apply Ascii.eqb_neq in Hsp. rewrite Hsp in L. simpl in L.
  rewrite !orb_false_r in L. apply Ascii.eqb_eq. exact L.
Qed.

(** A turn of the main loop on a good stream that starts with a character
    some parser takes: that character at least is read. *)
Lemma iteration_consumes c rest toks cur d lx' :
  lexable c = true ->
  iteration (mkLexer (fresh_stream (c :: rest)) toks cur d) = Ok lx' ->
  stream_le (token_input_ lx') (fresh_stream rest).
Proof.
  intros L H. unfold iteration in H.
  apply bind_Ok in H as (lx1 & H1 & H). apply bind_Ok in H as (lx2 & H2 & H).
  apply bind_Ok in H as (lx3 & H3 & H). apply bind_Ok in H as (lx4 & H4 & H5).
  assert (L5 : stream_le (token_input_ lx') (token_input_ lx4)).
  { eapply stream_le_trans; [apply (ParseNewLine_le _ _ H5)|]. apply TrimSpaces_le. }
  pose proof (stream_le_trans _ _ _ L5 (ParseNumbers_le _ _ H4)) as L4.
  pose proof (stream_le_trans _ _ _ L4 (ParseChars_le _ _ H3)) as L3.
  pose proof (stream_le_trans _ _ _ L3 (ParseKeywords_le _ _ H2)) as L2.
  destruct ((c =? "039")%char || (c =? "034")%char) eqn:Q.
  { eapply stream_le_trans; [exact L2|]. eapply ParseString_consumes; eassumption. }
  rewrite ParseString_skip in H1 by assumption. injection H1 as <-.
  destruct (isalpha c || (c =? "_")%char) eqn:A.
  { eapply stream_le_trans; [exact L3|]. eapply ParseKeywords_consumes; eassumption. }
  rewrite ParseKeywords_skip in H2 by assumption. injection H2 as <-.
  destruct (ispunct c) eqn:P.
  { eapply stream_le_trans; [exact L4|]. eapply ParseChars_consumes; eassumption. }
  rewrite ParseChars_skip in H3 by assumption. injection H3 as <-.
  destruct (isdigit c) eqn:D.
  { eapply stream_le_trans; [exact L5|]. eapply ParseNumbers_consumes; eassumption. }
  rewrite ParseNumbers_skip in H4 by assumption. injection H4 as <-.
  simpl token_input_ in H5. unfold set_input in H5. simpl in H5.
  destruct (Ascii.eqb_spec c SP) as [->|Hsp].
  { eapply stream_le_trans; [apply (ParseNewLine_le _ _ H5)|].
    apply TrimSpaces_consumes. }
  rewrite TrimSpaces_skip in H5 by assumption.
  rewrite (lexable_cases c L Q A P D Hsp) in H5.
  rewrite ParseNewLine_at_NL in H5. apply (ParseDent_le _ _ H5).
Qed.

Lemma iteration_le lx lx' :
  iteration lx = Ok lx' -> stream_le (token_input_ lx') (token_input_ lx).
Proof.
  intros H. unfold iteration in H.
  apply bind_Ok in H as (lx1 & H1 & H). apply bind_Ok in H as (lx2 & H2 & H).
  apply bind_Ok in H as (lx3 & H3 & H). apply bind_Ok in H as (lx4 & H4 & H5).
  eapply stream_le_trans; [apply (ParseNewLine_le _ _ H5)|].
  eapply stream_le_trans; [apply TrimSpaces_le|]. simpl.
  eapply stream_le_trans; [apply (ParseNumbers_le _ _ H4)|].
  eapply stream_le_trans; [apply (ParseChars_le _ _ H3)|].
  eapply stream_le_trans; [apply (ParseKeywords_le _ _ H2)|].
  apply (ParseString_le _ _ H1).
Qed.

(** With nothing left to read the first look moves the stream towards
    failure: it sets [eofbit] on a good stream and [failbit] on one that has
    met the end already. *)
Lemma ParseString_no_input lx lx1 :
  stream_ok (token_input_ lx) = true ->
  good (token_input_ lx) = false \/ buf (token_input_ lx) = [] ->
  ParseString lx = Ok lx1 ->
  (measure (token_input_ lx1) < measure (token_input_ lx))%nat.
Proof.
  destruct lx as [[b e f] toks cur d]. unfold stream_ok, good. simpl.
  intros Hok Hend. destruct f; [discriminate|].
  unfold ParseString, CheckEof, peek, good, measure. simpl.
  destruct e; simpl.
  - intros [= <-]. simpl. lia.
  - destruct Hend as [?| ->]; [discriminate|]. intros [= <-]. simpl. lia.
Qed.

Lemma iteration_progress lx lx' :
  stream_ok (token_input_ lx) = true ->
  Forall (fun c => lexable c = true) (buf (token_input_ lx)) ->
  iteration lx = Ok lx' ->
  (measure (token_input_ lx') < measure (token_input_ lx))%nat.
Proof.
  intros Hok Hlex H.
  destruct (good (token_input_ lx)) eqn:G;
    [destruct (buf (token_input_ lx)) as [|c rest] eqn:B|].
  - unfold iteration in H. apply bind_Ok in H as (lx1 & H1 & H).
    pose proof (ParseString_no_input lx lx1 Hok (or_intror B) H1) as Hlt.
    assert (Hle : stream_le (token_input_ lx') (token_input_ lx1)).
    { apply bind_Ok in H as (lx2 & H2 & H). apply bind_Ok in H as (lx3 & H3 & H).
      apply bind_Ok in H as (lx4 & H4 & H5).
      eapply stream_le_trans; [apply (ParseNewLine_le _ _ H5)|].
      eapply stream_le_trans; [apply TrimSpaces_le|]. simpl.
      eapply stream_le_trans; [apply (ParseNumbers_le _ _ H4)|].
      eapply stream_le_trans; [apply (ParseChars_le _ _ H3)|].
      apply (ParseKeywords_le _ _ H2). }
    destruct Hle as [_ Hle]. lia.
  - destruct lx as [s toks cur d]. simpl in *.
    rewrite (good_fresh s G), B in H |- *.
    apply Forall_inv in Hlex.
    destruct (iteration_consumes c rest toks cur d lx' Hlex H) as [_ Hle].
    unfold measure in *. simpl in *. lia.
  - unfold iteration in H. apply bind_Ok in H as (lx1 & H1 & H).
    pose proof (ParseString_no_input lx lx1 Hok (or_introl G) H1) as Hlt.
    assert (Hle : stream_le (token_input_ lx') (token_input_ lx1)).
    { apply bind_Ok in H as (lx2 & H2 & H). apply bind_Ok in H as (lx3 & H3 & H).
      apply bind_Ok in H as (lx4 & H4 & H5).
      eapply stream_le_trans; [apply (ParseNewLine_le _ _ H5)|].
      eapply stream_le_trans; [apply TrimSpaces_le|]. simpl.
      eapply stream_le_trans; [apply (ParseNumbers_le _ _ H4)|].
      eapply stream_le_trans; [apply (ParseChars_le _ _ H3)|].
      apply (ParseKeywords_le _ _ H2). }
    destruct Hle as [_ Hle]. lia.
Qed.

(** ** The main loop ends *)

Lemma string_loop_returns fuel : forall begin s result ch,
  string_loop fuel begin s result ch <> OutOfFuel.
Proof.
  induction fuel as [|fuel IH]; intros begin s result ch; simpl; [discriminate|].
  repeat case_match; try discriminate; apply IH.
Qed.

Lemma ParseString_returns lx : ParseString lx <> OutOfFuel.
Proof.
  unfold ParseString. destruct (CheckEof _) as [[|] s0]; [discriminate|].
  destruct (get s0) as [c s1].
  destruct (_ || _); [|discriminate].
  match goal with
  | |- bind (string_loop ?f ?b ?s ?r ?ch) _ <> _ =>
      pose proof (string_loop_returns f b s r ch) as Hloop;
      destruct (string_loop f b s r ch) as [[[s2 res] [c1|]]| | |]
  end; simpl; try congruence.
  destruct (_ =? c1)%char; discriminate.
Qed.

Lemma ParseKeywords_returns lx : ParseKeywords lx <> OutOfFuel.
Proof. unfold ParseKeywords. repeat case_match; discriminate. Qed.

Lemma ParseChars_returns lx : ParseChars lx <> OutOfFuel.
Proof. unfold ParseChars. repeat case_match; discriminate. Qed.

Lemma ParseNumbers_returns lx : ParseNumbers lx <> OutOfFuel.
Proof.
  unfold ParseNumbers, stoi, bind. repeat case_match; discriminate.
Qed.

Lemma ParseDent_returns lx : ParseDent lx <> OutOfFuel.
Proof. unfold ParseDent. repeat case_match; discriminate. Qed.

Lemma ParseNewLine_returns lx : ParseNewLine lx <> OutOfFuel.
Proof.
  unfold ParseNewLine. repeat case_match; try discriminate; apply ParseDent_returns.
Qed.

Lemma iteration_returns lx : iteration lx <> OutOfFuel.
Proof.
  unfold iteration.
  pose proof (ParseString_returns lx).
  destruct (ParseString lx) as [lx1| | |]; simpl; try congruence.
  pose proof (ParseKeywords_returns lx1).
  destruct (ParseKeywords lx1) as [lx2| | |]; simpl; try congruence.
  pose proof (ParseChars_returns lx2).
  destruct (ParseChars lx2) as [lx3| | |]; simpl; try congruence.
  pose proof (ParseNumbers_returns lx3).
  destruct (ParseNumbers lx3) as [lx4| | |]; simpl; try congruence.
  apply ParseNewLine_returns.
Qed.

Lemma Forall_suffix_of {A} (P : A -> Prop) (l1 l2 : list A) :
  l1 `suffix_of` l2 -> Forall P l2 -> Forall P l1.
Proof. intros [k ->] H. apply Forall_app in H as [_ H]. exact H. Qed.

(** On an input of characters the parsers take, the main loop is over
    after at most two turns and one for every character: it has returned or
    thrown. *)
Lemma main_loop_terminates fuel : forall lx,
  Forall (fun c => lexable c = true) (buf (token_input_ lx)) ->
  (measure (token_input_ lx) <= fuel)%nat ->
  main_loop fuel lx <> OutOfFuel.
Proof.
  induction fuel as [|fuel IH]; intros lx Hlex Hfuel.
  - simpl. destruct (stream_ok (token_input_ lx)) eqn:Hok; [|discriminate].
    exfalso. unfold stream_ok, measure in *.
    destruct (failbit (token_input_ lx)); [discriminate|].
    destruct (eofbit (token_input_ lx)); simpl in Hfuel; lia.
  - simpl. destruct (stream_ok (token_input_ lx)) eqn:Hok; [|discriminate].
    pose proof (iteration_returns lx) as Hret.
    destruct (iteration lx) as [lx1| | |] eqn:Hit; simpl; try congruence.
    apply IH.
    + eapply Forall_suffix_of; [|exact Hlex]. apply (iteration_le _ _ Hit).
    + pose proof (iteration_progress lx lx1 Hok Hlex Hit). lia.
Qed.

(** X7. The constructor comes to an end on every input made of characters
    the parsers take (letters, digits, spaces, line feeds, punctuation): with
    two turns of the main loop and one more for every character it has
    stopped: it has returned a lexer, thrown, or met the one undefined
    comparison of [ParseString]. *)
Theorem Lexer_new_terminates input :
  Forall (fun c => lexable c = true) input ->
  Lexer_new (2 + length input) input <> OutOfFuel.
Proof.
  intros Hlex. unfold Lexer_new, ParseTokens.
  pose proof (TrimSpaces_le (fresh_stream input)) as [Hsuf Hm].
  pose proof (main_loop_terminates (2 + length input)
                (set_input (mkLexer (fresh_stream input) [] 0%nat 0)
                   (TrimSpaces (fresh_stream input)))) as H.
  simpl token_input_ in *.
  destruct (main_loop _ _) as [lx1| | |]; simpl; try discriminate.
  exfalso. apply H; [|exact Hm|reflexivity].
  eapply Forall_suffix_of; [exact Hsuf|exact Hlex].
Qed.

(** ** The lexer on the samples *)

Example tokens_of_sample_block :
  tokens_of 20 sample_block =
    Ok [token_type.If; token_type.Id "a"; token_type.Char ":"; token_type.Newline;
        token_type.Indent; token_type.Id "b"; token_type.Newline;
        token_type.Id "c"; token_type.Newline; token_type.Dedent; token_type.Eof].
Proof. vm_compute. reflexivity. Qed.

(** C2, on a line indented by three spaces.  At level 0 it gives two
    [Indent]s and level 2, not the one [Indent] of three spaces taken two at
    a time; the next line, indented alike, is then below the level and gets
    a [Dedent]. *)
Theorem three_spaces_two_Indents :
  ParseDent (mkLexer (fresh_stream (list_ascii_of_string "   y")) [] 0%nat 0) =
    Ok (mkLexer (fresh_stream (list_ascii_of_string "y"))
          [token_type.Indent; token_type.Indent] 0%nat 2) /\
  tokens_of 20 sample_odd_indent =
    Ok [token_type.Id "x"; token_type.Newline;
        token_type.Indent; token_type.Indent; token_type.Id "y"; token_type.Newline;
        token_type.Dedent; token_type.Id "z"; token_type.Newline;
        token_type.Dedent; token_type.Eof].
Proof. split; vm_compute; reflexivity. Qed.

(** Blank lines inside a block, one of spaces and one empty, leave no
    token. *)
Example tokens_of_sample_blank_lines :
  tokens_of 20 sample_blank_lines = tokens_of 20 sample_block.
Proof. vm_compute. reflexivity. Qed.


(* ===================================================================== *)
(** * More on the lexer *)
(* ===================================================================== *)

(** ** Token equality *)

(** X1. [operator==] on tokens decides equality: it gives true exactly for
    two tokens of the same alternative with the same value. *)
Theorem operator_eq_true_iff lhs rhs : operator_eq lhs rhs = true <-> lhs = rhs.
Proof.
  unfold operator_eq.
  destruct lhs, rhs; simpl; split; intros H; try discriminate; try reflexivity;
    first
      [ apply Z.eqb_eq in H; congruence
      | apply String.eqb_eq in H; congruence
      | apply Ascii.eqb_eq in H; congruence
      | injection H as ->; first [apply Z.eqb_refl | apply String.eqb_refl
                                 | apply Ascii.eqb_refl] ].
Qed.

(** ** Walking the tokens *)

Lemma NextToken_tokens lx : vct_tokens_ (snd (NextToken lx)) = vct_tokens_ lx.
Proof. unfold NextToken. destruct (_ =? _)%nat; reflexivity. Qed.

Lemma NextToken_cursor lx :
  (current_token_ lx < length (vct_tokens_ lx))%nat ->
  current_token_ (snd (NextToken lx)) =
    Nat.min (S (current_token_ lx)) (length (vct_tokens_ lx) - 1).
Proof.
  intros H. unfold NextToken.
  destruct (Nat.eqb_spec (S (current_token_ lx)) (length (vct_tokens_ lx)));
    cbn [snd current_token_ vct_tokens_]; lia.
Qed.

Lemma advance_tokens k : forall lx, vct_tokens_ (advance k lx) = vct_tokens_ lx.
Proof.
  induction k as [|k IH]; intros lx; simpl; [reflexivity|].
  rewrite IH. apply NextToken_tokens.
Qed.

Lemma advance_cursor k : forall lx,
  (current_token_ lx < length (vct_tokens_ lx))%nat ->
  current_token_ (advance k lx) =
    Nat.min (current_token_ lx + k) (length (vct_tokens_ lx) - 1).
Proof.
  induction k as [|k IH]; intros lx H; simpl; [lia|].
  pose proof (NextToken_cursor lx H) as Hc.
  pose proof (NextToken_tokens lx) as Ht.
  rewrite IH by (rewrite Ht, Hc; lia). rewrite Ht, Hc. lia.
Qed.

(** X2. [NextToken] returns the token it has moved to, and [k] calls move
    the cursor [k] places on but never past the last token: from then on
    every call returns the last token and changes nothing. *)
Theorem NextToken_walks lx k :
  (current_token_ lx < length (vct_tokens_ lx))%nat ->
  fst (NextToken lx) = CurrentToken (snd (NextToken lx)) /\
  vct_tokens_ (advance k lx) = vct_tokens_ lx /\
  current_token_ (advance k lx) =
    Nat.min (current_token_ lx + k) (length (vct_tokens_ lx) - 1) /\
  ((length (vct_tokens_ lx) - 1 <= current_token_ lx)%nat ->
     snd (NextToken lx) = lx /\ fst (NextToken lx) = CurrentToken lx).
Proof.
  intros H. split; [|split; [|split]].
  - unfold NextToken. destruct (_ =? _)%nat; reflexivity.
  - apply advance_tokens.
  - apply advance_cursor. exact H.
  - intros Hlast. unfold NextToken.
    destruct (Nat.eqb_spec (S (current_token_ lx)) (length (vct_tokens_ lx)));
      [split; reflexivity|lia].
Qed.

(** ** What the parsers append *)

Lemma depth_app a b : depth (a ++ b) = depth a + depth b.
Proof.
  induction a as [|t a IH]; simpl; [reflexivity|].
  destruct t; simpl; rewrite ?IH; lia.
Qed.

Lemma nested_app a : forall d b,
  nested d (a ++ b) = nested d a && nested (d + depth a) b.
Proof.
  induction a as [|t a IH]; intros d b; simpl.
  - rewrite Z.add_0_r. reflexivity.
  - destruct t; simpl; rewrite ?IH; try reflexivity.
    + replace (d + 1 + depth a) with (d + (depth a + 1)) by lia. reflexivity.
    + replace (d - 1 + depth a) with (d + (depth a - 1)) by lia.
      rewrite andb_assoc. reflexivity.
Qed.

Lemma single_Newlines_app a : forall p b,
  single_Newlines p (a ++ b) =
    single_Newlines p a && single_Newlines (after_Newline p a) b.
Proof.
  induction a as [|t a IH]; intros p b; [reflexivity|].
  assert (Hlast : after_Newline p (t :: a) = after_Newline (Is_Newline t) a).
  { unfold after_Newline. rewrite last_cons. destruct (last a); reflexivity. }
  rewrite Hlast. simpl. destruct (Is_Newline t); rewrite IH.
  - rewrite andb_assoc. reflexivity.
  - reflexivity.
Qed.

Lemma plain_depth more : Forall plain more -> depth more = 0.
Proof.
  induction 1 as [|t more Ht _ IH]; simpl; [reflexivity|].
  destruct t; simpl in *; try contradiction; exact IH.
Qed.

Lemma plain_nested more : Forall plain more -> forall d, nested d more = true.
Proof.
  induction 1 as [|t more Ht _ IH]; intros d; simpl; [reflexivity|].
  destruct t; simpl in *; try contradiction; apply IH.
Qed.

Lemma plain_single more : Forall plain more -> forall p, single_Newlines p more = true.
Proof.
  induction 1 as [|t more Ht _ IH]; intros p; simpl; [reflexivity|].
  destruct t; simpl in *; try contradiction; apply IH.
Qed.

Lemma plain_fits more : Forall plain more -> Forall Number_fits more.
Proof.
  intros H. eapply Forall_impl; [exact H|].
  intros t Ht. destruct t; simpl in *; auto.
Qed.

Lemma well_formed_plain s s' toks cur cur' d more :
  Forall plain more ->
  well_formed (mkLexer s toks cur d) ->
  well_formed (mkLexer s' (toks ++ more) cur' d).
Proof.
  intros Hm (H1 & H2 & H3 & H4). unfold well_formed in *. simpl in *.
  rewrite single_Newlines_app, nested_app, depth_app, H1, H2, H3.
  rewrite (plain_single more Hm), (plain_nested more Hm), (plain_depth more Hm).
  repeat split; [lia|]. apply Forall_app. split; [assumption|].
  apply plain_fits. assumption.
Qed.

Lemma classify_plain keyword : plain (classify keyword).
Proof. unfold classify. repeat case_match; exact I. Qed.

Lemma number_loop_digits fuel : forall s result,
  Forall (fun c => isdigit c = true) result ->
  Forall (fun c => isdigit c = true) (snd (number_loop fuel s result)).
Proof.
  induction fuel as [|fuel IH]; intros s result H; simpl; [assumption|].
  destruct (get s) as [[c|] s1]; [|assumption].
  destruct (isdigit c) eqn:D; [|assumption].
  apply IH. apply Forall_app. split; [assumption|]. repeat constructor. exact D.
Qed.

Lemma isdigit_value c :
  isdigit c = true -> 0 <= Z.of_nat (nat_of_ascii c) - 48 <= 9.
Proof.
  unfold isdigit, between. rewrite andb_true_iff, !Nat.leb_le. lia.
Qed.

Lemma digits_value_nonneg digits :
  Forall (fun c => isdigit c = true) digits -> 0 <= digits_value digits.
Proof.
  unfold digits_value. intros H.
  assert (G : forall acc, 0 <= acc ->
            0 <= fold_left (fun acc c => acc * 10 + (Z.of_nat (nat_of_ascii c) - 48))
                   digits acc).
  { induction H as [|c digits Hc _ IH]; intros acc Hacc; simpl; [assumption|].
    apply IH. pose proof (isdigit_value c Hc). lia. }
  apply G. lia.
Qed.

(** Each of the four parsers of a line leaves the level alone and appends
    plain tokens (one, or none). *)
Ltac appends_plain :=
  intros H; repeat (case_match; simplify_eq); simpl;
  (split; [reflexivity|]);
  first
    [ exists []; split; [symmetry; apply app_nil_r|constructor]
    | eexists [_]; split; [reflexivity|];
      repeat constructor; first [exact I | apply classify_plain] ].

Lemma ParseString_appends lx lx' :
  ParseString lx = Ok lx' ->
  dent_ lx' = dent_ lx /\
  exists more, vct_tokens_ lx' = vct_tokens_ lx ++ more /\ Forall plain more.
Proof. unfold ParseString, bind. appends_plain. Qed.

Lemma ParseKeywords_appends lx lx' :
  ParseKeywords lx = Ok lx' ->
  dent_ lx' = dent_ lx /\
  exists more, vct_tokens_ lx' = vct_tokens_ lx ++ more /\ Forall plain more.
Proof. unfold ParseKeywords. appends_plain. Qed.

Lemma ParseChars_appends lx lx' :
  ParseChars lx = Ok lx' ->
  dent_ lx' = dent_ lx /\
  exists more, vct_tokens_ lx' = vct_tokens_ lx ++ more /\ Forall plain more.
Proof. unfold ParseChars. appends_plain. Qed.

Lemma ParseNumbers_appends lx lx' :
  ParseNumbers lx = Ok lx' ->
  dent_ lx' = dent_ lx /\
  exists more, vct_tokens_ lx' = vct_tokens_ lx ++ more /\ Forall plain more.
Proof.
  unfold ParseNumbers. destruct (CheckEof _) as [[|] s0].
  { intros [= <-]. split; [reflexivity|]. exists []. split; [|constructor].
    symmetry. apply app_nil_r. }
  destruct (peek s0) as [c s1]. destruct (isdigit _).
  - pose proof (number_loop_digits (enough s1) s1 []
                  (List.Forall_nil (fun c => isdigit c = true))) as Hd.
    destruct (number_loop _ _ _) as [s2 result]. simpl in Hd.
    unfold stoi. destruct (digits_value result <=? INT_MAX) eqn:Hmax;
      [|discriminate].
    simpl. intros [= <-]. split; [reflexivity|]. eexists [_].
    split; [reflexivity|]. repeat constructor.
    + apply digits_value_nonneg. exact Hd.
    + apply Z.leb_le. exact Hmax.
  - intros [= <-]. split; [reflexivity|]. exists []. split; [|constructor].
    symmetry. apply app_nil_r.
Qed.

(** ** What the main loop keeps *)

Lemma count_spaces_grows fuel : forall s ch k,
  k <= snd (count_spaces fuel s ch k).
Proof.
  induction fuel as [|fuel IH]; intros s ch k; simpl; [lia|].
  destruct (get s) as [[c|] s1]; simpl; [|lia].
  destruct (c =? SP)%char; simpl; [|lia].
  pose proof (IH s1 (Some c) (k + 1)). lia.
Qed.

Lemma nested_depth toks : forall d,
  0 <= d -> nested d toks = true -> 0 <= d + depth toks.
Proof.
  induction toks as [|t toks IH]; intros d Hd H; simpl in *; [lia|].
  destruct t; simpl in *; try (apply IH; assumption).
  - pose proof (IH (d + 1) ltac:(lia) H). lia.
  - apply andb_true_iff in H as [Hpos H]. apply Z.ltb_lt in Hpos.
    pose proof (IH (d - 1) ltac:(lia) H). lia.
Qed.

Lemma repeat_Indent k :
  depth (repeat token_type.Indent k) = Z.of_nat k /\
  (forall d, nested d (repeat token_type.Indent k) = true) /\
  (forall p, single_Newlines p (repeat token_type.Indent k) = true) /\
  Forall Number_fits (repeat token_type.Indent k).
Proof.
  induction k as [|k (H1 & H2 & H3 & H4)].
  - split; [|split; [|split]]; auto.
  - split; [|split; [|split]].
    + cbn [repeat depth]. rewrite H1. lia.
    + intros d. cbn [repeat nested]. apply H2.
    + intros p. cbn [repeat single_Newlines Is_Newline]. apply H3.
    + constructor; [exact I|assumption].
Qed.

Lemma repeat_Dedent k :
  depth (repeat token_type.Dedent k) = - Z.of_nat k /\
  (forall d, Z.of_nat k <= d -> nested d (repeat token_type.Dedent k) = true) /\
  (forall p, single_Newlines p (repeat token_type.Dedent k) = true) /\
  Forall Number_fits (repeat token_type.Dedent k).
Proof.
  induction k as [|k (H1 & H2 & H3 & H4)].
  - split; [|split; [|split]]; auto.
  - split; [|split; [|split]].
    + cbn [repeat depth]. rewrite H1. lia.
    + intros d Hd. cbn [repeat nested]. apply andb_true_iff.
      split; [apply Z.ltb_lt; lia|]. apply H2. lia.
    + intros p. cbn [repeat single_Newlines Is_Newline]. apply H3.
    + constructor; [exact I|assumption].
Qed.

Lemma well_formed_level lx : well_formed lx -> 0 <= dent_ lx.
Proof.
  intros (_ & H2 & H3 & _). rewrite <- H3.
  apply (nested_depth _ 0 ltac:(lia) H2).
Qed.

Lemma well_formed_adjust n s s' toks cur d :
  0 <= n -> well_formed (mkLexer s toks cur d) ->
  well_formed (adjust_dent n (mkLexer s' toks cur d)).
Proof.
  intros Hn H. pose proof (well_formed_level _ H) as Hd. simpl in Hd.
  destruct H as (H1 & H2 & H3 & H4). simpl in *.
  rewrite adjust_dent_closed. unfold well_formed.
  destruct (d * 2 <? n) eqn:Hlt; simpl.
  - destruct (repeat_Indent (Z.to_nat ((n - d * 2 + 1) / 2))) as (I1 & I2 & I3 & I4).
    rewrite single_Newlines_app, nested_app, depth_app, H1, H2, H3, I1, I2, I3.
    split; [reflexivity|split; [reflexivity|split; [lia|]]].
    apply Forall_app. split; assumption.
  - apply Z.ltb_ge in Hlt.
    destruct (repeat_Dedent (Z.to_nat ((d * 2 - n + 1) / 2))) as (D1 & D2 & D3 & D4).
    rewrite single_Newlines_app, nested_app, depth_app, H1, H2, H3, D1, D3.
    rewrite D2 by (Z.to_euclidean_division_equations; lia).
    split; [reflexivity|split; [reflexivity|split; [lia|]]].
    apply Forall_app. split; assumption.
Qed.

Lemma ParseDent_well_formed lx lx' :
  ParseDent lx = Ok lx' -> well_formed lx -> well_formed lx'.
Proof.
  destruct lx as [s toks cur d]. unfold ParseDent. simpl token_input_.
  destruct (CheckEof s) as [[|] s0]; [intros [= <-] H; exact H|].
  pose proof (count_spaces_grows (enough s0) s0 None 0) as Hn.
  destruct (count_spaces _ _ _ _) as [[s1 ch] n]. simpl in Hn.
  destruct (rdstate_not_eofbit s1).
  - destruct ch as [c|]; [|discriminate].
    destruct (c =? NL)%char; intros [= <-] H; [exact H|].
    apply (well_formed_adjust n s _ toks cur d Hn H).
  - intros [= <-] H. apply (well_formed_adjust n s _ toks cur d Hn H).
Qed.

Lemma back_is_not_Newline_after_Newline toks p :
  back_is_not_Newline toks = true -> after_Newline p toks = false.
Proof.
  unfold back_is_not_Newline, after_Newline.
  destruct (last toks) as [t|]; [|discriminate].
  destruct (Is_Newline t); [discriminate|reflexivity].
Qed.

Lemma ParseNewLine_well_formed lx lx' :
  ParseNewLine lx = Ok lx' -> well_formed lx -> well_formed lx'.
Proof.
  destruct lx as [s toks cur d]. unfold ParseNewLine. simpl token_input_.
  destruct (peek s) as [[c|] s0]; [|intros [= <-] H; exact H].
  destruct (c =? NL)%char; [|intros [= <-] H; exact H].
  intros Hd H. apply (ParseDent_well_formed _ _ Hd). simpl.
  destruct (back_is_not_Newline toks) eqn:Hb; [|exact H].
  destruct H as (H1 & H2 & H3 & H4). unfold well_formed, emplace_back. simpl in *.
  rewrite single_Newlines_app, nested_app, depth_app, H1, H2, H3.
  rewrite (back_is_not_Newline_after_Newline toks true Hb). simpl.
  split; [reflexivity|split; [reflexivity|split; [lia|]]].
  apply Forall_app. split; [assumption|]. repeat constructor.
Qed.

Lemma appends_well_formed lx lx' :
  dent_ lx' = dent_ lx /\
  (exists more, vct_tokens_ lx' = vct_tokens_ lx ++ more /\ Forall plain more) ->
  well_formed lx -> well_formed lx'.
Proof.
  destruct lx as [s toks cur d], lx' as [s' toks' cur' d']. simpl.
  intros (-> & more & -> & Hm). apply well_formed_plain. exact Hm.
Qed.

Lemma iteration_well_formed lx lx' :
  iteration lx = Ok lx' -> well_formed lx -> well_formed lx'.
Proof.
  unfold iteration. intros H Hinv.
  apply bind_Ok in H as (lx1 & H1 & H). apply bind_Ok in H as (lx2 & H2 & H).
  apply bind_Ok in H as (lx3 & H3 & H). apply bind_Ok in H as (lx4 & H4 & H).
  apply (ParseNewLine_well_formed _ _ H).
  assert (well_formed lx4) as Hinv4.
  { apply (appends_well_formed _ _ (ParseNumbers_appends _ _ H4)),
      (appends_well_formed _ _ (ParseChars_appends _ _ H3)),
      (appends_well_formed _ _ (ParseKeywords_appends _ _ H2)),
      (appends_well_formed _ _ (ParseString_appends _ _ H1)), Hinv. }
  exact Hinv4.
Qed.

Lemma main_loop_well_formed fuel : forall lx lx',
  main_loop fuel lx = Ok lx' -> well_formed lx -> well_formed lx'.
Proof.
  induction fuel as [|fuel IH]; intros lx lx' H Hinv; simpl in H;
    destruct (stream_ok (token_input_ lx)); simplify_eq; try assumption.
  apply bind_Ok in H as (lx1 & H1 & H).
  apply (IH _ _ H), (iteration_well_formed _ _ H1), Hinv.
Qed.

Lemma at_start_well_formed input : well_formed (at_start input).
Proof. repeat split. constructor. Qed.

(** The constructor's lexer is the finished form of a well-formed one. *)
Lemma Lexer_new_finish fuel input lx :
  Lexer_new fuel input = Ok lx ->
  exists lx1, well_formed lx1 /\ lx = finish lx1.
Proof.
  unfold Lexer_new, ParseTokens. intros H.
  apply bind_Ok in H as (lx1 & Hloop & [= <-]). exists lx1. split; [|reflexivity].
  apply (main_loop_well_formed _ _ _ Hloop), at_start_well_formed.
Qed.

Lemma finish_level lx : 0 <= dent_ lx -> dent_ (finish lx) = 0.
Proof.
  destruct lx as [s toks cur d]. unfold finish. simpl. intros Hd.
  destruct (back_is_not_Newline toks); unfold emplace_back; simpl;
    rewrite close_blocks_closed by lia; simpl; lia.
Qed.

Lemma finish_cursor lx : current_token_ (finish lx) = 0%nat.
Proof. reflexivity. Qed.

(** X3. The lexer the constructor returns stands at its first token;
    [NextToken] then goes through the tokens in order, and once it has been
    called as often as there are tokens before [Eof], the current token is
    [Eof] and stays [Eof]. *)
Theorem Lexer_new_walk fuel input lx k :
  Lexer_new fuel input = Ok lx ->
  current_token_ lx = 0%nat /\
  CurrentToken (advance k lx) =
    nth (Nat.min k (length (vct_tokens_ lx) - 1)) (vct_tokens_ lx) token_type.Eof /\
  ((length (vct_tokens_ lx) - 1 <= k)%nat ->
     CurrentToken (advance k lx) = token_type.Eof).
Proof.
  intros H. destruct (Lexer_new_finish _ _ _ H) as (lx1 & _ & ->).
  pose proof (finish_tokens lx1) as Ht. pose proof (finish_cursor lx1) as Hc.
  assert (Hlen : (current_token_ (finish lx1) < length (vct_tokens_ (finish lx1)))%nat).
  { rewrite Hc, Ht, !length_app. simpl. lia. }
  assert (Hcur : CurrentToken (advance k (finish lx1)) =
            nth (Nat.min k (length (vct_tokens_ (finish lx1)) - 1))
              (vct_tokens_ (finish lx1)) token_type.Eof).
  { unfold CurrentToken. rewrite advance_tokens, (advance_cursor k _ Hlen), Hc.
    reflexivity. }
  split; [exact Hc|]. split; [exact Hcur|].
  intros Hk. rewrite Hcur, Nat.min_r by exact Hk.
  rewrite Ht, app_assoc, length_app. simpl length.
  rewrite app_nth2 by lia.
  replace (length (vct_tokens_ lx1 ++ closing lx1) + 1 - 1
           - length (vct_tokens_ lx1 ++ closing lx1))%nat with 0%nat by lia.
  reflexivity.
Qed.

Lemma single_Newlines_pairs toks : forall p,
  single_Newlines p toks = true ->
  (p = true -> head toks <> Some token_type.Newline) /\
  (forall i, toks !! i = Some token_type.Newline ->
             toks !! S i <> Some token_type.Newline).
Proof.
  induction toks as [|t toks IH]; intros p H; simpl in *.
  - split; [discriminate|]. intros i Hi. rewrite lookup_nil in Hi. discriminate.
  - destruct (Is_Newline t) eqn:Et.
    + apply andb_true_iff in H as [Hp H]. destruct (IH true H) as [Hhd Hrest].
      split; [intros ->; discriminate|].
      intros [|i] Hi; simpl in *.
      * destruct toks as [|t' toks]; [discriminate|]. simpl.
        specialize (Hhd eq_refl). simpl in Hhd. exact Hhd.
      * apply Hrest. exact Hi.
    + destruct (IH false H) as [_ Hrest].
      split; [intros _ [= ->]; discriminate|].
      intros [|i] Hi; simpl in *.
      * injection Hi as ->. discriminate.
      * apply Hrest. exact Hi.
Qed.

Lemma Is_Newline_true t : Is_Newline t = true -> t = token_type.Newline.
Proof. destruct t; simpl; congruence. Qed.

(** X4. In the token sequence of the constructor no [Newline] comes first
    and none comes right after another; and the sequence is [Eof] alone, or
    ends with a [Newline], the [Dedent]s that close the open blocks and
    [Eof]. *)
Theorem Lexer_new_lines fuel input lx :
  Lexer_new fuel input = Ok lx ->
  head (vct_tokens_ lx) <> Some token_type.Newline /\
  (forall i, vct_tokens_ lx !! i = Some token_type.Newline ->
             vct_tokens_ lx !! S i <> Some token_type.Newline) /\
  (vct_tokens_ lx = [token_type.Eof] \/
   exists body k,
     vct_tokens_ lx =
       body ++ [token_type.Newline] ++ repeat token_type.Dedent k
       ++ [token_type.Eof]).
Proof.
  intros H. destruct (Lexer_new_finish _ _ _ H) as (lx1 & Hwf & ->).
  pose proof (well_formed_level _ Hwf) as Hd.
  destruct Hwf as (H1 & H2 & H3 & H4).
  rewrite finish_tokens. unfold closing.
  destruct (repeat_Dedent (Z.to_nat (dent_ lx1))) as (_ & _ & D3 & _).
  assert (Hs : single_Newlines true
            (vct_tokens_ lx1
             ++ ((if back_is_not_Newline (vct_tokens_ lx1)
                  then [token_type.Newline] else [])
                 ++ repeat token_type.Dedent (Z.to_nat (dent_ lx1)))
             ++ [token_type.Eof]) = true).
  { rewrite single_Newlines_app, H1. simpl.
    destruct (back_is_not_Newline (vct_tokens_ lx1)) eqn:Hb.
    - rewrite (back_is_not_Newline_after_Newline _ true Hb). simpl.
      rewrite single_Newlines_app, D3. reflexivity.
    - simpl. rewrite single_Newlines_app, D3. reflexivity. }
  destruct (single_Newlines_pairs _ _ Hs) as [Hhd Hpairs].
  split; [exact (Hhd eq_refl)|]. split; [exact Hpairs|].
  unfold back_is_not_Newline.
  destruct (last (vct_tokens_ lx1)) as [t|] eqn:Hlast.
  - right. destruct (Is_Newline t) eqn:Et; simpl.
    + apply Is_Newline_true in Et. subst t.
      apply last_Some in Hlast as [body ->].
      exists body, (Z.to_nat (dent_ lx1)). rewrite <- !app_assoc. reflexivity.
    + exists (vct_tokens_ lx1), (Z.to_nat (dent_ lx1)). reflexivity.
  - left. apply last_None in Hlast. rewrite Hlast in *. simpl in H3.
    rewrite <- H3. reflexivity.
Qed.

(** X5. In the token sequence of the constructor the blocks are balanced:
    read from the left no [Dedent] comes without an [Indent] still open,
    there are as many [Dedent]s as [Indent]s, and the level ends at 0. *)
Theorem Lexer_new_blocks fuel input lx :
  Lexer_new fuel input = Ok lx ->
  nested 0 (vct_tokens_ lx) = true /\
  depth (vct_tokens_ lx) = 0 /\
  dent_ lx = 0.
Proof.
  intros H. destruct (Lexer_new_finish _ _ _ H) as (lx1 & Hwf & ->).
  pose proof (well_formed_level _ Hwf) as Hd.
  destruct Hwf as (H1 & H2 & H3 & H4).
  rewrite finish_tokens, (finish_level lx1 Hd). unfold closing.
  destruct (repeat_Dedent (Z.to_nat (dent_ lx1))) as (D1 & D2 & _ & _).
  assert (Hnl : forall b : bool,
            depth (if b then [token_type.Newline] else []) = 0 /\
            forall d, nested d (if b then [token_type.Newline] else []) = true).
  { intros [|]; split; reflexivity. }
  destruct (Hnl (back_is_not_Newline (vct_tokens_ lx1))) as [N1 N2].
  split; [|split; [|reflexivity]].
  - rewrite !nested_app, !depth_app, H2, H3, N1, N2.
    rewrite D2 by lia. reflexivity.
  - rewrite !depth_app, H3, N1, D1. simpl. lia.
Qed.

(** X6. Every [Number] token of the constructor holds a value from 0 to
    [INT_MAX]: a sign is never part of a number, and a literal too big for
    an [int] does not give a token. *)
Theorem Lexer_new_numbers fuel input lx :
  Lexer_new fuel input = Ok lx -> Forall Number_fits (vct_tokens_ lx).
Proof.
  intros H. destruct (Lexer_new_finish _ _ _ H) as (lx1 & Hwf & ->).
  destruct Hwf as (_ & _ & _ & H4).
  rewrite finish_tokens. unfold closing.
  destruct (repeat_Dedent (Z.to_nat (dent_ lx1))) as (_ & _ & _ & D4).
  repeat (apply Forall_app; split); try assumption.
  - destruct (back_is_not_Newline _); repeat constructor.
  - repeat constructor.
Qed.

(** X2 on three tokens: five calls of [NextToken] stop at the last. *)
Lemma NextToken_walks_witness :
  fst (NextToken sample_lexer) = CurrentToken (snd (NextToken sample_lexer)) /\
  vct_tokens_ (advance 5 sample_lexer) = vct_tokens_ sample_lexer /\
  current_token_ (advance 5 sample_lexer) = 2%nat /\
  ((length (vct_tokens_ sample_lexer) - 1 <= current_token_ sample_lexer)%nat ->
     snd (NextToken sample_lexer) = sample_lexer /\
     fst (NextToken sample_lexer) = CurrentToken sample_lexer).
Proof. apply (NextToken_walks sample_lexer 5). simpl. lia. Defined.

(** X3 on the sample block: after twelve calls the current token is [Eof]. *)
Lemma Lexer_new_walk_witness :
  exists lx,
    Lexer_new 20 (list_ascii_of_string sample_block) = Ok lx /\
    current_token_ lx = 0%nat /\
    CurrentToken (advance 12 lx) =
      nth (Nat.min 12 (length (vct_tokens_ lx) - 1)) (vct_tokens_ lx) token_type.Eof /\
    ((length (vct_tokens_ lx) - 1 <= 12)%nat ->
       CurrentToken (advance 12 lx) = token_type.Eof).
Proof.
  eexists. split; [vm_compute; reflexivity|].
  apply (Lexer_new_walk 20 (list_ascii_of_string sample_block)).
  vm_compute; reflexivity.
Defined.

(** X4 on the sample block. *)
Lemma Lexer_new_lines_witness :
  exists lx,
    Lexer_new 20 (list_ascii_of_string sample_block) = Ok lx /\
    head (vct_tokens_ lx) <> Some token_type.Newline /\
    (forall i, vct_tokens_ lx !! i = Some token_type.Newline ->
               vct_tokens_ lx !! S i <> Some token_type.Newline) /\
    (vct_tokens_ lx = [token_type.Eof] \/
     exists body k,
       vct_tokens_ lx =
         body ++ [token_type.Newline] ++ repeat token_type.Dedent k
         ++ [token_type.Eof]).
Proof.
  eexists. split; [vm_compute; reflexivity|].
  apply (Lexer_new_lines 20 (list_ascii_of_string sample_block)).
  vm_compute; reflexivity.
Defined.

(** X5 on the sample block. *)
Lemma Lexer_new_blocks_witness :
  exists lx,
    Lexer_new 20 (list_ascii_of_string sample_block) = Ok lx /\
    nested 0 (vct_tokens_ lx) = true /\ depth (vct_tokens_ lx) = 0 /\
    dent_ lx = 0.
Proof.
  eexists. split; [vm_compute; reflexivity|].
  apply (Lexer_new_blocks 20 (list_ascii_of_string sample_block)).
  vm_compute; reflexivity.
Defined.

(** X6 on a line with two numbers. *)
Lemma Lexer_new_numbers_witness :
  exists lx,
    Lexer_new 20 (list_ascii_of_string sample_numbers) = Ok lx /\
    Forall Number_fits (vct_tokens_ lx).
Proof.
  eexists. split; [vm_compute; reflexivity|].
  apply (Lexer_new_numbers 20 (list_ascii_of_string sample_numbers)).
  vm_compute; reflexivity.
Defined.

(** ** Inputs the lexer does not get through *)

(** X7 (with [Lexer_new_terminates]) on the sample block. *)
Lemma Lexer_new_terminates_witness :
  Lexer_new (2 + length (list_ascii_of_string sample_block))
    (list_ascii_of_string sample_block) <> OutOfFuel.
Proof.
  apply (Lexer_new_terminates (list_ascii_of_string sample_block)).
  vm_compute. repeat constructor.
Defined.

Lemma not_lexable c :
  lexable c = false ->
  c <> SP /\ c <> NL /\ isalpha c = false /\ isdigit c = false /\
  ispunct c = false.
Proof.
  unfold lexable. rewrite !orb_false_iff.
  intros ((((H1 & H2) & H3) & H4) & H5).
  apply Ascii.eqb_neq in H1, H2. auto.
Qed.

Lemma not_punct c :
  ispunct c = false ->
  (c =? "039")%char || (c =? "034")%char = false /\ (c =? "_")%char = false.
Proof.
  intros P.
  destruct (Ascii.eqb_spec c "039") as [->|_]; [discriminate|].
  destruct (Ascii.eqb_spec c "034") as [->|_]; [discriminate|].
  destruct (Ascii.eqb_spec c "_") as [->|_]; [discriminate|].
  split; reflexivity.
Qed.

(** A turn of the main loop at a character no parser takes changes
    nothing. *)
Lemma iteration_stuck c rest toks cur d :
  lexable c = false ->
  iteration (mkLexer (fresh_stream (c :: rest)) toks cur d) =
    Ok (mkLexer (fresh_stream (c :: rest)) toks cur d).
Proof.
  intros L. destruct (not_lexable c L) as (Hsp & Hnl & A & D & P).
  destruct (not_punct c P) as [Q U].
  unfold iteration.
  rewrite ParseString_skip by exact Q. simpl bind.
  rewrite ParseKeywords_skip by (rewrite A, U; reflexivity). simpl bind.
  rewrite ParseChars_skip by exact P. simpl bind.
  rewrite ParseNumbers_skip by exact D. simpl bind.
  unfold set_input. simpl. rewrite TrimSpaces_skip by exact Hsp.
  unfold ParseNewLine. simpl. apply Ascii.eqb_neq in Hnl. rewrite Hnl.
  reflexivity.
Qed.

(** X8. At a character that is neither a space, a line terminator, a
    letter, a digit nor punctuation (a tab, a carriage return, a byte above
    127) a turn of the main loop reads nothing and emits nothing: the
    constructor never returns. *)
Theorem Lexer_new_hangs c rest fuel :
  lexable c = false ->
  iteration (at_start (c :: rest)) = Ok (at_start (c :: rest)) /\
  Lexer_new fuel (c :: rest) = OutOfFuel.
Proof.
  intros L. destruct (not_lexable c L) as (Hsp & _).
  assert (Hstart : at_start (c :: rest)
                   = mkLexer (fresh_stream (c :: rest)) [] 0%nat 0).
  { unfold at_start. rewrite TrimSpaces_skip by exact Hsp. reflexivity. }
  split; [rewrite Hstart; apply iteration_stuck; exact L|].
  unfold Lexer_new, ParseTokens.
  change (set_input (mkLexer (fresh_stream (c :: rest)) [] 0%nat 0)
            (TrimSpaces (token_input_
               (mkLexer (fresh_stream (c :: rest)) [] 0%nat 0))))
    with (at_start (c :: rest)).
  rewrite Hstart.
  assert (H : main_loop fuel (mkLexer (fresh_stream (c :: rest)) [] 0%nat 0)
              = OutOfFuel).
  { induction fuel as [|fuel IH]; simpl; [reflexivity|].
    rewrite (iteration_stuck c rest [] 0%nat 0 L). simpl. exact IH. }
  rewrite H. reflexivity.
Qed.

(** X8 on a tab. *)
Lemma Lexer_new_hangs_witness :
  iteration (at_start sample_tab) = Ok (at_start sample_tab) /\
  Lexer_new 1000 sample_tab = OutOfFuel.
Proof. apply (Lexer_new_hangs "009"%char ["x"%char] 1000). reflexivity. Defined.

(** ** Indentation, counted *)

(** X9. A line of [n] spaces and then a character that is neither a space
    nor a line terminator, read at level [d]: above the level there is an
    [Indent] for every two spaces begun, so the level becomes [n / 2] rounded
    up; below it there is a [Dedent] down to [n / 2] rounded down; at twice
    the level nothing is emitted.  The character stays to be read. *)
Theorem ParseDent_counts n c rest toks cur d :
  c <> SP -> c <> NL -> 0 <= d ->
  ParseDent (mkLexer (fresh_stream (repeat SP n ++ c :: rest)) toks cur d) =
    Ok (mkLexer (fresh_stream (c :: rest))
          (toks ++
           if d * 2 <? Z.of_nat n
           then repeat token_type.Indent
                  (Z.to_nat (Z.of_nat n / 2 + Z.of_nat n mod 2 - d))
           else repeat token_type.Dedent (Z.to_nat (d - Z.of_nat n / 2)))
          cur
          (if d * 2 <? Z.of_nat n then Z.of_nat n / 2 + Z.of_nat n mod 2
           else Z.of_nat n / 2)).
Proof.
  intros Hsp Hnl Hd. rewrite ParseDent_line by assumption.
  rewrite adjust_dent_closed.
  destruct (d * 2 <? Z.of_nat n) eqn:Hlt.
  - apply Z.ltb_lt in Hlt. rewrite units_up by lia.
    replace (Z.of_nat n / 2 - d + Z.of_nat n mod 2)
      with (Z.of_nat n / 2 + Z.of_nat n mod 2 - d) by lia.
    do 2 f_equal. Z.to_euclidean_division_equations. lia.
  - apply Z.ltb_ge in Hlt. rewrite units_down by lia.
    do 2 f_equal. Z.to_euclidean_division_equations. lia.
Qed.

(** X9 on five spaces at level 1: two [Indent]s and level 3. *)
Lemma ParseDent_counts_witness :
  ParseDent (mkLexer (fresh_stream (repeat SP 5 ++ "y"%char :: [])) [] 0%nat 1) =
    Ok (mkLexer (fresh_stream ["y"%char])
          [token_type.Indent; token_type.Indent] 0%nat 3).
Proof.
  apply (ParseDent_counts 5 "y"%char [] [] 0%nat 1); [discriminate|discriminate|lia].
Defined.

(** Spaces that end the input are read as the indentation of a line:
    they give [Indent]s or [Dedent]s like the spaces before a statement, and
    leave the stream failed. *)
Theorem ParseDent_at_end n toks cur d :
  0 <= d ->
  ParseDent (mkLexer (fresh_stream (repeat SP (S n))) toks cur d) =
    Ok (mkLexer (mkStream [] false true)
          (toks ++
           if d * 2 <? Z.of_nat (S n)
           then repeat token_type.Indent
                  (Z.to_nat (Z.of_nat (S n) / 2 + Z.of_nat (S n) mod 2 - d))
           else repeat token_type.Dedent (Z.to_nat (d - Z.of_nat (S n) / 2)))
          cur
          (if d * 2 <? Z.of_nat (S n)
           then Z.of_nat (S n) / 2 + Z.of_nat (S n) mod 2
           else Z.of_nat (S n) / 2)).
Proof.
  intros Hd. rewrite ParseDent_trailing_spaces, adjust_dent_closed.
  destruct (d * 2 <? Z.of_nat (S n)) eqn:Hlt.
  - apply Z.ltb_lt in Hlt. rewrite units_up by lia.
    replace (Z.of_nat (S n) / 2 - d + Z.of_nat (S n) mod 2)
      with (Z.of_nat (S n) / 2 + Z.of_nat (S n) mod 2 - d) by lia.
    do 2 f_equal. Z.to_euclidean_division_equations. lia.
  - apply Z.ltb_ge in Hlt. rewrite units_down by lia.
    do 2 f_equal. Z.to_euclidean_division_equations. lia.
Qed.

(** Two spaces at the end of the input, at level 0. *)
Lemma ParseDent_at_end_witness :
  ParseDent (mkLexer (fresh_stream (repeat SP 2)) [] 0%nat 0) =
    Ok (mkLexer (mkStream [] false true) [token_type.Indent] 0%nat 1).
Proof. apply (ParseDent_at_end 1 [] 0%nat 0). lia. Defined.

(** ** Comments *)

Lemma split_line_found line rest :
  Forall (fun c => c <> NL) line ->
  split_line (line ++ NL :: rest) = (line, Some rest).
Proof.
  induction 1 as [|c line Hc _ IH]; simpl; [reflexivity|].
  apply Ascii.eqb_neq in Hc. rewrite Hc, IH. reflexivity.
Qed.

Lemma split_line_end line :
  Forall (fun c => c <> NL) line -> split_line line = (line, None).
Proof.
  induction 1 as [|c line Hc _ IH]; simpl; [reflexivity|].
  apply Ascii.eqb_neq in Hc. rewrite Hc, IH. reflexivity.
Qed.

Lemma ParseChars_at_comment line rest toks cur d :
  Forall (fun c => c <> NL) line ->
  ParseChars (mkLexer (fresh_stream ("#"%char :: line ++ NL :: rest)) toks cur d) =
    Ok (mkLexer (fresh_stream (NL :: rest)) toks cur d).
Proof.
  intros Hline. unfold ParseChars. simpl token_input_. rewrite !CheckEof_more.
  change (get (fresh_stream ("#"%char :: line ++ NL :: rest)))
    with (Some "#"%char, fresh_stream (line ++ NL :: rest)).
  cbv beta iota. change (ispunct "#") with true. cbv iota.
  change ("#" =? "#")%char with true. cbv iota.
  unfold ParseComments, putback, peek, getline; simpl.
  rewrite (split_line_found line rest Hline). reflexivity.
Qed.

Lemma ParseChars_at_last_comment line toks cur d :
  Forall (fun c => c <> NL) line ->
  ParseChars (mkLexer (fresh_stream ("#"%char :: line)) toks cur d) =
    Ok (mkLexer (mkStream [] true false) toks cur d).
Proof.
  intros Hline. unfold ParseChars. simpl token_input_. rewrite !CheckEof_more.
  change (get (fresh_stream ("#"%char :: line)))
    with (Some "#"%char, fresh_stream line).
  cbv beta iota. change (ispunct "#") with true. cbv iota.
  change ("#" =? "#")%char with true. cbv iota.
  unfold ParseComments, putback, peek, getline; simpl.
  rewrite (split_line_end line Hline). reflexivity.
Qed.

(** X11. A comment gives no token.  [ParseChars] at a [#] reads to the end
    of the line and leaves the line terminator to be read; when the input
    ends inside the comment it reads everything and leaves the stream at
    its end. *)
Theorem ParseChars_comment line rest toks cur d :
  Forall (fun c => c <> NL) line ->
  ParseChars (mkLexer (fresh_stream ("#"%char :: line ++ NL :: rest)) toks cur d) =
    Ok (mkLexer (fresh_stream (NL :: rest)) toks cur d) /\
  ParseChars (mkLexer (fresh_stream ("#"%char :: line)) toks cur d) =
    Ok (mkLexer (mkStream [] true false) toks cur d).
Proof.
  intros Hline. split.
  - apply ParseChars_at_comment. exact Hline.
  - apply ParseChars_at_last_comment. exact Hline.
Qed.

(** X11 on a short comment. *)
Lemma ParseChars_comment_witness :
  ParseChars (mkLexer (fresh_stream ("#"%char :: ["c"%char] ++ NL :: ["x"%char]))
                [] 0%nat 0) =
    Ok (mkLexer (fresh_stream (NL :: ["x"%char])) [] 0%nat 0) /\
  ParseChars (mkLexer (fresh_stream ("#"%char :: ["c"%char])) [] 0%nat 0) =
    Ok (mkLexer (mkStream [] true false) [] 0%nat 0).
Proof.
  apply (ParseChars_comment ["c"%char] ["x"%char] [] 0%nat 0).
  repeat constructor. discriminate.
Defined.

Lemma iteration_at_comment line rest toks cur d :
  Forall (fun c => c <> NL) line ->
  iteration (mkLexer (fresh_stream ("#"%char :: line ++ NL :: rest)) toks cur d) =
    ParseNewLine (mkLexer (fresh_stream (NL :: rest)) toks cur d).
Proof.
  intros Hline. unfold iteration.
  rewrite ParseString_skip by reflexivity. cbn [bind].
  rewrite ParseKeywords_skip by reflexivity. cbn [bind].
  rewrite (ParseChars_at_comment line rest toks cur d Hline). cbn [bind].
  rewrite ParseNumbers_skip by reflexivity. cbn [bind].
  unfold set_input. cbn [token_input_ vct_tokens_ current_token_ dent_].
  rewrite TrimSpaces_skip by discriminate. reflexivity.
Qed.

Lemma back_after_Dedents toks k :
  back_is_not_Newline (toks ++ repeat token_type.Dedent (S k)) = true.
Proof.
  change (repeat token_type.Dedent (S k))
    with (token_type.Dedent :: repeat token_type.Dedent k).
  rewrite repeat_cons, app_assoc. unfold back_is_not_Newline.
  rewrite last_snoc. reflexivity.
Qed.

(** X12. A line that holds only a comment, starting in the first column, is
    not passed over like a blank line: its indentation, none, counts.  At
    level 0 it leaves no token; inside blocks it closes them all, with a
    [Dedent] each, and then ends a line with a [Newline] of its own. *)
Theorem comment_line_closes_blocks line rest toks cur d :
  Forall (fun c => c <> NL) line -> 0 <= d ->
  bind (ParseNewLine
          (mkLexer (fresh_stream (NL :: "#"%char :: line ++ NL :: rest)) toks cur d))
       iteration =
    ParseDent
      (mkLexer (fresh_stream rest)
         ((if back_is_not_Newline toks then toks ++ [token_type.Newline] else toks)
          ++ (if 0 <? d
              then repeat token_type.Dedent (Z.to_nat d) ++ [token_type.Newline]
              else []))
         cur 0).
Proof.
  intros Hline Hd. rewrite ParseNewLine_at_NL.
  set (toks' := if back_is_not_Newline toks then toks ++ [token_type.Newline]
                else toks).
  assert (Hback : back_is_not_Newline toks' = false)
    by apply back_is_not_Newline_after.
  pose proof (ParseDent_line 0 "#"%char (line ++ NL :: rest) toks' cur d) as Hdent.
  simpl repeat in Hdent. simpl app in Hdent.
  rewrite Hdent by discriminate. cbn [bind].
  rewrite adjust_dent_closed. change (Z.of_nat 0) with 0.
  replace (d * 2 <? 0) with false by (symmetry; apply Z.ltb_ge; lia).
  cbv iota.
  replace ((d * 2 - 0 + 1) / 2) with d by (Z.to_euclidean_division_equations; lia).
  rewrite Z2Nat.id by lia. rewrite Z.sub_diag.
  rewrite (iteration_at_comment line rest _ cur 0 Hline), ParseNewLine_at_NL.
  destruct (0 <? d) eqn:Hpos.
  - apply Z.ltb_lt in Hpos.
    destruct (Z.to_nat d) as [|k] eqn:Hk; [lia|].
    rewrite back_after_Dedents, <- app_assoc. reflexivity.
  - apply Z.ltb_ge in Hpos. replace (Z.to_nat d) with 0%nat by lia.
    simpl repeat. rewrite !app_nil_r, Hback. reflexivity.
Qed.

(** X12 inside one block. *)
Lemma comment_line_closes_blocks_witness :
  bind (ParseNewLine
          (mkLexer (fresh_stream (NL :: "#"%char :: ["c"%char] ++ NL :: ["x"%char]))
             [token_type.Indent; token_type.Id "b"] 0%nat 1))
       iteration =
    ParseDent
      (mkLexer (fresh_stream ["x"%char])
         ([token_type.Indent; token_type.Id "b"; token_type.Newline]
          ++ [token_type.Dedent; token_type.Newline])
         0%nat 0).
Proof.
  apply (comment_line_closes_blocks ["c"%char] ["x"%char]
           [token_type.Indent; token_type.Id "b"] 0%nat 1).
  - repeat constructor. discriminate.
  - lia.
Defined.

(** ** Punctuation *)

(** X13. Punctuation other than [#].  [=], [!], [>] and [<] make one token
    with a [=] that follows at once ([==], [!=], [>=], [<=]); before any
    other character, and at the end of the input, they are a [Char] like
    every other punctuation character. *)
Theorem ParseChars_operators c rest toks cur d :
  ispunct c = true -> c <> "#"%char ->
  ParseChars (mkLexer (fresh_stream (c :: rest)) toks cur d) =
    Ok match with_eq c, rest with
       | Some op, e :: rest' =>
           if (e =? "=")%char
           then mkLexer (fresh_stream rest') (toks ++ [op]) cur d
           else mkLexer (fresh_stream rest) (toks ++ [token_type.Char c]) cur d
       | Some _, [] =>
           mkLexer (mkStream [] true false) (toks ++ [token_type.Char c]) cur d
       | Datatypes.None, _ =>
           mkLexer (fresh_stream rest) (toks ++ [token_type.Char c]) cur d
       end.
Proof.
  intros P Hc. apply Ascii.eqb_neq in Hc.
  unfold ParseChars, with_eq. simpl token_input_. rewrite CheckEof_more.
  change (get (fresh_stream (c :: rest))) with (Some c, fresh_stream rest).
  cbv beta iota. rewrite P, Hc. unfold followed_by_eq.
  destruct (Ascii.eqb_spec c "=") as [->|_];
    [destruct rest as [|e rest']; simpl; [|destruct (e =? "=")%char]; reflexivity|].
  destruct (Ascii.eqb_spec c "!") as [->|_];
    [destruct rest as [|e rest']; simpl; [|destruct (e =? "=")%char]; reflexivity|].
  destruct (Ascii.eqb_spec c ">") as [->|_];
    [destruct rest as [|e rest']; simpl; [|destruct (e =? "=")%char]; reflexivity|].
  destruct (Ascii.eqb_spec c "<") as [->|_];
    [destruct rest as [|e rest']; simpl; [|destruct (e =? "=")%char]; reflexivity|].
  reflexivity.
Qed.

(** X13 on [<=]. *)
Lemma ParseChars_operators_witness :
  ParseChars (mkLexer (fresh_stream ["<"; "="; "1"]%char) [] 0%nat 0) =
    Ok (mkLexer (fresh_stream ["1"%char]) [token_type.LessOrEq] 0%nat 0).
Proof.
  apply (ParseChars_operators "<"%char ["="; "1"]%char [] 0%nat 0);
    [reflexivity|discriminate].
Defined.

(** ** Words *)

Lemma keyword_loop_word t : forall fuel keyword c rest,
  (length t < fuel)%nat ->
  Forall (fun x => word_char x = true) t -> word_char c = false ->
  keyword_loop fuel (fresh_stream (t ++ c :: rest)) keyword =
    (fresh_stream (c :: rest), keyword ++ t).
Proof.
  unfold word_char.
  induction t as [|x t IH]; intros fuel keyword c rest Hfuel Ht Hc;
    destruct fuel as [|fuel]; simpl in Hfuel; try lia; simpl app;
    rewrite keyword_loop_step.
  - rewrite Hc, app_nil_r. reflexivity.
  - apply Forall_cons in Ht as [Hx Ht]. rewrite Hx.
    rewrite IH by (lia || assumption). rewrite <- app_assoc. reflexivity.
Qed.

Lemma keyword_loop_last_word t : forall fuel keyword,
  (length t < fuel)%nat ->
  Forall (fun x => word_char x = true) t ->
  keyword_loop fuel (fresh_stream t) keyword =
    (mkStream [] true true, keyword ++ t).
Proof.
  unfold word_char.
  induction t as [|x t IH]; intros fuel keyword Hfuel Ht;
    destruct fuel as [|fuel]; simpl in Hfuel; try lia.
  - rewrite app_nil_r. reflexivity.
  - rewrite keyword_loop_step. apply Forall_cons in Ht as [Hx Ht]. rewrite Hx.
    rewrite IH by (lia || assumption). rewrite <- app_assoc. reflexivity.
Qed.

Lemma first_is_word_char h :
  isalpha h || (h =? "_")%char = true -> word_char h = true.
Proof.
  unfold word_char, isalnum. intros H.
  destruct (isalpha h); [reflexivity|]. simpl in *. rewrite H. apply orb_true_r.
Qed.

(** X14. A word starts with a letter or an underscore and goes on with
    letters, digits and underscores as far as they go.  [ParseKeywords]
    reads the whole word, leaves what follows it, and emits one token for
    it; a word that ends the input leaves the stream failed. *)
Theorem ParseKeywords_word h t c rest toks cur d :
  isalpha h || (h =? "_")%char = true ->
  Forall (fun x => word_char x = true) t -> word_char c = false ->
  ParseKeywords (mkLexer (fresh_stream (h :: t ++ c :: rest)) toks cur d) =
    Ok (mkLexer (fresh_stream (c :: rest))
          (toks ++ [classify (string_of_list_ascii (h :: t))]) cur d) /\
  ParseKeywords (mkLexer (fresh_stream (h :: t)) toks cur d) =
    Ok (mkLexer (mkStream [] true true)
          (toks ++ [classify (string_of_list_ascii (h :: t))]) cur d).
Proof.
  intros Hh Ht Hc. pose proof (first_is_word_char h Hh) as Hw.
  unfold ParseKeywords. simpl token_input_. rewrite !CheckEof_more. split.
  - change (peek (fresh_stream (h :: t ++ c :: rest)))
      with (Some h, fresh_stream (h :: t ++ c :: rest)).
    cbv beta iota. rewrite Hh.
    rewrite (keyword_loop_word (h :: t) _ [] c rest);
      [reflexivity|unfold enough; simpl; rewrite length_app; simpl; lia
      |constructor; assumption|assumption].
  - change (peek (fresh_stream (h :: t))) with (Some h, fresh_stream (h :: t)).
    cbv beta iota. rewrite Hh.
    rewrite (keyword_loop_last_word (h :: t) _ []);
      [reflexivity|unfold enough; simpl; lia|constructor; assumption].
Qed.

(** X14 on [if] before a space. *)
Lemma ParseKeywords_word_witness :
  ParseKeywords (mkLexer (fresh_stream ("i" :: ["f"] ++ " " :: ["a"])%char) [] 0%nat 0) =
    Ok (mkLexer (fresh_stream (" " :: ["a"])%char) [token_type.If] 0%nat 0) /\
  ParseKeywords (mkLexer (fresh_stream ("i" :: ["f"])%char) [] 0%nat 0) =
    Ok (mkLexer (mkStream [] true true) [token_type.If] 0%nat 0).
Proof.
  apply (ParseKeywords_word "i"%char ["f"%char] " "%char ["a"%char] [] 0%nat 0);
    [reflexivity|repeat constructor|reflexivity].
Defined.

(** X15. A word is an identifier exactly when it is none of the twelve
    reserved words, compared letter by letter, capitals and all; an
    identifier token carries the word itself. *)
Theorem classify_Id_iff w :
  (classify w = token_type.Id w <-> ~ In w keywords) /\
  (forall v, classify w = token_type.Id v -> v = w).
Proof.
  split; [split|].
  - intros H Hin. simpl in Hin.
    repeat (destruct Hin as [<-|Hin]; [vm_compute in H; discriminate|]).
    exact Hin.
  - intros Hn. unfold classify.
    repeat match goal with
           | |- context [String.eqb w ?k] =>
               destruct (String.eqb_spec w k) as [->|_];
               [exfalso; apply Hn; simpl; tauto|]
           end.
    reflexivity.
  - intros v. unfold classify.
    repeat match goal with
           | |- context [String.eqb w ?k] =>
               destruct (String.eqb w k); [discriminate|]
           end.
    intros [= ->]. reflexivity.
Qed.

(** ** Numbers *)

Lemma number_loop_digits_run t : forall fuel result c rest,
  (length t < fuel)%nat ->
  Forall (fun x => isdigit x = true) t -> isdigit c = false ->
  number_loop fuel (fresh_stream (t ++ c :: rest)) result =
    (fresh_stream (c :: rest), result ++ t).
Proof.
  induction t as [|x t IH]; intros fuel result c rest Hfuel Ht Hc;
    destruct fuel as [|fuel]; simpl in Hfuel; try lia; simpl app;
    rewrite number_loop_step.
  - rewrite Hc, app_nil_r. reflexivity.
  - apply Forall_cons in Ht as [Hx Ht]. rewrite Hx.
    rewrite IH by (lia || assumption). rewrite <- app_assoc. reflexivity.
Qed.

Lemma number_loop_last_run t : forall fuel result,
  (length t < fuel)%nat ->
  Forall (fun x => isdigit x = true) t ->
  number_loop fuel (fresh_stream t) result =
    (mkStream [] true true, result ++ t).
Proof.
  induction t as [|x t IH]; intros fuel result Hfuel Ht;
    destruct fuel as [|fuel]; simpl in Hfuel; try lia.
  - rewrite app_nil_r. reflexivity.
  - rewrite number_loop_step. apply Forall_cons in Ht as [Hx Ht]. rewrite Hx.
    rewrite IH by (lia || assumption). rewrite <- app_assoc. reflexivity.
Qed.

(** X16. [ParseNumbers] reads a whole run of digits and leaves what follows
    it.  When the decimal value fits an [int] it emits the [Number]; when it
    does not, what is thrown is [std::out_of_range], not a [LexerError], and
    no token is emitted.  The same at the end of the input, where the stream
    is left failed. *)
Theorem ParseNumbers_digits h t c rest toks cur d :
  Forall (fun x => isdigit x = true) (h :: t) -> isdigit c = false ->
  ParseNumbers (mkLexer (fresh_stream (h :: t ++ c :: rest)) toks cur d) =
    (if digits_value (h :: t) <=? INT_MAX
     then Ok (mkLexer (fresh_stream (c :: rest))
                (toks ++ [token_type.Number (digits_value (h :: t))]) cur d)
     else Throw (out_of_range "stoi")) /\
  ParseNumbers (mkLexer (fresh_stream (h :: t)) toks cur d) =
    (if digits_value (h :: t) <=? INT_MAX
     then Ok (mkLexer (mkStream [] true true)
                (toks ++ [token_type.Number (digits_value (h :: t))]) cur d)
     else Throw (out_of_range "stoi")).
Proof.
  intros Hd Hc. pose proof Hd as Hd'. apply Forall_cons in Hd' as [Hh _].
  unfold ParseNumbers. simpl token_input_. rewrite !CheckEof_more. split.
  - change (peek (fresh_stream (h :: t ++ c :: rest)))
      with (Some h, fresh_stream (h :: t ++ c :: rest)).
    cbv beta iota. rewrite Hh.
    rewrite (number_loop_digits_run (h :: t) _ [] c rest);
      [|unfold enough; simpl; rewrite length_app; simpl; lia
       |assumption|assumption].
    unfold stoi. simpl app. destruct (_ <=? INT_MAX); reflexivity.
  - change (peek (fresh_stream (h :: t))) with (Some h, fresh_stream (h :: t)).
    cbv beta iota. rewrite Hh.
    rewrite (number_loop_last_run (h :: t) _ []);
      [|unfold enough; simpl; lia|assumption].
    unfold stoi. simpl app. destruct (_ <=? INT_MAX); reflexivity.
Qed.

(** X16 on [2147483648], one more than [INT_MAX]. *)
Lemma ParseNumbers_digits_witness :
  ParseNumbers
    (mkLexer (fresh_stream (list_ascii_of_string "2147483648 ")) [] 0%nat 0) =
    Throw (out_of_range "stoi") /\
  ParseNumbers
    (mkLexer (fresh_stream (list_ascii_of_string "2147483648")) [] 0%nat 0) =
    Throw (out_of_range "stoi").
Proof.
  apply (ParseNumbers_digits "2"%char (list_ascii_of_string "147483648")
           " "%char [] [] 0%nat 0); [repeat constructor|reflexivity].
Defined.

(** ** String literals *)

Lemma string_loop_fuel f1 s : forall f2 begin result ch,
  (length (buf s) < f1)%nat -> (f1 <= f2)%nat ->
  string_loop f2 begin s result ch = string_loop f1 begin s result ch.
Proof.
  intros f2 begin result ch Hlen Hle.
  induction Hle as [|f2 Hle IH]; [reflexivity|].
  rewrite string_loop_more_fuel by lia. exact IH.
Qed.

Lemma string_loop_plain fuel q c rest result ch :
  c <> q -> c <> "092"%char -> c <> NL -> c <> "013"%char ->
  string_loop (S fuel) q (fresh_stream (c :: rest)) result ch =
    string_loop fuel q (fresh_stream rest) (result ++ [c]) (Some c).
Proof.
  intros H1 H2 H3 H4. apply Ascii.eqb_neq in H1, H2, H3, H4.
  cbn [string_loop].
  change (get (fresh_stream (c :: rest))) with (Some c, fresh_stream rest).
  cbv beta iota. rewrite H1, H2, H3, H4. reflexivity.
Qed.

Lemma string_loop_escape fuel q e x rest result ch :
  q <> "092"%char -> escape e = Some x ->
  string_loop (S fuel) q (fresh_stream ("092"%char :: e :: rest)) result ch =
    string_loop fuel q (fresh_stream rest) (result ++ [x]) (Some "092"%char).
Proof.
  intros Hq He. apply not_eq_sym in Hq. apply Ascii.eqb_neq in Hq.
  cbn [string_loop].
  change (get (fresh_stream ("092"%char :: e :: rest)))
    with (Some "092"%char, fresh_stream (e :: rest)).
  cbv beta iota. rewrite Hq.
  change ("092" =? "092")%char with true. cbv iota.
  change (get (fresh_stream (e :: rest))) with (Some e, fresh_stream rest).
  cbv beta iota. rewrite He. reflexivity.
Qed.

(** How a character is written: as itself when it is none of the six,
    or as a backslash and the letter that [ParseString] turns back into
    it. *)
Lemma written_cases c :
  (written c = [c] /\ c <> NL /\ c <> "013"%char /\ c <> "092"%char /\
   c <> "039"%char /\ c <> "034"%char) \/
  (exists e, written c = ["092"%char; e] /\ escape e = Some c).
Proof.
  unfold written.
  destruct (Ascii.eqb_spec c NL) as [->|H1]; [right; exists "n"%char; split; reflexivity|].
  destruct (Ascii.eqb_spec c "009") as [->|H2]; [right; exists "t"%char; split; reflexivity|].
  destruct (Ascii.eqb_spec c "013") as [->|H3]; [right; exists "r"%char; split; reflexivity|].
  destruct (Ascii.eqb_spec c "034") as [->|H4]; [right; exists "034"%char; split; reflexivity|].
  destruct (Ascii.eqb_spec c "039") as [->|H5]; [right; exists "039"%char; split; reflexivity|].
  destruct (Ascii.eqb_spec c "092") as [->|H6]; [right; exists "092"%char; split; reflexivity|].
  left. auto 10.
Qed.

Lemma is_quote q :
  (q =? "039")%char || (q =? "034")%char = true ->
  q = "039"%char \/ q = "034"%char.
Proof.
  intros H. apply orb_true_iff in H as [H|H]; apply Ascii.eqb_eq in H; auto.
Qed.

(** The loop of [ParseString] through what is written of [s]: it gathers
    [s], and the last character it read is not the quote. *)
Lemma string_loop_written q s : forall fuel fuel' result ch tail,
  (q =? "039")%char || (q =? "034")%char = true ->
  (length (flat_map written s ++ tail) < fuel)%nat ->
  (length tail < fuel')%nat ->
  exists ch',
    (match s with [] => ch' = ch | _ => exists c, ch' = Some c /\ c <> q end) /\
    string_loop fuel q (fresh_stream (flat_map written s ++ tail)) result ch =
      string_loop fuel' q (fresh_stream tail) (result ++ s) ch'.
Proof.
  intros fuel fuel' result ch tail Hq. revert fuel result ch.
  induction s as [|c s IH]; intros fuel result ch Hfuel Hfuel'.
  - exists ch. split; [reflexivity|]. simpl. rewrite app_nil_r.
    simpl in Hfuel. destruct (Nat.le_ge_cases fuel fuel').
    + symmetry. apply string_loop_fuel; simpl; lia.
    + apply string_loop_fuel; simpl; lia.
  - cbn [flat_map] in *. rewrite <- app_assoc in *.
    destruct fuel as [|fuel]; [simpl in Hfuel; lia|].
    assert (Hq' : q <> "092"%char) by (destruct (is_quote q Hq) as [-> | ->]; discriminate).
    destruct (written_cases c) as [(Hw & N1 & N2 & N3 & N4 & N5)|(e & Hw & He)];
      rewrite Hw in *; simpl app in *.
    + assert (Hcq : c <> q) by (destruct (is_quote q Hq) as [-> | ->]; assumption).
      rewrite string_loop_plain by assumption.
      destruct (IH fuel (result ++ [c]) (Some c)) as (ch' & Hch & Heq);
        [simpl in Hfuel; lia|assumption|].
      exists ch'. split.
      * destruct s; [subst ch'; exists c; split; [reflexivity|assumption]|exact Hch].
      * rewrite Heq, <- app_assoc. reflexivity.
    + rewrite (string_loop_escape fuel q e c) by assumption.
      destruct (IH fuel (result ++ [c]) (Some "092"%char)) as (ch' & Hch & Heq);
        [simpl in Hfuel; lia|assumption|].
      exists ch'. split.
      * destruct s; [subst ch'; exists "092"%char; split; [reflexivity|];
                     apply not_eq_sym; assumption|exact Hch].
      * rewrite Heq, <- app_assoc. reflexivity.
Qed.

Lemma ParseString_at_quote q body toks cur d :
  (q =? "039")%char || (q =? "034")%char = true ->
  ParseString (mkLexer (fresh_stream (q :: body)) toks cur d) =
    bind (string_loop (S (length body)) q (fresh_stream body) [] None)
      (fun '(s2, result, ch) =>
         match ch with
         | Some c =>
             if (q =? c)%char then
               Ok (emplace_back
                     (set_input (mkLexer (fresh_stream (q :: body)) toks cur d) s2)
                     (token_type.String (string_of_list_ascii result)))
             else Throw (LexerError "ParseString is failed at 222")
         | None => Undefined
         end).
Proof.
  intros Hq. unfold ParseString. simpl token_input_. rewrite CheckEof_more.
  change (get (fresh_stream (q :: body))) with (Some q, fresh_stream body).
  cbv beta iota. rewrite Hq. reflexivity.
Qed.

(** X17. Writing and reading a string agree.  Take any string, write each
    of its characters as [written] has it, put it between two single or two
    double quotes: [ParseString] reads exactly this literal, leaves what
    follows, and emits a [String] token that holds the string. *)
Theorem ParseString_literal q s rest toks cur d :
  (q =? "039")%char || (q =? "034")%char = true ->
  ParseString (mkLexer (fresh_stream (literal q s ++ rest)) toks cur d) =
    Ok (mkLexer (fresh_stream rest) (toks ++ [token_type.String s]) cur d).
Proof.
  intros Hq. unfold literal. simpl app. rewrite <- app_assoc. simpl app.
  rewrite ParseString_at_quote by exact Hq.
  set (body := list_ascii_of_string s).
  destruct (string_loop_written q body
              (S (length (flat_map written body ++ q :: rest)))
              (S (length (q :: rest))) [] None (q :: rest) Hq)
    as (ch' & _ & ->); [lia|lia|].
  cbn [string_loop].
  change (get (fresh_stream (q :: rest))) with (Some q, fresh_stream rest).
  cbv beta iota. rewrite Ascii.eqb_refl. cbn [bind app].
  rewrite Ascii.eqb_refl. unfold emplace_back, set_input. simpl.
  subst body. rewrite string_of_list_ascii_of_string. reflexivity.
Qed.

(** X17 on a string of a quote, a line terminator and a letter. *)
Lemma ParseString_literal_witness :
  ParseString
    (mkLexer (fresh_stream (literal "034"%char (dquote ++ LF ++ "a") ++ ["+"%char]))
       [] 0%nat 0) =
    Ok (mkLexer (fresh_stream ["+"%char])
          [token_type.String (dquote ++ LF ++ "a")] 0%nat 0).
Proof.
  apply (ParseString_literal "034"%char (dquote ++ LF ++ "a")%string ["+"%char]
           [] 0%nat 0).
  reflexivity.
Defined.

Lemma quote_not c q :
  (q =? "039")%char || (q =? "034")%char = true ->
  c <> "039"%char -> c <> "034"%char -> (c =? q)%char = false.
Proof.
  intros Hq H1 H2. apply Ascii.eqb_neq.
  destruct (is_quote q Hq) as [-> | ->]; assumption.
Qed.

(** X18. A line terminator or a carriage return inside a string literal,
    not written as an escape, makes [ParseString] throw a [LexerError],
    whatever comes before it in the literal and after it in the input. *)
Theorem ParseString_line_end q s nl rest toks cur d :
  (q =? "039")%char || (q =? "034")%char = true ->
  nl = NL \/ nl = "013"%char ->
  ParseString (mkLexer (fresh_stream (q :: flat_map written s ++ nl :: rest))
                 toks cur d) =
    Throw (LexerError "ParseString is failed at 212").
Proof.
  intros Hq Hnl. rewrite ParseString_at_quote by exact Hq.
  destruct (string_loop_written q s
              (S (length (flat_map written s ++ nl :: rest)))
              (S (length (nl :: rest))) [] None (nl :: rest) Hq)
    as (ch' & _ & ->); [lia|lia|].
  cbn [string_loop].
  change (get (fresh_stream (nl :: rest))) with (Some nl, fresh_stream rest).
  cbv beta iota.
  rewrite (quote_not nl q Hq) by (destruct Hnl as [-> | ->]; discriminate).
  destruct Hnl as [-> | ->]; reflexivity.
Qed.

(** X18 on a literal broken by the end of its line. *)
Lemma ParseString_line_end_witness :
  ParseString (mkLexer (fresh_stream ("039" :: flat_map written ["a"] ++ NL :: ["b"])%char)
                 [] 0%nat 0) =
    Throw (LexerError "ParseString is failed at 212").
Proof.
  apply (ParseString_line_end "039"%char ["a"%char] NL ["b"%char] [] 0%nat 0);
    [reflexivity|left; reflexivity].
Defined.

(** X19. The input ends inside a string literal.  After at least one
    character of the literal [ParseString] throws a [LexerError]; so it
    does when the input ends right after a backslash.  When the input ends
    right after the opening quote, the source compares the quote with a
    variable it never assigned. *)
Theorem ParseString_unterminated q s toks cur d :
  (q =? "039")%char || (q =? "034")%char = true ->
  ParseString (mkLexer (fresh_stream (q :: flat_map written s)) toks cur d) =
    match s with
    | [] => Undefined
    | _ => Throw (LexerError "ParseString is failed at 222")
    end /\
  ParseString (mkLexer (fresh_stream (q :: flat_map written s ++ ["092"%char]))
                 toks cur d) =
    Throw (LexerError "ParseString is failed at 208").
Proof.
  intros Hq. split.
  - rewrite ParseString_at_quote by exact Hq.
    rewrite <- (app_nil_r (flat_map written s)).
    destruct (string_loop_written q s
                (S (length (flat_map written s ++ [])))
                1%nat [] None [] Hq)
      as (ch' & Hch & ->); [lia|simpl; lia|].
    cbn [string_loop]. change (get (fresh_stream [])) with (@None ascii, mkStream [] true true).
    cbv beta iota. cbn [bind].
    destruct s as [|c s]; [subst ch'; reflexivity|].
    destruct Hch as (c' & -> & Hc'). apply not_eq_sym in Hc'.
    apply Ascii.eqb_neq in Hc'. rewrite Hc'. reflexivity.
  - rewrite ParseString_at_quote by exact Hq.
    destruct (string_loop_written q s
                (S (length (flat_map written s ++ ["092"%char])))
                2%nat [] None ["092"%char] Hq)
      as (ch' & _ & ->); [lia|simpl; lia|].
    cbn [string_loop].
    change (get (fresh_stream ["092"%char]))
      with (Some "092"%char, fresh_stream []).
    cbv beta iota.
    rewrite (quote_not "092"%char q Hq) by discriminate. reflexivity.
Qed.

(** X19 on a literal that is never closed. *)
Lemma ParseString_unterminated_witness :
  ParseString (mkLexer (fresh_stream ("034" :: flat_map written ["a"; "b"])%char)
                 [] 0%nat 0) =
    Throw (LexerError "ParseString is failed at 222") /\
  ParseString (mkLexer (fresh_stream
                          ("034" :: flat_map written ["a"; "b"] ++ ["092"])%char)
                 [] 0%nat 0) =
    Throw (LexerError "ParseString is failed at 208").
Proof.
  apply (ParseString_unterminated "034"%char ["a"; "b"]%char [] 0%nat 0).
  reflexivity.
Defined.

(** X20. A backslash before a character that is none of [n], [t], [r], the
    two quotes and the backslash makes [ParseString] throw a [LexerError]:
    no other escape is read. *)
Theorem ParseString_bad_escape q s e rest toks cur d :
  (q =? "039")%char || (q =? "034")%char = true ->
  escape e = Datatypes.None ->
  ParseString (mkLexer (fresh_stream (q :: flat_map written s ++ "092"%char :: e :: rest))
                 toks cur d) =
    Throw (LexerError "ParseString is failed at 204").
Proof.
  intros Hq He. rewrite ParseString_at_quote by exact Hq.
  destruct (string_loop_written q s
              (S (length (flat_map written s ++ "092"%char :: e :: rest)))
              (S (length ("092"%char :: e :: rest))) [] None
              ("092"%char :: e :: rest) Hq)
    as (ch' & _ & ->); [lia|lia|].
  cbn [string_loop].
  change (get (fresh_stream ("092"%char :: e :: rest)))
    with (Some "092"%char, fresh_stream (e :: rest)).
  cbv beta iota.
  rewrite (quote_not "092"%char q Hq) by discriminate.
  change ("092" =? "092")%char with true. cbv iota.
  change (get (fresh_stream (e :: rest))) with (Some e, fresh_stream rest).
  cbv beta iota. rewrite He. reflexivity.
Qed.

(** X20 on a backslash before [x]. *)
Lemma ParseString_bad_escape_witness :
  ParseString (mkLexer (fresh_stream
                          ("039" :: flat_map written ["a"] ++ "092" :: "x" :: ["039"])%char)
                 [] 0%nat 0) =
    Throw (LexerError "ParseString is failed at 204").
Proof.
  apply (ParseString_bad_escape "039"%char ["a"%char] "x"%char ["039"%char]
           [] 0%nat 0); reflexivity.
Defined.

(** ** The typed assertions *)

Lemma Expect_value_cases expected tok lx :
  (index expected < 4)%nat -> CurrentToken lx = tok ->
  Expect_value expected lx =
    if (index tok =? index expected)%nat
    then if value_differs tok expected
         then Throw (LexerError "Expect is failed at 165") else Ok tt
    else Throw (LexerError "Expect is failed at 159").
Proof.
  intros _ Htok. unfold Expect_value, Expect. rewrite Htok.
  destruct (index tok =? index expected)%nat; reflexivity.
Qed.

(** X10. [Expect<T>(value)], for the kinds that carry a value, succeeds
    exactly when the current token is [T{value}].  Otherwise it throws a
    [LexerError]: that of [Expect<T>()] when the token is of another kind,
    its own when the kind is right and the value differs.  [ExpectNext]
    judges the token [NextToken] returns. *)
Theorem Expect_value_iff expected lx :
  (index expected < 4)%nat ->
  (Expect_value expected lx = Ok tt <-> CurrentToken lx = expected) /\
  (CurrentToken lx <> expected ->
   Expect_value expected lx =
     Throw (LexerError
              (if (index (CurrentToken lx) =? index expected)%nat
               then "Expect is failed at 165" else "Expect is failed at 159"))) /\
  (fst (ExpectNext_value expected lx) = Ok tt <-> fst (NextToken lx) = expected).
Proof.
  intros Hv.
  assert (Hgen : forall lx',
    (Expect_value expected lx' = Ok tt <-> CurrentToken lx' = expected) /\
    (CurrentToken lx' <> expected ->
     Expect_value expected lx' =
       Throw (LexerError
                (if (index (CurrentToken lx') =? index expected)%nat
                 then "Expect is failed at 165" else "Expect is failed at 159")))).
  { intros lx'. rewrite (Expect_value_cases expected _ lx' Hv eq_refl).
    destruct expected as [n|s|c|s| | | | | | | | | | | | | | | | | | | |];
      simpl in Hv; try lia;
      destruct (CurrentToken lx') as [n'|s'|c'|s'| | | | | | | | | | | | | | | | | | | |];
      simpl; try (split; [split; discriminate|reflexivity]).
    - destruct (Z.eqb_spec n' n) as [->|Hne]; simpl.
      + split; [split; reflexivity|]. intros H. exfalso. apply H. reflexivity.
      + split; [split; [discriminate|]|reflexivity]. intros [= ->]. contradiction.
    - destruct (String.eqb_spec s' s) as [->|Hne]; simpl.
      + split; [split; reflexivity|]. intros H. exfalso. apply H. reflexivity.
      + split; [split; [discriminate|]|reflexivity]. intros [= ->]. contradiction.
    - destruct (Ascii.eqb_spec c' c) as [->|Hne]; simpl.
      + split; [split; reflexivity|]. intros H. exfalso. apply H. reflexivity.
      + split; [split; [discriminate|]|reflexivity]. intros [= ->]. contradiction.
    - destruct (String.eqb_spec s' s) as [->|Hne]; simpl.
      + split; [split; reflexivity|]. intros H. exfalso. apply H. reflexivity.
      + split; [split; [discriminate|]|reflexivity]. intros [= ->]. contradiction. }
  split; [apply Hgen|]. split; [apply Hgen|].
  unfold ExpectNext_value. cbn [fst].
  rewrite (proj1 (Hgen (snd (NextToken lx)))).
  unfold NextToken.
  destruct (S (current_token_ lx) =? length (vct_tokens_ lx))%nat; reflexivity.
Qed.

(** The sample stands at [a], and a [Newline] follows. *)
Lemma Expect_value_iff_witness :
  (Expect_value (token_type.Id "b") sample_lexer = Ok tt <->
   CurrentToken sample_lexer = token_type.Id "b") /\
  (CurrentToken sample_lexer <> token_type.Id "b" ->
   Expect_value (token_type.Id "b") sample_lexer =
     Throw (LexerError
              (if (index (CurrentToken sample_lexer) =? index (token_type.Id "b"))%nat
               then "Expect is failed at 165" else "Expect is failed at 159"))) /\
  (fst (ExpectNext_value (token_type.Id "b") sample_lexer) = Ok tt <->
   fst (NextToken sample_lexer) = token_type.Id "b").
Proof.
  apply (Expect_value_iff (token_type.Id "b") sample_lexer). simpl. lia.
Defined.

End parse_facts.
